(** * website-generator: aggregation, reconciliation and slug assignment

    A shallow embedding of [main.py] (CollegesChat/website-generator) and the
    properties of its data model, reconciler, slug assigner and render
    pipeline.

    Conventions of the embedding.
    - A Python [str] is a [string] holding its UTF-8 encoding.  A valid UTF-8
      string contains the encoding of a character only where that character
      occurs, so removing, replacing, searching and splitting on the encoding
      agree with the same operations on code points.
    - A function of a library ([slugify], [zhconv.convert], [str.strip],
      [int], [float], [datetime.strptime]) is a variable of the section that
      uses it.
    - A Python [int] is a [Z].
    - A mutable object lives in a store and is named by its location; a
      method that mutates [self] is a computation over the object's state.
    - A computation that may raise is a function from the state to an
      outcome and the state left behind: what was mutated before the
      exception stays mutated. *)

From Stdlib Require Import ZArith Ascii String List.
From stdpp Require Import base tactics option list gmap strings pretty.

Local Open Scope Z_scope.

(** ** Exceptions and stateful computations *)

(** [StoreError] is not an exception of Python: it is the outcome of
    following a location that the store does not hold, which no reference of
    a running program is. *)
Inductive exn : Set :=
  | ValueError
  | IndexError
  | KeyError
  | StoreError.

Inductive outcome (A : Type) : Type :=
  | Ok (a : A)
  | Raise (e : exn).
Arguments Ok {A} a.
Arguments Raise {A} e.

(** [M St A]: a computation over a mutable state [St] that returns an [A] or
    raises; the state is returned in both cases. *)
Definition M (St A : Type) : Type := St → outcome A * St.

Global Instance M_ret {St} : MRet (M St) := λ A a s, (Ok a, s).

Global Instance M_bind {St} : MBind (M St) := λ A B k m s,
  match m s with
  | (Ok a, s') => k a s'
  | (Raise e, s') => (Raise e, s')
  end.

Definition raise {St A} (e : exn) : M St A := λ s, (Raise e, s).

Definition read {St A} (f : St → A) : M St A := λ s, (Ok (f s), s).

Definition modify {St} (f : St → St) : M St unit := λ s, (Ok tt, f s).

(** [for x in xs: body x] *)
Fixpoint for_each {St A} (xs : list A) (body : A → M St unit) : M St unit :=
  match xs with
  | [] => mret tt
  | x :: rest => body x;; for_each rest body
  end.

(** [l[i]] for a Python [int] index: a negative index counts from the end,
    and an index outside [-len, len) is an [IndexError]. *)
Definition py_index {A} (l : list A) (i : Z) : option nat :=
  let n := Z.of_nat (length l) in
  if (0 <=? i) && (i <? n) then Some (Z.to_nat i)
  else if (- n <=? i) && (i <? 0) then Some (Z.to_nat (n + i))
  else None.

(** ** Configuration *)

Definition ARCHIVE_TIME : string := "2023-01-01 00:00:00".

Definition QUESTIONNAIRE : list string :=
  [ "宿舍是上床下桌吗？";
    "教室和宿舍有没有空调？";
    "有独立卫浴吗？没有独立浴室的话，澡堂离宿舍多远？";
    "有早自习、晚自习吗？";
    "有晨跑吗？";
    "每学期跑步打卡的要求是多少公里，可以骑车吗？";
    "寒暑假放多久，每年小学期有多长？";
    "学校允许点外卖吗，取外卖的地方离宿舍楼多远？";
    "学校交通便利吗，有地铁吗，在市区吗，不在的话进城要多久？";
    "宿舍楼有洗衣机吗？";
    "校园网怎么样？";
    "每天断电断网吗，几点开始断？";
    "食堂价格贵吗，会吃出异物吗？";
    "洗澡热水供应时间？";
    "校园内可以骑电瓶车吗，电池在哪能充电？";
    "宿舍限电情况？";
    "通宵自习有去处吗？";
    "大一能带电脑吗？";
    "学校里面用什么卡，饭堂怎样消费？";
    "学校会给学生发银行卡吗？";
    "学校的超市怎么样？";
    "学校的收发快递政策怎么样？";
    "学校里面的共享单车数目与种类如何？";
    "现阶段学校的门禁情况如何？";
    "宿舍晚上查寝吗，封寝吗，晚归能回去吗？" ].

(** ** Data classes *)

Module IndexedContent.
Record t : Set := mk { answer_id : Z; content : string }.

(** [__str__]: [f'A{self.answer_id}: {self.content}'] *)
Definition __str__ (self : t) : string :=
  "A" +:+ pretty (answer_id self) +:+ ": " +:+ content self.
End IndexedContent.

Module AnswerGroup.
Record t : Set := mk { answers : list IndexedContent.t }.

(** The default factory: an empty list. *)
Definition new : t := mk [].

Definition add_answer (ans : IndexedContent.t) (self : t) : t :=
  mk (answers self ++ [ans]).

Definition extend (other : t) (self : t) : t :=
  mk (answers self ++ answers other).
End AnswerGroup.

Module University.
Record t : Set := mk {
  answers : list AnswerGroup.t;
  additional_answers : list IndexedContent.t;
  credits : list IndexedContent.t
}.

(** The default factories: one fresh [AnswerGroup] per question, and two
    empty lists. *)
Definition new : t :=
  mk (map (λ _, AnswerGroup.new) (seq 0 (length QUESTIONNAIRE))) [] [].

Definition set_answers (bins : list AnswerGroup.t) (self : t) : t :=
  mk bins (additional_answers self) (credits self).

Definition add_answer (index : Z) (answer : IndexedContent.t) : M t unit :=
  λ self,
    match py_index (answers self) index with
    | Some k =>
        (Ok tt,
         set_answers (alter (AnswerGroup.add_answer answer) k (answers self)) self)
    | None => (Raise IndexError, self)
    end.

(** [if answer.content:] is the test that the string is not empty. *)
Definition add_additional_answer (answer : IndexedContent.t) : M t unit :=
  λ self,
    if decide (IndexedContent.content answer = "")
    then (Ok tt, self)
    else (Ok tt,
          mk (answers self) (additional_answers self ++ [answer]) (credits self)).

Definition add_credit (credit : IndexedContent.t) : M t unit :=
  λ self,
    (Ok tt, mk (answers self) (additional_answers self) (credits self ++ [credit])).

(** [for mine, other_group in zip(self.answers, other.answers, strict=True):
       mine.extend(other_group)].
    [zip(strict=True)] yields the pairs of the common prefix and raises
    [ValueError] when one list ends before the other, so the bins of the
    common prefix are already extended when it raises. *)
Fixpoint extend_zip (mine other : list AnswerGroup.t)
  : outcome unit * list AnswerGroup.t :=
  match mine, other with
  | [], [] => (Ok tt, [])
  | m :: ms, o :: os =>
      let '(r, ms') := extend_zip ms os in (r, AnswerGroup.extend o m :: ms')
  | _, _ => (Raise ValueError, mine)
  end.

(** [other] is the state of the argument when the call starts.  When the
    argument is another object, it is not mutated by the call.  When it is
    [self] itself, each bin is extended by its own content
    ([l.extend(l)] appends the elements [l] had), and so are the two
    lists: in both cases what is appended is what [other] held at the
    start. *)
Definition combine_from (other : t) : M t unit :=
  (λ self,
     let '(r, bins) := extend_zip (answers self) (answers other) in
     (r, set_answers bins self));;
  modify (λ self,
    mk (answers self)
       (additional_answers self ++ additional_answers other)
       (credits self));;
  modify (λ self,
    mk (answers self)
       (additional_answers self)
       (credits self ++ credits other)).
End University.

(** ** Regular expressions

    The three patterns of the program are character classes.
    [re_sub chars repl s] is [re.sub('[...]', repl, s)] for the class whose
    members have the encodings [chars]: scanning from the left, every
    occurrence of a member is replaced by [repl]. *)

Fixpoint re_sub_go (chars : list string) (repl : string) (skip : nat) (s : string)
  : string :=
  match s with
  | EmptyString => ""
  | String c rest =>
      match skip with
      | S k => re_sub_go chars repl k rest
      | O =>
          match List.find (λ p, String.prefix p s) chars with
          | Some p => repl +:+ re_sub_go chars repl (String.length p - 1) rest
          | None => String c (re_sub_go chars repl 0 rest)
          end
      end
  end.

Definition re_sub (chars : list string) (repl : string) (s : string) : string :=
  re_sub_go chars repl 0 s.

(** [re.search] of an alternation of literals: is one of them a substring? *)
Fixpoint re_search (alts : list string) (s : string) : bool :=
  existsb (λ p, String.prefix p s) alts
  || match s with
     | EmptyString => false
     | String _ rest => re_search alts rest
     end.

(** The double quote, the backslash and the character NUL, by their
    codes. *)
Definition dquote : string := String (ascii_of_nat 34) "".
Definition backslash : string := String (ascii_of_nat 92) "".
Definition nul : string := String (ascii_of_nat 0) "".

(** The members of the three classes and the three alternatives. *)

Definition NAME_PREPROCESS : list string := ["("; ")"; "（"; "）"; "【"; "】"; "#"].
Definition FILENAME_PREPROCESS : list string := ["/"; ">"; "|"; ":"; "&"].
Definition NORMAL_NAME_MATCHER : list string := ["大学"; "学院"; "学校"].

(** ** FilenameMap *)

Module FilenameMap.
Record t : Type := mk { mapping : gmap string string; used : gset string }.

(** [__init__] *)
Definition new : t := mk ∅ ∅.

Section unused_slug.
Variables (used : gset string) (base : string).

(** [f'{base}-{idx}'] *)
Definition numbered (idx : Z) : string := base +:+ "-" +:+ pretty idx.

(** One turn of [while slug in self.used: idx += 1; slug = f'{base}-{idx}'],
    from the state [st] to the state [st']. *)
Definition turn (st' st : Z * string) : Prop :=
  st.2 ∈ used ∧ st'.1 = st.1 + 1 ∧ st'.2 = numbered st'.1.

Lemma numbered_inj : Inj (=) (=) numbered.
Proof.
  intros i j Hij. unfold numbered in Hij.
  apply (inj (String.app base)) in Hij.
  apply (inj (String.app "-")) in Hij.
  by apply (inj pretty) in Hij.
Qed.

(** The loop ends: the candidates it tries are pairwise distinct and
    [used] is finite. *)
Lemma turn_numbered_acc (X : gset string) :
  ∀ idx, (∀ k, idx ≤ k → numbered k ∈ used → numbered k ∈ X) →
         Acc turn (idx, numbered idx).
Proof.
  induction (set_wf X) as [X _ IH]. intros idx HX.
  constructor. intros [idx' slug'] (Hin & Hidx & Hslug). simpl in *. subst.
  apply (IH (X ∖ {[ numbered idx ]})).
  - apply subset_difference_elem_of. apply HX; [lia | done].
  - intros k Hk Hused. apply elem_of_difference. split.
    + apply HX; [lia | done].
    + rewrite elem_of_singleton. intros Heq. apply numbered_inj in Heq. lia.
Qed.

Lemma turn_wf : well_founded turn.
Proof.
  intros [idx slug]. constructor.
  intros [idx' slug'] (Hin & Hidx & Hslug). simpl in *. subst slug'.
  by apply (turn_numbered_acc used).
Qed.

Lemma turn_step idx slug :
  slug ∈ used → turn (idx + 1, numbered (idx + 1)) (idx, slug).
Proof. by split. Qed.

Fixpoint while_used (idx : Z) (slug : string) (acc : Acc turn (idx, slug))
  {struct acc} : string :=
  match decide (slug ∈ used) with
  | left Hin =>
      while_used (idx + 1) (numbered (idx + 1))
        (Acc_inv acc (turn_step idx slug Hin))
  | right _ => slug
  end.

(** [slug = base; idx = 1; while ...]: the slug the loop ends with. *)
Definition unused_slug : string :=
  while_used 1 base (wf_guard 32 turn_wf (1, base)).
End unused_slug.

Section getitem.
(** [slugify] of the [python-slugify] package. *)
Variable slugify : string → string.

Definition __getitem__ (name : string) : M t string :=
  λ self,
    match mapping self !! name with
    | Some slug => (Ok slug, self)
    | None =>
        let base := slugify (re_sub FILENAME_PREPROCESS "" name) in
        let slug := unused_slug (used self) base in
        (Ok slug, mk (<[name := slug]> (mapping self)) ({[slug]} ∪ used self))
    end.
End getitem.
End FilenameMap.

(** ** String methods *)

Definition newline : ascii := ascii_of_nat 10.

(** [s.rstrip('\n')] *)
Fixpoint rstrip_newline (s : string) : string :=
  match s with
  | EmptyString => ""
  | String c rest =>
      let rest' := rstrip_newline rest in
      if decide (c = newline ∧ rest' = "") then "" else String c rest'
  end.

(** [s.split(sep)] for a non-empty [sep]: the pieces between the occurrences
    of [sep], found from the left without overlap.  [cur] is the piece being
    read, reversed, and [skip] the bytes of a separator still to pass. *)
Fixpoint split_go (sep : string) (skip : nat) (cur : string) (s : string)
  : list string :=
  match s with
  | EmptyString => [String.rev cur]
  | String c rest =>
      match skip with
      | S k => split_go sep k cur rest
      | O =>
          if String.prefix sep s
          then String.rev cur :: split_go sep (String.length sep - 1) "" rest
          else split_go sep 0 (String c cur) rest
      end
  end.

Definition split (sep : string) (s : string) : list string := split_go sep 0 "" s.

(** [','.join(parts)] and the like. *)
Fixpoint join (sep : string) (parts : list string) : string :=
  match parts with
  | [] => ""
  | [p] => p
  | p :: rest => p +:+ sep +:+ join sep rest
  end.

(** ** The registries and the store of aggregates *)

(** A location of the store. *)
Abbreviation loc := nat (only parsing).

(** What the program prints, with the text of each line below. *)
Inductive message : Type :=
  | warn_alias_primary_missing (name : string)
  | warn_maybe_invalid (name : string) (credits : list IndexedContent.t)
  | error_illegal_filename (target : string).

Definition message_text (m : message) : string :=
  match m with
  | warn_alias_primary_missing name => "[warn] alias primary missing: " +:+ name
  | warn_maybe_invalid name credits =>
      "[warn] maybe invalid: " +:+ name +:+ " "
      +:+ join "," (map (λ c, "A" +:+ pretty (IndexedContent.answer_id c)) credits)
  | error_illegal_filename target => "[error] " +:+ target +:+ " 文件名可能非法！"
  end.

(** The two module-level dictionaries [universities] and
    [universities_archived] map a name to the aggregate it refers to; the
    aggregates live in [objects].  A dictionary is a finite map: the order in
    which Python enumerates its keys (insertion order) is not kept, and
    [map_to_list] stands for it. *)
Record state : Type := mk_state {
  universities : gmap string loc;
  universities_archived : gmap string loc;
  objects : list University.t;
  stdout : list message
}.

(** Which of the two dictionaries a function was passed. *)
Inductive dict_ref : Set := the_universities | the_universities_archived.

Definition get_dict (r : dict_ref) (st : state) : gmap string loc :=
  match r with
  | the_universities => universities st
  | the_universities_archived => universities_archived st
  end.

Definition set_dict (r : dict_ref) (d : gmap string loc) (st : state) : state :=
  match r with
  | the_universities =>
      mk_state d (universities_archived st) (objects st) (stdout st)
  | the_universities_archived =>
      mk_state (universities st) d (objects st) (stdout st)
  end.

Definition set_objects (os : list University.t) (st : state) : state :=
  mk_state (universities st) (universities_archived st) os (stdout st).

Definition print (m : message) : M state unit :=
  modify (λ st,
    mk_state (universities st) (universities_archived st) (objects st)
             (stdout st ++ [m])).

(** Read the object at a location. *)
Definition deref (l : loc) : M state University.t :=
  λ st, match objects st !! l with
        | Some u => (Ok u, st)
        | None => (Raise StoreError, st)
        end.

(** Call a method on the object at a location: the method runs on the
    object's state and the store keeps what it leaves. *)
Definition call {A} (l : loc) (method : M University.t A) : M state A :=
  λ st, match objects st !! l with
        | Some u =>
            let '(r, u') := method u in
            (r, set_objects (<[l := u']> (objects st)) st)
        | None => (Raise StoreError, st)
        end.

(** ** Reconciliation: [process_universities] *)

Section process_universities.
(** [str.strip] of the Python built-ins. *)
Variable strip : string → string.
(** The dictionary passed as [universities]. *)
Variable dict : dict_ref.

(** The body of [for alias in aliases], with [primary] the aggregate that
    [universities.get(name)] returned. *)
Definition merge_alias (primary : loc) (alias : string) : M state unit :=
  d ← read (get_dict dict);
  match d !! alias with
  | Some other =>
      o ← deref other;
      call primary (University.combine_from o);;
      modify (λ st, set_dict dict (delete alias (get_dict dict st)) st)
  | None => mret tt
  end.

(** One line of [alias.txt]. *)
Definition alias_line (name : string) (aliases : list string) : M state unit :=
  d ← read (get_dict dict);
  match d !! name with
  | None => print (warn_alias_primary_missing name)
  | Some primary => for_each aliases (merge_alias primary)
  end.

(** [name, *aliases = line.rstrip('\n').split('🚮')] *)
Definition alias_step (line : string) : M state unit :=
  match split "🚮" (rstrip_newline line) with
  | name :: aliases => alias_line name aliases
  | [] => raise ValueError
  end.

(** [universities.pop(line.strip(), None)] *)
Definition blacklist_step (line : string) : M state unit :=
  modify (λ st, set_dict dict (delete (strip line) (get_dict dict st)) st).

(** [NORMAL_NAME_MATCHER.search(name) is None and name not in whitelist] *)
Definition maybe_invalid (whitelist : gset string) (name : string) : bool :=
  negb (re_search NORMAL_NAME_MATCHER name) && bool_decide (name ∉ whitelist).

(** The body of the scan.  [universities[name]] is read for a name that
    [keys()] has just returned. *)
Definition anomaly_step (whitelist : gset string) (name : string) : M state unit :=
  if maybe_invalid whitelist name then
    d ← read (get_dict dict);
    match d !! name with
    | Some l =>
        u ← deref l;
        print (warn_maybe_invalid name (University.credits u))
    | None => raise KeyError
    end
  else mret tt.

(** [list(universities.keys())] *)
Definition keys (d : gmap string loc) : list string := (map_to_list d).*1.

(** The three steps of [process_universities].  A file that does not
    exist is [None]; otherwise it is its lines. *)
Definition alias_merge (alias : option (list string)) : M state unit :=
  match alias with
  | Some lines => for_each lines alias_step
  | None => mret tt
  end.

Definition blacklist_removal (blacklist : option (list string)) : M state unit :=
  match blacklist with
  | Some lines => for_each lines blacklist_step
  | None => mret tt
  end.

(** [{l.strip() for l in wl.read_text().splitlines()}], or the empty set
    when the file does not exist. *)
Definition whitelist_set (whitelist : option (list string)) : gset string :=
  match whitelist with
  | Some lines => list_to_set (strip <$> lines)
  | None => ∅
  end.

Definition anomaly_scan (whitelist : option (list string)) : M state unit :=
  let wl := whitelist_set whitelist in
  d ← read (get_dict dict);
  for_each (keys d) (anomaly_step wl).

Definition process_universities
    (alias blacklist whitelist : option (list string)) : M state unit :=
  alias_merge alias;;
  blacklist_removal blacklist;;
  anomaly_scan whitelist.
End process_universities.

(** ** Paths

    [pathlib.PurePosixPath], as far as the program uses it: a path is its
    components; joining a string splits it at every [/], which is the
    separator (on Windows [/] separates as well), drops the empty and the
    [.] components, and starts again from the root when the string starts
    with [/].  The root is one boolean: for a string that starts with
    exactly two slashes [pathlib] keeps the root [//], which the model
    does not tell from [/]; the difference shows in [str] only. *)

Module Path.
Record t : Set := mk { absolute : bool; parts : list string }.

Definition components (s : string) : list string :=
  List.filter (λ c, negb (String.eqb c "") && negb (String.eqb c "."))
              (split "/" s).

(** [Path(s)] *)
Definition of_string (s : string) : t := mk (String.prefix "/" s) (components s).

(** [self / segment] *)
Definition joinpath (self : t) (segment : string) : t :=
  if String.prefix "/" segment then of_string segment
  else mk (absolute self) (parts self ++ components segment).

(** [self.name]: the final component, if any. *)
Definition name (self : t) : string := List.last (parts self) "".

(** [self.parent] *)
Definition parent (self : t) : t := mk (absolute self) (removelast (parts self)).

(** [s.rfind('.')]: the index of the last dot. *)
Fixpoint rfind_dot (s : string) : option nat :=
  match s with
  | EmptyString => None
  | String c rest =>
      match rfind_dot rest with
      | Some i => Some (S i)
      | None => if decide (c = "."%char) then Some 0%nat else None
      end
  end.

(** Where the suffix starts: at the last dot, when that dot is neither the
    first nor the last character of the name. *)
Definition suffix_start (name : string) : option nat :=
  match rfind_dot name with
  | Some i =>
      if decide (0 < i < String.length name - 1)%nat then Some i else None
  | None => None
  end.

(** [self.stem] *)
Definition stem (self : t) : string :=
  match suffix_start (name self) with
  | Some i => String.substring 0 i (name self)
  | None => name self
  end.

(** [self.suffix] *)
Definition suffix (self : t) : string :=
  match suffix_start (name self) with
  | Some i => String.substring i (String.length (name self) - i) (name self)
  | None => ""
  end.

(** [self.with_name(name)]: [ValueError] when the path has no name or the
    new name is empty, is [.] or holds a separator. *)
Definition with_name (self : t) (new_name : string) : outcome t :=
  if decide (name self = "" ∨ new_name = "" ∨ new_name = "."
             ∨ re_search ["/"] new_name = true)
  then Raise ValueError
  else Ok (mk (absolute self) (removelast (parts self) ++ [new_name])).

(** [self.with_stem(stem)] *)
Definition with_stem (self : t) (new_stem : string) : outcome t :=
  with_name self (new_stem +:+ suffix self).

(** [str(self)] *)
Definition __str__ (self : t) : string :=
  match absolute self, parts self with
  | false, [] => "."
  | false, ps => join "/" ps
  | true, ps => "/" +:+ join "/" ps
  end.
End Path.

Definition SITE_DIR : Path.t :=
  Path.of_string ("D:" +:+ backslash +:+ "Project" +:+ backslash
                  +:+ "questionnaire-report-theme").

(** ** The render pipeline: [write_markdown_for_universities] *)

(** [base / 'universities' / province / f'{university_name}.md'] *)
Definition generate_markdown_path
    (province university_name : string) (archived : bool) : Path.t :=
  let base := Path.joinpath (Path.joinpath SITE_DIR "content") "docs" in
  let base := if archived then Path.joinpath base "archived" else base in
  Path.joinpath (Path.joinpath (Path.joinpath base "universities") province)
                (university_name +:+ ".md").

(** The members of the class are: backslash, slash, colon, star, question
    mark, double quote, the angle brackets, the bar and NUL. *)
Definition illegal_pattern : list string :=
  [backslash; "/"; ":"; "*"; "?"; dquote; "<"; ">"; "|"; nul].

(** [cleaned, cleaned != filename] *)
Definition sanitize_filename (filename : string) : string * bool :=
  let cleaned := re_sub illegal_pattern "_" filename in
  (cleaned, negb (String.eqb cleaned filename)).

(** [colleges] is enumerated in insertion order and the first key found in
    the name decides: an association list. *)
Fixpoint find_province (name : string) (colleges : list (string * string)) : string :=
  match colleges with
  | [] => "其他"
  | (key, prov) :: rest =>
      if re_search [key] name then prov else find_province name rest
  end.

(** [min(32, max(1, (os.cpu_count() or 1) * 4))]; [os.cpu_count()] is an
    [int] or [None], and [x or 1] is [1] when [x] is [None] or [0]. *)
Definition max_workers (cpu_count : option Z) : Z :=
  let cores :=
    match cpu_count with
    | Some n => if decide (n = 0) then 1 else n
    | None => 1
    end in
  Z.min 32 (Z.max 1 (cores * 4)).

(** An entry of [tasks]: [(name, uni, slug, target)]. *)
Record task : Type := mk_task {
  task_name : string;
  task_uni : loc;
  task_slug : string;
  task_target : Path.t
}.

(** The pipeline runs on the program state and the [FilenameMap] it was
    passed. *)
Definition on_state {S1 S2 A} (m : M S1 A) : M (S1 * S2) A :=
  λ s, let '(r, s1) := m s.1 in (r, (s1, s.2)).

Definition on_filename_map {S1 S2 A} (m : M S2 A) : M (S1 * S2) A :=
  λ s, let '(r, s2) := m s.2 in (r, (s.1, s2)).

Definition lift_outcome {St A} (r : outcome A) : M St A := λ s, (r, s).

(** [tasks = []; for x in xs: ...; tasks.append(body x)] *)
Fixpoint for_append {St A B} (xs : list A) (body : A → M St B) : M St (list B) :=
  match xs with
  | [] => mret []
  | x :: rest => b ← body x; bs ← for_append rest body; mret (b :: bs)
  end.

Section write_markdown_for_universities.
Variable slugify : string → string.

(** The body of the first loop, for one item of [universities.items()]. *)
Definition prepare_task
    (colleges : list (string * string)) (archived : bool)
    (item : string * loc) : M (state * FilenameMap.t) task :=
  let '(name, uni) := item in
  slug ← on_filename_map (FilenameMap.__getitem__ slugify name);
  let province := find_province name colleges in
  let target := generate_markdown_path province name archived in
  let '(target_name, is_illegal) := sanitize_filename (Path.stem target) in
  target ←
    (if is_illegal then
       on_state (print (error_illegal_filename (Path.__str__ target)));;
       lift_outcome (Path.with_stem target target_name)
     else mret target);
  mret (mk_task name uni slug target).

(** The tasks the pipeline submits to its worker pool. *)
Definition prepare_tasks
    (dict : dict_ref) (colleges : list (string * string)) (archived : bool)
  : M (state * FilenameMap.t) (list task) :=
  d ← read (λ s, get_dict dict s.1);
  for_append (map_to_list d) (prepare_task colleges archived).
End write_markdown_for_universities.

(** ** Loading the rows *)

(** A naive [datetime]; [strptime] with the program's format leaves the
    microseconds at zero. *)
Record datetime : Set := mk_datetime {
  year : Z; month : Z; day : Z; hour : Z; minute : Z; second : Z
}.

(** [a < b] on [datetime]: the fields are compared in order. *)
Definition datetime_ltb (a b : datetime) : bool :=
  if year a =? year b then
    if month a =? month b then
      if day a =? day b then
        if hour a =? hour b then
          if minute a =? minute b then second a <? second b
          else minute a <? minute b
        else hour a <? hour b
      else day a <? day b
    else month a <? month b
  else year a <? year b.

(** [row[i]] as a computation. *)
Definition item {St} (row : list string) (i : Z) : M St string :=
  match py_index row i with
  | Some k =>
      match row !! k with
      | Some x => mret x
      | None => raise IndexError
      end
  | None => raise IndexError
  end.

(** [row[:-9]] *)
Definition but_last_nine {A} (row : list A) : list A :=
  take (length row - 9) row.

Section load.
(** The library functions the loader calls.  [int_of] is [int(s)] and
    [float_is_one s] is [float(s) == 1.0], each [None] where Python raises
    [ValueError]; [strptime s] is
    [datetime.strptime(s, '%Y-%m-%d %H:%M:%S')], [None] where it raises;
    [year_month t] is [f'{t:%Y 年 %m 月}']. *)
Variables (int_of : string → option Z)
          (float_is_one : string → option bool)
          (zhconv_convert : string → string)
          (strip : string → string)
          (strptime : string → option datetime)
          (year_month : datetime → string).

(** The value of a library call, or the [ValueError] it raised. *)
Definition or_value_error {St A} (o : option A) : M St A :=
  match o with
  | Some a => mret a
  | None => raise ValueError
  end.

(** [universities[name]] on a [defaultdict(University)]: a missing name
    gets a new aggregate. *)
Definition getitem_default (dict : dict_ref) (name : string) : M state loc :=
  λ st,
    match get_dict dict st !! name with
    | Some l => (Ok l, st)
    | None =>
        let l := length (objects st) in
        (Ok l,
         set_dict dict (<[name := l]> (get_dict dict st))
           (set_objects (objects st ++ [University.new]) st))
    end.

(** [for i, ans in enumerate(answers): uni.add_answer(i, ...)] *)
Fixpoint add_answers (uni : loc) (aid : string) (i : Z) (answers : list string)
  : M state unit :=
  match answers with
  | [] => mret tt
  | ans :: rest =>
      n ← or_value_error (int_of aid);
      call uni (University.add_answer i (IndexedContent.mk n ans));;
      add_answers uni aid (i + 1) rest
  end.

(** [NAME_PREPROCESS.sub('', zhconv.convert(name, 'zh-cn')).strip()] *)
Definition normalize_name (name : string) : string :=
  strip (re_sub NAME_PREPROCESS "" (zhconv_convert name)).

Definition load_to_universities (dict : dict_ref) (row : list string)
  : M state unit :=
  match but_last_nine row with
  | aid :: _ :: anonymous :: email :: show_email :: name :: answers =>
      n ← or_value_error (int_of aid);
      text ← item row (-9);
      let additional_answer := IndexedContent.mk n text in
      a ← or_value_error (int_of anonymous);
      let anonymous_flag := bool_decide (a = 2) in
      show_email_flag ←
        (if anonymous_flag then mret false
         else or_value_error (float_is_one show_email));
      let name := normalize_name name in
      uni ← getitem_default dict name;
      stamp ← item row (-8);
      submit_time ← or_value_error (strptime stamp);
      let credit_text :=
        if show_email_flag && negb (String.eqb email "")
        then email +:+ " (" +:+ year_month submit_time +:+ ")"
        else "匿名 (" +:+ year_month submit_time +:+ ")" in
      n ← or_value_error (int_of aid);
      call uni (University.add_credit (IndexedContent.mk n credit_text));;
      add_answers uni aid 0 answers;;
      call uni (University.add_additional_answer additional_answer)
  | _ => raise ValueError
  end.

(** The body of the loop over the rows of [results_desensitized.csv]. *)
Definition partition_step (archive_cut : datetime) (row : list string)
  : M state unit :=
  stamp ← item row (-8);
  t ← or_value_error (strptime stamp);
  let target :=
    if datetime_ltb t archive_cut
    then the_universities_archived
    else the_universities in
  load_to_universities target row.

(** [archive_cut = datetime.strptime(ARCHIVE_TIME, ...)], then the loop. *)
Definition load_rows (rows : list (list string)) : M state unit :=
  archive_cut ← or_value_error (strptime ARCHIVE_TIME);
  for_each rows (partition_step archive_cut).
End load.

(** ** Markdown *)

(** [s.replace(old, new)] for a non-empty [old]: the occurrences of [old]
    are found from the left without overlap, as [re.sub] finds the members
    of a class with one member. *)
Definition replace (old new s : string) : string := re_sub [old] new s.

Definition markdown_escape (text : string) : string :=
  replace "_" (backslash +:+ "_")
    (replace "~" (backslash +:+ "~")
       (replace "*" (backslash +:+ "*") text)).

(** ** The table of colleges: [load_colleges] *)

(** [d[key] = value] on a [dict], which Python enumerates in the order of
    insertion: a key that is present keeps its place and gets the value. *)
Fixpoint dict_set (key value : string) (d : list (string * string))
  : list (string * string) :=
  match d with
  | [] => [(key, value)]
  | (k, v) :: rest =>
      if String.eqb k key then (k, value) :: rest
      else (k, v) :: dict_set key value rest
  end.

(** [d.setdefault(key, value)], for its effect. *)
Definition setdefault {A} (key : string) (value : A) (d : gmap string A)
  : gmap string A :=
  match d !! key with
  | Some _ => d
  | None => <[key := value]> d
  end.

(** [FileNotFoundError], which is not among the exceptions of the
    aggregates and of the registries. *)
Inductive os_error : Set := FileNotFoundError.

(** The two dictionaries [load_colleges] builds: [provinces] and
    [colleges]. *)
Definition tables : Type := gmap string (list string) * list (string * string).

(** The body of [for province, college in reader]: a row that does not hold
    exactly two fields cannot be unpacked. *)
Definition colleges_step (row : list string) : M tables unit :=
  match row with
  | [province; college] =>
      let key := replace " " "" (re_sub NAME_PREPROCESS "" college) in
      modify (λ s : tables, (s.1, dict_set key province s.2));;
      modify (λ s : tables, (setdefault province [] s.1, s.2))
  | _ => raise ValueError
  end.

(** [file] is [None] when [colleges.csv] does not exist, and otherwise the
    rows [csv.reader] yields.  The two dictionaries are local: they are
    returned when the loop ends and lost when it raises. *)
Definition load_colleges (file : option (list (list string)))
  : os_error + outcome tables :=
  match file with
  | None => inl FileNotFoundError
  | Some rows =>
      inr (let '(r, s) :=
             (for_each rows colleges_step;;
              modify (λ s : tables, (setdefault "其他" [] s.1, s.2)))
               (∅, []) in
           match r with
           | Ok _ => Ok s
           | Raise e => Raise e
           end)
  end.

(** ** Rendering: [render_university_markdown] *)

(** ['\n'] *)
Definition nl : string := String newline "".

(** The line of a record under its question, and the paragraph of a free
    text. *)
Definition answer_line (ans : IndexedContent.t) : string :=
  "- " +:+ markdown_escape (IndexedContent.__str__ ans) +:+ nl.

Definition additional_line (a : IndexedContent.t) : string :=
  markdown_escape (IndexedContent.__str__ a) +:+ nl +:+ nl.

(** [for q, group in zip(QUESTIONNAIRE, uni.answers, strict=True)]: the
    lines the loop appends, or the [ValueError] of [zip] when one of the two
    lists ends before the other.  The lines are local to the call, so what
    was appended before the exception is lost with it. *)
Fixpoint render_questions (questions : list string) (groups : list AnswerGroup.t)
  : outcome (list string) :=
  match questions, groups with
  | [], [] => Ok []
  | q :: qs, group :: gs =>
      match render_questions qs gs with
      | Ok rest =>
          Ok (("## Q: " +:+ q +:+ nl +:+ nl)
              :: map answer_line (AnswerGroup.answers group) ++ rest)
      | Raise e => Raise e
      end
  | _, _ => Raise ValueError
  end.

(** The list [lines] at the end of the function. *)
Definition render_lines (name : string) (uni : University.t) (slug : string)
    (archived : bool) : outcome (list string) :=
  let lines :=
    [ "---" +:+ nl;
      "title: " +:+ dquote +:+ name +:+ (if archived then " (已归档)" else "")
        +:+ dquote +:+ nl;
      "slug: " +:+ dquote +:+ slug +:+ dquote +:+ nl;
      "description: 来自 colleges.chat 的" +:+ name +:+ " 问卷调查信息" +:+ nl;
      "---" +:+ nl +:+ nl ] in
  let lines := lines ++ ["> 本页面内容来源于问卷，仅供参考。" +:+ nl +:+ nl] in
  let lines :=
    lines ++ ["> 数据来源：" +:+ nl +:+ "<details><summary>展开</summary>" +:+ nl
              +:+ "<ul>" +:+ nl] in
  let lines :=
    lines ++ map (λ c, "<li>" +:+ IndexedContent.__str__ c +:+ "</li>" +:+ nl)
                 (University.credits uni) in
  let lines := lines ++ ["</ul>" +:+ nl +:+ "</details>" +:+ nl +:+ nl] in
  match render_questions QUESTIONNAIRE (University.answers uni) with
  | Raise e => Raise e
  | Ok questions =>
      let lines := lines ++ questions in
      Ok (match University.additional_answers uni with
          | [] => lines
          | additional =>
              (lines ++ [nl +:+ "## 自由补充" +:+ nl +:+ nl])
              ++ map additional_line additional
          end)
  end.

(** [return ''.join(lines)] *)
Definition render_university_markdown (name : string) (uni : University.t)
    (slug : string) (archived : bool) : outcome string :=
  match render_lines name uni slug archived with
  | Ok lines => Ok (join "" lines)
  | Raise e => Raise e
  end.

(** ** The script *)

Section main.
Variables (slugify : string → string)
          (int_of : string → option Z)
          (float_is_one : string → option bool)
          (zhconv_convert : string → string)
          (strip : string → string)
          (strptime : string → option datetime)
          (year_month : datetime → string).

(** [write_markdown_for_universities(universities, FilenameMap(), colleges,
    archived)], up to the tasks it hands to its workers: the pipeline is
    given a new map, which is dropped when it returns. *)
Definition write_tasks (dict : dict_ref) (colleges : list (string * string))
    (archived : bool) : M state (list task) :=
  λ st,
    let '(r, (st', _)) :=
      prepare_tasks slugify dict colleges archived (st, FilenameMap.new) in
    (r, st').

(** The script from the loop over the rows on, when [debug] is not among
    its arguments: [rows] are the rows of [results_desensitized.csv] after
    its header, [colleges] is the table [load_colleges] returned, and the
    three files of the reconciliation are read at each of its two calls.
    The result is the tasks of the two partitions. *)
Definition main (rows : list (list string))
    (alias blacklist whitelist : option (list string))
    (colleges : list (string * string)) : M state (list task * list task) :=
  load_rows int_of float_is_one zhconv_convert strip strptime year_month rows;;
  process_universities strip the_universities alias blacklist whitelist;;
  process_universities strip the_universities_archived alias blacklist whitelist;;
  active ← write_tasks the_universities colleges false;
  archived ← write_tasks the_universities_archived colleges true;
  mret (active, archived).
End main.

(** * Specification

    The vocabulary of the statements below: what the spec says of the
    program, as definitions of their own, and the examples the statements
    are tried on. *)

(** ** Computations *)

(** [hoare P m Q]: from a state where [P] holds, [m] ends with an outcome and
    a state that [Q] relates. *)
Definition hoare {St A} (P : St → Prop) (m : M St A)
    (Q : outcome A → St → Prop) : Prop :=
  ∀ s, P s → Q (m s).1 (m s).2.

(** [preserves I m]: [m] keeps [I], whether it returns or raises. *)
Definition preserves {St A} (I : St → Prop) (m : M St A) : Prop :=
  hoare I m (λ _ s, I s).

(** ** The worker pool *)

(** The number of logical cores the pool is sized from: [1] when
    [os.cpu_count()] could not determine it. *)
Definition logical_cores (cpu_count : option Z) : Z := default 1 cpu_count.

(** ** Slugs *)

(** What a [FilenameMap] satisfies between two lookups: every slug it has
    assigned is marked as used, and no slug is assigned to two names. *)
Definition consistent (fm : FilenameMap.t) : Prop :=
  (∀ name slug,
     FilenameMap.mapping fm !! name = Some slug → slug ∈ FilenameMap.used fm)
  ∧ (∀ name1 name2 slug,
       FilenameMap.mapping fm !! name1 = Some slug →
       FilenameMap.mapping fm !! name2 = Some slug →
       name1 = name2).

(** ** Registries *)

(** A registry as loading builds it: its names refer to aggregates of the
    store that have one bin per question, and two names never refer to the
    same aggregate. *)
Definition well_formed (dict : dict_ref) (st : state) : Prop :=
  (∀ name l, get_dict dict st !! name = Some l →
     ∃ u, objects st !! l = Some u
          ∧ length (University.answers u) = length QUESTIONNAIRE)
  ∧ (∀ name1 name2 l,
       get_dict dict st !! name1 = Some l → get_dict dict st !! name2 = Some l →
       name1 = name2).

(** Both registries are. *)
Definition all_well_formed (st : state) : Prop := ∀ r, well_formed r st.

(** The methods the loader calls leave the number of bins as it is. *)
Definition keeps_bins (method : M University.t unit) : Prop :=
  ∀ u, length (University.answers (method u).2) = length (University.answers u).

(** The state with the registry [d] and the store [os]. *)
Definition with_store (dict : dict_ref) (d : gmap string loc)
    (os : list University.t) (st : state) : state :=
  set_dict dict d (set_objects os st).

(** The state after the lines [log] were printed. *)
Definition add_stdout (log : list message) (st : state) : state :=
  mk_state (universities st) (universities_archived st) (objects st)
           (stdout st ++ log).

(** ** Merging *)

Global Instance University_inhabited : Inhabited University.t :=
  populate University.new.

(** The records of bin [i]. *)
Definition bin (u : University.t) (i : nat) : list IndexedContent.t :=
  from_option AnswerGroup.answers [] (University.answers u !! i).

(** The content of [P] followed by the content of [O], bin by bin and list
    by list: what the spec calls merging [O] into [P]. *)
Definition append_content (P O : University.t) : University.t :=
  University.mk
    (zip_with (λ mine other, AnswerGroup.extend other mine)
              (University.answers P) (University.answers O))
    (University.additional_answers P ++ University.additional_answers O)
    (University.credits P ++ University.credits O).

(** The aliases a line merges, in the order the line declares them: an alias
    is merged when it is a key of the registry at its turn, and its key is
    removed then. *)
Fixpoint merged_aliases (d : gmap string loc) (aliases : list string) : list loc :=
  match aliases with
  | [] => []
  | alias :: rest =>
      match d !! alias with
      | Some l => l :: merged_aliases (delete alias d) rest
      | None => merged_aliases d rest
      end
  end.

(** The primary after the merges: each alias's content is appended after
    what the primary holds by then.  An alias that refers to the primary
    itself (the line names the primary among its aliases) contributes what
    the primary holds at that moment. *)
Definition merged_content (os : list University.t) (p : loc)
    (P : University.t) (merged : list loc) : University.t :=
  foldl (λ acc l, append_content acc (if decide (l = p) then acc else os !!! l))
        P merged.

(** ** Anomalies *)

(** Is the line a warning about this name? *)
Definition warns_about (name : string) (m : message) : bool :=
  match m with
  | warn_maybe_invalid n _ => bool_decide (n = name)
  | _ => false
  end.

(** The warnings of a scan over [names]: one for each name that holds no
    institution marker and is not whitelisted, with its credits. *)
Definition scan_log (d : gmap string loc) (os : list University.t)
    (whitelist : gset string) (names : list string) : list message :=
  omap (λ name,
          if maybe_invalid whitelist name then
            l ← d !! name; u ← os !! l;
            Some (warn_maybe_invalid name (University.credits u))
          else None)
       names.

(** ** Loading *)



(** The moment [ARCHIVE_TIME] names. *)
Definition archive_cut_2023 : datetime := mk_datetime 2023 1 1 0 0 0.


(** The state before any row is loaded. *)
Definition initial_state : state := mk_state ∅ ∅ [] [].

(** ** Paths *)

(** The string holds no [/]. *)
Definition slash_free (s : string) : Prop := re_search ["/"] s = false.

(** ** Character classes *)

(** Is the byte [c] a member of the class? *)
Definition in_class (chars : list string) (c : ascii) : bool :=
  existsb (λ p, String.eqb p (String c "")) chars.

(** The string holds no member of the class. *)
Definition free_of (chars : list string) (s : string) : Prop :=
  re_search chars s = false.

(** ** Markdown *)

(** The characters the program escapes. *)
Definition markdown_special (c : ascii) : bool := in_class ["*"; "~"; "_"] c.

(** A special character behind a backslash, any other character as it is. *)
Definition escaped (c : ascii) : string :=
  if markdown_special c then backslash +:+ String c "" else String c "".

(** The text escaped in one pass. *)
Fixpoint escape_each (s : string) : string :=
  match s with
  | EmptyString => ""
  | String c rest => escaped c +:+ escape_each rest
  end.

(** Reading an escaped text back: a backslash in front of a special
    character is dropped. *)
Fixpoint markdown_unescape (s : string) : string :=
  match s with
  | EmptyString => ""
  | String b rest =>
      match rest with
      | String c rest' =>
          if Ascii.eqb b (ascii_of_nat 92) && markdown_special c
          then String c (markdown_unescape rest')
          else String b (markdown_unescape rest)
      | EmptyString => String b ""
      end
  end.

(** ** Tasks *)

(** The target of a task, next to the path generated for its name: the same
    directory, and the generated file name with its stem sanitized. *)
Definition sanitized_target (generated target : Path.t) : Prop :=
  Path.absolute target = Path.absolute generated
  ∧ Path.parent target = Path.parent generated
  ∧ Path.name target
    = (sanitize_filename (Path.stem generated)).1 +:+ Path.suffix generated.

(** The path generated for a name, before its stem is sanitized. *)
Definition generated_for (colleges : list (string * string)) (archived : bool)
    (name : string) : Path.t :=
  generate_markdown_path (find_province name colleges) name archived.

(** What the pipeline prints for a name: a line when the stem of its
    generated path holds an illegal character. *)
Definition illegal_log (colleges : list (string * string)) (archived : bool)
    (name : string) : list message :=
  let g := generated_for colleges archived name in
  if (sanitize_filename (Path.stem g)).2
  then [error_illegal_filename (Path.__str__ g)] else [].


(** ** Slug candidates *)

(** The slugs the loop of [FilenameMap.__getitem__] tries, in order: the
    base, then [base-2], [base-3], ... *)
Definition slug_candidate (base : string) (k : Z) : string :=
  if decide (k = 1) then base else FilenameMap.numbered base k.

(** ** Rows *)

(** The bins after the answers of a row were added: the answer to question
    [i] at the end of bin [i]. *)
Fixpoint add_row (n : Z) (answers : list string) (bins : list AnswerGroup.t)
  : list AnswerGroup.t :=
  match answers, bins with
  | ans :: rest, b :: bs =>
      AnswerGroup.add_answer (IndexedContent.mk n ans) b :: add_row n rest bs
  | _, _ => bins
  end.

(** The aggregate after a row was recorded in it: its credit, its answers
    and, when it is not empty, its free text. *)
Definition loaded_aggregate (n : Z) (credit : string) (answers : list string)
    (text : string) (u : University.t) : University.t :=
  University.mk
    (add_row n answers (University.answers u))
    (University.additional_answers u
     ++ if decide (text = "") then [] else [IndexedContent.mk n text])
    (University.credits u ++ [IndexedContent.mk n credit]).

(** The credit of a row: the address when the row is not anonymous, asks
    for it to be shown and gives one, and [匿名] otherwise; then the month
    of the submission. *)
Definition credit_line (year_month : datetime → string)
    (anonymous : Z) (show_email : bool) (email : string) (t : datetime) : string :=
  (if bool_decide (anonymous ≠ 2) && show_email && negb (String.eqb email "")
   then email else "匿名")
  +:+ " (" +:+ year_month t +:+ ")".

(** ** Lines *)

(** [k] newlines. *)
Fixpoint newlines (k : nat) : string :=
  match k with
  | O => ""
  | S k => String newline (newlines k)
  end.

(** ** Provinces *)

(** [key] occurs in [name]. *)
Definition occurs (key name : string) : Prop :=
  ∃ before after, name = before +:+ key +:+ after.

(** The key a college of the table is filed under. *)
Definition college_key (college : string) : string :=
  replace " " "" (re_sub NAME_PREPROCESS "" college).

(** The key a row of [colleges.csv] is filed under. *)
Definition row_key (row : list string) : string :=
  college_key (default "" (row !! 1%nat)).

(** The keys in the order in which each appears first. *)
Definition first_appearances (keys : list string) : list string :=
  foldl (λ seen k, if decide (k ∈ seen) then seen else seen ++ [k]) [] keys.

(** The province of the last row filed under the key. *)
Definition last_filed (rows : list (list string)) (key province : string) : Prop :=
  ∃ i college,
    rows !! i = Some [province; college]
    ∧ college_key college = key
    ∧ ∀ j row, (i < j)%nat → rows !! j = Some row → row_key row ≠ key.

(** What holds of the two dictionaries after the rows [seen]. *)
Definition tables_after (seen : list (list string)) (s : tables) : Prop :=
  (∀ p v, s.1 !! p = Some v → v = [])
  ∧ (∀ p, is_Some (s.1 !! p) ↔ ∃ row, row ∈ seen ∧ row !! 0%nat = Some p)
  ∧ s.2.*1 = first_appearances (row_key <$> seen)
  ∧ (∀ k p, (k, p) ∈ s.2 ↔ last_filed seen k p).

(** ** Documents *)

(** The section of a question in the document: its heading, then one line
    for each record of its bin. *)
Definition question_section (q : string) (group : AnswerGroup.t) : list string :=
  ("## Q: " +:+ q +:+ nl +:+ nl) :: map answer_line (AnswerGroup.answers group).

(** The section of the free texts: absent when there is none. *)
Definition additional_section (additional : list IndexedContent.t) : list string :=
  match additional with
  | [] => []
  | _ => (nl +:+ "## 自由补充" +:+ nl +:+ nl) :: map additional_line additional
  end.

(** A task can be rendered from the store: its aggregate is there and the
    document is produced. *)
Definition renders (archived : bool) (st : state) (t : task) : Prop :=
  ∃ u text,
    objects st !! task_uni t = Some u
    ∧ render_university_markdown (task_name t) u (task_slug t) archived = Ok text.

(** ** Output of the pipeline *)

(** Does the stem of the path generated for the name hold an illegal
    character? *)
Definition illegal_stem (colleges : list (string * string)) (archived : bool)
    (name : string) : bool :=
  (sanitize_filename (Path.stem (generated_for colleges archived name))).2.

(** Is the line the report of an illegal file name? *)
Definition is_illegal_error (m : message) : bool :=
  match m with
  | error_illegal_filename _ => true
  | _ => false
  end.

(** ** Locations *)



(** ** Examples *)

(** Two rows loaded under two spellings of one institution. *)
Definition example_aggregate (aid : Z) (answer : string) : University.t :=
  (University.add_answer 0 (IndexedContent.mk aid answer)
     (University.add_credit (IndexedContent.mk aid "匿名 (2024 年 05 月)")
        University.new).2).2.

(** The registry of the two, before the alias table is read. *)
Definition example_state : state :=
  mk_state (<["XX大学" := 0%nat]> (<["XX大学分校区" := 1%nat]> ∅)) ∅
           [example_aggregate 1 "是"; example_aggregate 2 "不是"] [].

(** A registry with one name that holds no institution marker. *)
Definition example_unflagged_state : state :=
  mk_state (<["某研究所" := 0%nat]> ∅) ∅
           [(University.add_credit (IndexedContent.mk 9 "匿名") University.new).2]
           [].

(** Readings of decimal numbers and of fixed-width stamps, to run the loader
    on an example. *)
Definition example_digit (c : ascii) : option Z :=
  let n := nat_of_ascii c in
  if decide (48 ≤ n ≤ 57)%nat then Some (Z.of_nat n - 48) else None.

Fixpoint example_digits (acc : Z) (s : string) : option Z :=
  match s with
  | EmptyString => Some acc
  | String c rest => d ← example_digit c; example_digits (10 * acc + d) rest
  end.

Definition example_int (s : string) : option Z :=
  if decide (s = "") then None else example_digits 0 s.

Definition example_strptime (s : string) : option datetime :=
  if decide (String.length s = 19%nat) then
    y ← example_digits 0 (String.substring 0 4 s);
    m ← example_digits 0 (String.substring 5 2 s);
    d ← example_digits 0 (String.substring 8 2 s);
    H ← example_digits 0 (String.substring 11 2 s);
    M ← example_digits 0 (String.substring 14 2 s);
    S ← example_digits 0 (String.substring 17 2 s);
    Some (mk_datetime y m d H M S)
  else None.

(** A row submitted at the very moment of the cut. *)
Definition example_row : list string :=
  ["7"; "1"; "2"; ""; "0"; "XX大学"; "是"; "有"; "补充";
   "2023-01-01 00:00:00"; ""; ""; ""; ""; ""; ""; ""].

(** A row with one answer more than the questionnaire has questions. *)
Definition example_overlong_row : list string :=
  ["7"; "1"; "2"; ""; "0"; "XX大学"]
  ++ replicate (S (length QUESTIONNAIRE)) "是"
  ++ ["补充"; "2023-01-01 00:00:00"] ++ replicate 7 "".

(** * Properties *)

(** ** Computations *)

Lemma bind_ok {St A B} (m : M St A) (k : A → M St B) s a s' :
  m s = (Ok a, s') → (m ≫= k) s = k a s'.
Proof. intros Hm. unfold mbind, M_bind. by rewrite Hm. Qed.

(** ** The aggregate *)

Section university.
Import University.

Lemma extend_zip_length mine other :
  length (extend_zip mine other).2 = length mine.
Proof.
  revert other. induction mine as [|m ms IH]; intros [|o os]; simpl; try done.
  specialize (IH os). destruct (extend_zip ms os) as [r bins]. simpl in *.
  by rewrite IH.
Qed.

Lemma extend_zip_same_length mine other :
  length mine = length other →
  (extend_zip mine other).1 = Ok tt
  ∧ ∀ i a b, mine !! i = Some a → other !! i = Some b →
      (extend_zip mine other).2 !! i = Some (AnswerGroup.extend b a).
Proof.
  revert other. induction mine as [|m ms IH]; intros [|o os] Hlen;
    simpl in *; try done.
  specialize (IH os ltac:(lia)) as [Hok Hbins].
  destruct (extend_zip ms os) as [r bins]. simpl in *. split; [done|].
  intros [|i] a b Ha Hb; simpl in *; [congruence | by apply Hbins].
Qed.

Lemma extend_zip_other_length mine other :
  length mine ≠ length other → (extend_zip mine other).1 = Raise ValueError.
Proof.
  revert other. induction mine as [|m ms IH]; intros [|o os] Hlen;
    simpl in *; try done.
  specialize (IH os ltac:(lia)).
  by destruct (extend_zip ms os) as [r bins].
Qed.

Lemma combine_from_length other self :
  length (answers (combine_from other self).2) = length (answers self).
Proof.
  unfold combine_from, mbind, M_bind, modify.
  pose proof (extend_zip_length (answers self) (answers other)) as Hlen.
  destruct (extend_zip (answers self) (answers other)) as [[[]|e] bins];
    simpl in *; done.
Qed.

Lemma combine_from_same_length other self :
  length (answers self) = length (answers other) →
  combine_from other self
  = (Ok tt,
     mk (extend_zip (answers self) (answers other)).2
        (additional_answers self ++ additional_answers other)
        (credits self ++ credits other)).
Proof.
  intros Hlen. apply extend_zip_same_length in Hlen as [Hok _].
  unfold combine_from, mbind, M_bind, modify.
  destruct (extend_zip (answers self) (answers other)) as [r bins].
  simpl in *. by subst r.
Qed.

Lemma add_answer_length index answer self :
  length (answers (add_answer index answer self).2) = length (answers self).
Proof.
  unfold add_answer. destruct (py_index _ _); simpl; [|done].
  by rewrite length_alter.
Qed.
End university.

(** C8. [add_additional_answer] with a record whose text is empty leaves the
    supplementary list (and the whole aggregate) as it was; with a record
    whose text is not empty it returns normally with that record appended as
    the last entry, exactly one entry more. *)
Theorem add_additional_answer_filters (u : University.t) (a : IndexedContent.t) :
  (IndexedContent.content a = "" →
     University.add_additional_answer a u = (Ok tt, u))
  ∧ (IndexedContent.content a ≠ "" →
     ∃ u', University.add_additional_answer a u = (Ok tt, u')
       ∧ University.additional_answers u' = University.additional_answers u ++ [a]
       ∧ length (University.additional_answers u')
         = S (length (University.additional_answers u))
       ∧ University.answers u' = University.answers u
       ∧ University.credits u' = University.credits u).
Proof.
  unfold University.add_additional_answer. split; intros Hc.
  - by rewrite decide_True.
  - rewrite decide_False by done. eexists. split; [done|]. simpl.
    rewrite length_app. simpl. repeat split; lia.
Qed.

(** C2. When [A] and [B] have as many bins, [A.combine_from(B)] returns
    normally and leaves in every bin [i] of [A] the records [A] had there
    followed by the records of [B]'s bin [i]; the supplementary answers and
    the credits are [A]'s followed by [B]'s.  The order matters: there are
    aggregates for which merging the other way round gives another result. *)
Theorem combine_from_self_before_other :
  (∀ A B : University.t,
     length (University.answers A) = length (University.answers B) →
     ∃ A', University.combine_from B A = (Ok tt, A')
       ∧ length (University.answers A') = length (University.answers A)
       ∧ (∀ i a b,
            University.answers A !! i = Some a →
            University.answers B !! i = Some b →
            ∃ c, University.answers A' !! i = Some c
              ∧ AnswerGroup.answers c
                = AnswerGroup.answers a ++ AnswerGroup.answers b)
       ∧ University.additional_answers A'
         = University.additional_answers A ++ University.additional_answers B
       ∧ University.credits A' = University.credits A ++ University.credits B)
  ∧ (∃ A B : University.t,
       length (University.answers A) = length (University.answers B)
       ∧ (University.combine_from B A).2 ≠ (University.combine_from A B).2).
Proof.
  split.
  - intros A B Hlen. eexists. split; [by apply combine_from_same_length|].
    simpl. split; [apply extend_zip_length|].
    split; [|done]. intros i a b Ha Hb.
    apply extend_zip_same_length in Hlen as [_ Hbins].
    eexists. split; [by apply Hbins|]. done.
  - exists (University.mk [AnswerGroup.mk [IndexedContent.mk 1 "a"]] [] []),
           (University.mk [AnswerGroup.mk [IndexedContent.mk 2 "b"]] [] []).
    split; [done|]. vm_compute. discriminate.
Qed.

(** C3. A new aggregate has one bin per question.  [add_answer],
    [add_additional_answer], [add_credit] and [combine_from] leave the
    number of bins as it is, whether they return or raise, so an aggregate
    with [len(QUESTIONNAIRE)] bins keeps that many.  [combine_from] returns
    normally when the two aggregates have as many bins and raises
    [ValueError] when they do not, before it has merged the supplementary
    answers or the credits. *)
Theorem index_alignment :
  length (University.answers University.new) = length QUESTIONNAIRE
  ∧ (∀ u index answer,
       length (University.answers (University.add_answer index answer u).2)
       = length (University.answers u))
  ∧ (∀ u answer,
       length (University.answers (University.add_additional_answer answer u).2)
       = length (University.answers u))
  ∧ (∀ u credit,
       length (University.answers (University.add_credit credit u).2)
       = length (University.answers u))
  ∧ (∀ u other,
       length (University.answers (University.combine_from other u).2)
       = length (University.answers u))
  ∧ (∀ u other,
       length (University.answers u) = length (University.answers other) →
       (University.combine_from other u).1 = Ok tt)
  ∧ (∀ u other,
       length (University.answers u) ≠ length (University.answers other) →
       (University.combine_from other u).1 = Raise ValueError
       ∧ University.additional_answers (University.combine_from other u).2
         = University.additional_answers u
       ∧ University.credits (University.combine_from other u).2
         = University.credits u).
Proof.
  split_and!.
  - unfold University.new, University.answers.
    by rewrite length_map, length_seq.
  - intros. apply add_answer_length.
  - intros u a. unfold University.add_additional_answer. by case_decide.
  - done.
  - intros. apply combine_from_length.
  - intros u o Hlen. by rewrite combine_from_same_length.
  - intros u o Hlen. apply extend_zip_other_length in Hlen.
    unfold University.combine_from, mbind, M_bind.
    destruct (University.extend_zip _ _) as [r bins]. simpl in *. by subst r.
Qed.

(** C9. [os.cpu_count()] is a positive number or [None].  The size of the
    worker pool is [min (32, max (1, logicalCores * 4))], with one core
    counted when the number is unknown, and lies between 1 and 32. *)
Theorem max_workers_bounded (cpu_count : option Z)
    (Hcount : ∀ n, cpu_count = Some n → 0 < n) :
  max_workers cpu_count = Z.min 32 (Z.max 1 (logical_cores cpu_count * 4))
  ∧ 1 ≤ max_workers cpu_count ≤ 32.
Proof.
  unfold max_workers, logical_cores.
  destruct cpu_count as [n|]; simpl.
  - specialize (Hcount n eq_refl). rewrite decide_False by lia. lia.
  - lia.
Qed.

Lemma max_workers_bounded_witness :
  max_workers (Some 6) = Z.min 32 (Z.max 1 (logical_cores (Some 6) * 4))
  ∧ 1 ≤ max_workers (Some 6) ≤ 32.
Proof.
  apply (max_workers_bounded (Some 6)).
  intros n Hn. inversion Hn. lia.
Defined.

(** ** Slug assignment *)

Section filename_map.
Import FilenameMap.
Variable slugify : string → string.

(** The slug the loop ends with is not in use. *)
Lemma unused_slug_fresh (X : gset string) base : unused_slug X base ∉ X.
Proof.
  unfold unused_slug.
  generalize (wf_guard 32 (turn_wf X base) (1, base)).
  generalize base at 2 4. generalize 1.
  fix FIX 3. intros idx slug [f]. simpl.
  destruct (decide (slug ∈ X)); [apply FIX | done].
Qed.

Lemma new_consistent : consistent new.
Proof. split; intros *; simpl; by rewrite lookup_empty. Qed.

Lemma getitem_consistent name fm :
  consistent fm →
  ∃ slug fm',
    __getitem__ slugify name fm = (Ok slug, fm')
    ∧ mapping fm' !! name = Some slug
    ∧ mapping fm ⊆ mapping fm'
    ∧ consistent fm'.
Proof.
  intros [Hused Hinj]. unfold __getitem__.
  destruct (mapping fm !! name) as [slug|] eqn:Hname.
  - exists slug, fm. by repeat split.
  - set (base := slugify _). set (slug := unused_slug (used fm) base).
    assert (slug ∉ used fm) as Hfresh by apply unused_slug_fresh.
    eexists slug, _. split; [done|]. unfold consistent. simpl. split_and!.
    + by rewrite lookup_insert_eq.
    + by apply insert_subseteq.
    + intros n s. rewrite lookup_insert. case_decide.
      * intros [= <-]. set_solver.
      * intros Hn. apply Hused in Hn. set_solver.
    + intros n1 n2 s. rewrite !lookup_insert.
      repeat case_decide; try congruence.
      * intros [= <-] Hn2. by apply Hused in Hn2.
      * intros Hn1 [= <-]. by apply Hused in Hn1.
      * apply Hinj.
Qed.

Lemma lookups_consistent names fm :
  consistent fm →
  ∃ slugs fm',
    for_append names (__getitem__ slugify) fm = (Ok slugs, fm')
    ∧ Forall2 (λ name slug, mapping fm' !! name = Some slug) names slugs
    ∧ mapping fm ⊆ mapping fm'
    ∧ consistent fm'.
Proof.
  revert fm. induction names as [|name names IH]; intros fm Hfm.
  - exists [], fm. split_and!; [done | constructor | done | done].
  - destruct (getitem_consistent name fm Hfm) as (slug & fm1 & Hget & Hslug & Hsub1 & Hfm1).
    destruct (IH fm1 Hfm1) as (slugs & fm' & Hrun & Hall & Hsub & Hfm').
    exists (slug :: slugs), fm'. split_and!.
    + simpl. rewrite (bind_ok _ _ _ _ _ Hget), (bind_ok _ _ _ _ _ Hrun). done.
    + constructor; [|done]. by eapply lookup_weaken.
    + by etrans.
    + done.
Qed.
End filename_map.

(** C1. Any sequence of lookups on a new [FilenameMap] returns a slug for
    each name; two lookups return the same slug exactly when they are
    lookups of the same name, so the same name always gets the slug it got
    first and two distinct names never get the same slug; and after every
    lookup (after every prefix of the sequence) each slug in [mapping] is in
    [used]. *)
Theorem slug_injectivity (slugify : string → string) (names : list string) :
  ∃ slugs fm,
    for_append names (FilenameMap.__getitem__ slugify) FilenameMap.new
    = (Ok slugs, fm)
    ∧ length slugs = length names
    ∧ (∀ i j name1 name2 slug1 slug2,
         names !! i = Some name1 → names !! j = Some name2 →
         slugs !! i = Some slug1 → slugs !! j = Some slug2 →
         (name1 = name2 ↔ slug1 = slug2))
    ∧ (∀ k, ∃ slugs_k fm_k,
         for_append (take k names) (FilenameMap.__getitem__ slugify)
           FilenameMap.new = (Ok slugs_k, fm_k)
         ∧ ∀ name slug,
             FilenameMap.mapping fm_k !! name = Some slug →
             slug ∈ FilenameMap.used fm_k).
Proof.
  destruct (lookups_consistent slugify names _ new_consistent)
    as (slugs & fm & Hrun & Hall & _ & [_ Hinj]).
  exists slugs, fm. split_and!; [done | by erewrite <- Forall2_length | |].
  - intros i j n1 n2 s1 s2 Hi Hj Hsi Hsj.
    pose proof (Forall2_lookup_lr _ _ _ _ _ _ Hall Hi Hsi) as H1.
    pose proof (Forall2_lookup_lr _ _ _ _ _ _ Hall Hj Hsj) as H2.
    simpl in *. split.
    + intros <-. congruence.
    + intros <-. by eapply Hinj.
  - intros k.
    destruct (lookups_consistent slugify (take k names) _ new_consistent)
      as (slugs_k & fm_k & Hrun_k & _ & _ & [Hused _]).
    by exists slugs_k, fm_k.
Qed.

(** ** The registries *)

Lemma get_set_dict r d st : get_dict r (set_dict r d st) = d.
Proof. by destruct r. Qed.

Lemma set_get_dict r st : set_dict r (get_dict r st) st = st.
Proof. by destruct r, st. Qed.

Lemma set_set_dict r d1 d2 st : set_dict r d2 (set_dict r d1 st) = set_dict r d2 st.
Proof. by destruct r. Qed.

Lemma get_set_dict_ne r r' d st : r ≠ r' → get_dict r' (set_dict r d st) = get_dict r' st.
Proof. by destruct r, r'. Qed.

Lemma objects_set_dict r d st : objects (set_dict r d st) = objects st.
Proof. by destruct r. Qed.

Lemma stdout_set_dict r d st : stdout (set_dict r d st) = stdout st.
Proof. by destruct r. Qed.

(** The lines of the blacklist remove their names one after the other. *)
Lemma blacklist_loop strip dict lines st :
  for_each lines (blacklist_step strip dict) st
  = (Ok tt,
     set_dict dict (foldl (λ d line, delete (strip line) d) (get_dict dict st) lines) st).
Proof.
  revert st. induction lines as [|line lines IH]; intros st.
  - simpl. by rewrite set_get_dict.
  - simpl. unfold mbind, M_bind, blacklist_step at 1, modify.
    by rewrite IH, get_set_dict, set_set_dict.
Qed.

Lemma lookup_foldl_delete {A B} (f : B → string) (d : gmap string A) (xs : list B) k :
  foldl (λ d x, delete (f x) d) d xs !! k
  = if decide (k ∈ f <$> xs) then None else d !! k.
Proof.
  revert d. induction xs as [|x xs IH]; intros d.
  - cbn [foldl]. rewrite fmap_nil. case_decide as Hin; [|done].
    by apply elem_of_nil in Hin.
  - cbn [foldl]. rewrite fmap_cons, IH.
    destruct (decide (k ∈ f x :: (f <$> xs))) as [Hin|Hout].
    + apply elem_of_cons in Hin as [->|Hin].
      * rewrite lookup_delete_eq. by case_decide.
      * by rewrite decide_True.
    + apply not_elem_of_cons in Hout as [Hne Hout].
      by rewrite decide_False, lookup_delete_ne.
Qed.

(** C7. A line of the blacklist never raises.  After it the name is not a
    key of the registry and every other key refers to what it referred to;
    when the name was not a key, the whole state is unchanged; removing the
    name again changes nothing.  Nothing but the registry passed is
    touched.  The whole blacklist never raises either, and leaves exactly
    the keys that are not blacklisted. *)
Theorem blacklist_removal_idempotent
    (strip : string → string) (dict : dict_ref) (line : string) (st : state) :
  ∃ st',
    blacklist_step strip dict line st = (Ok tt, st')
    ∧ get_dict dict st' !! strip line = None
    ∧ (∀ k, k ≠ strip line → get_dict dict st' !! k = get_dict dict st !! k)
    ∧ (get_dict dict st !! strip line = None → st' = st)
    ∧ blacklist_step strip dict line st' = (Ok tt, st')
    ∧ (∀ r, r ≠ dict → get_dict r st' = get_dict r st)
    ∧ objects st' = objects st
    ∧ stdout st' = stdout st
    ∧ (∀ lines, ∃ st'',
         blacklist_removal strip dict (Some lines) st = (Ok tt, st'')
         ∧ ∀ k, get_dict dict st'' !! k
                = if decide (k ∈ strip <$> lines) then None
                  else get_dict dict st !! k).
Proof.
  eexists. split; [done|]. split_and!.
  - by rewrite get_set_dict, lookup_delete_eq.
  - intros k Hk. by rewrite get_set_dict, lookup_delete_ne.
  - intros Hnone. by rewrite delete_id, set_get_dict.
  - unfold blacklist_step, modify.
    by rewrite get_set_dict, set_set_dict, delete_delete_eq.
  - intros r Hr. by rewrite get_set_dict_ne.
  - apply objects_set_dict.
  - apply stdout_set_dict.
  - intros lines. eexists. split; [apply blacklist_loop|].
    intros k. by rewrite get_set_dict, lookup_foldl_delete.
Qed.

(** ** The anomaly scan *)

Lemma add_stdout_nil st : add_stdout [] st = st.
Proof. destruct st. unfold add_stdout. simpl. by rewrite app_nil_r. Qed.

Lemma add_stdout_app log1 log2 st :
  add_stdout log2 (add_stdout log1 st) = add_stdout (log1 ++ log2) st.
Proof. unfold add_stdout. simpl. by rewrite app_assoc. Qed.

Lemma anomaly_step_flagged dict whitelist name st l u :
  maybe_invalid whitelist name = true →
  get_dict dict st !! name = Some l → objects st !! l = Some u →
  anomaly_step dict whitelist name st
  = (Ok tt, add_stdout [warn_maybe_invalid name (University.credits u)] st).
Proof.
  intros Hflag Hl Hu. unfold anomaly_step. rewrite Hflag.
  unfold mbind, M_bind, read, deref, print, modify. by rewrite Hl, Hu.
Qed.

Lemma anomaly_step_unflagged dict whitelist name st :
  maybe_invalid whitelist name = false →
  anomaly_step dict whitelist name st = (Ok tt, st).
Proof. intros Hflag. unfold anomaly_step. by rewrite Hflag. Qed.

Lemma anomaly_loop dict whitelist names st :
  (∀ name, name ∈ names →
     ∃ l, get_dict dict st !! name = Some l ∧ is_Some (objects st !! l)) →
  for_each names (anomaly_step dict whitelist) st
  = (Ok tt,
     add_stdout (scan_log (get_dict dict st) (objects st) whitelist names) st).
Proof.
  revert st. induction names as [|name names IH]; intros st Hnames.
  - simpl. by rewrite add_stdout_nil.
  - destruct (Hnames name) as (l & Hl & [u Hu]); [left|].
    assert (∀ log, for_each names (anomaly_step dict whitelist) (add_stdout log st)
              = (Ok tt, add_stdout (log ++ scan_log (get_dict dict st) (objects st)
                                             whitelist names) st)) as Hrest.
    { intros log. rewrite IH.
      - rewrite add_stdout_app. by destruct dict.
      - intros n Hn. destruct (Hnames n) as (l' & ? & ?); [by right|].
        exists l'. by destruct dict. }
    cbn [for_each]. unfold scan_log. cbn [omap list_omap].
    destruct (maybe_invalid whitelist name) eqn:Hflag.
    + rewrite Hl. simpl. rewrite Hu. simpl.
      erewrite bind_ok; [|by eapply anomaly_step_flagged].
      apply (Hrest [_]).
    + erewrite bind_ok; [|by apply anomaly_step_unflagged].
      specialize (Hrest []). by rewrite add_stdout_nil in Hrest.
Qed.

Lemma warnings_of_scan_log d os whitelist names name :
  (∀ n, n ∈ names → ∃ l, d !! n = Some l ∧ is_Some (os !! l)) →
  length (List.filter (warns_about name) (scan_log d os whitelist names))
  = length (List.filter (λ n, bool_decide (n = name) && maybe_invalid whitelist n)
                        names).
Proof.
  induction names as [|n names IH]; intros Hnames; [done|].
  specialize (IH (λ k Hk, Hnames k (list_elem_of_further _ _ _ Hk))).
  destruct (Hnames n) as (l & Hl & [u Hu]); [left|].
  unfold scan_log in *. cbn [omap list_omap List.filter].
  rewrite Hl. simpl. rewrite Hu. simpl.
  destruct (maybe_invalid whitelist n); simpl.
  - rewrite andb_true_r. destruct (bool_decide (n = name)); simpl; by rewrite IH.
  - by rewrite andb_false_r.
Qed.

Lemma length_filter_NoDup (names : list string) name (P : string → bool) :
  NoDup names →
  length (List.filter (λ n, bool_decide (n = name) && P n) names)
  = if decide (name ∈ names ∧ P name = true) then 1%nat else 0%nat.
Proof.
  induction 1 as [|n names Hn Hnd IH].
  - cbn [List.filter length]. case_decide as H; [|done].
    destruct H as [H _]. by apply elem_of_nil in H.
  - cbn [List.filter]. case_bool_decide as Heq.
    + subst n. cbn [andb].
      assert (length (List.filter (λ n, bool_decide (n = name) && P n) names) = 0%nat)
        as Hzero.
      { rewrite IH. rewrite decide_False; [done|]. by intros [? _]. }
      destruct (P name) eqn:HP; cbn [length]; rewrite Hzero.
      * rewrite decide_True; [done|]. split; [left | done].
      * rewrite decide_False; [done|]. by intros [_ ?].
    + cbn [andb]. rewrite IH.
      destruct (decide (name ∈ names ∧ P name = true)) as [[Hin HP]|Hno].
      * rewrite decide_True; [done|]. split; [by right | done].
      * rewrite decide_False; [done|]. intros [Hin HP]. apply Hno.
        split; [|done]. apply elem_of_cons in Hin as [?|?]; [congruence | done].
Qed.

Lemma elem_of_keys (d : gmap string nat) name :
  name ∈ keys d ↔ is_Some (d !! name).
Proof.
  unfold keys. rewrite list_elem_of_fmap. split.
  - intros ([k l] & -> & Hin). apply elem_of_map_to_list in Hin. by exists l.
  - intros [l Hl]. exists (name, l). split; [done|]. by apply elem_of_map_to_list.
Qed.

Lemma NoDup_keys (d : gmap string nat) : NoDup (keys d).
Proof. apply NoDup_fst_map_to_list. Qed.


(** ** The alias merge *)

Lemma extend_zip_zip_with mine other :
  length mine = length other →
  (University.extend_zip mine other).2
  = zip_with (λ m o, AnswerGroup.extend o m) mine other.
Proof.
  revert other. induction mine as [|m ms IH]; intros [|o os] Hlen;
    simpl in *; try done.
  specialize (IH os ltac:(lia)).
  destruct (University.extend_zip ms os) as [r bins]. simpl in *. by rewrite IH.
Qed.

Lemma combine_from_append_content other self :
  length (University.answers self) = length (University.answers other) →
  University.combine_from other self = (Ok tt, append_content self other).
Proof.
  intros Hlen. rewrite combine_from_same_length by done.
  unfold append_content. by rewrite extend_zip_zip_with.
Qed.

Lemma append_content_length P O :
  length (University.answers P) = length (University.answers O) →
  length (University.answers (append_content P O)) = length (University.answers P).
Proof. intros Hlen. simpl. rewrite length_zip_with. lia. Qed.

Lemma bin_append_content P O i :
  length (University.answers P) = length (University.answers O) →
  bin (append_content P O) i = bin P i ++ bin O i.
Proof.
  intros Hlen. unfold bin. simpl. rewrite lookup_zip_with.
  destruct (University.answers P !! i) as [a|] eqn:Ha; simpl.
  - destruct (University.answers O !! i) as [b|] eqn:Hb; simpl; [done|].
    apply lookup_lt_Some in Ha. apply lookup_ge_None in Hb. lia.
  - destruct (University.answers O !! i) as [b|] eqn:Hb; simpl; [|done].
    apply lookup_lt_Some in Hb. apply lookup_ge_None in Ha. lia.
Qed.

Lemma with_store_id dict st : with_store dict (get_dict dict st) (objects st) st = st.
Proof. by destruct dict, st. Qed.

Section alias_loop.
Variables (dict : dict_ref) (st0 : state) (os0 : list University.t) (p : loc) (n : nat).
Hypothesis Hp : (p < length os0)%nat.

Lemma merge_alias_absent alias d acc :
  d !! alias = None →
  merge_alias dict p alias (with_store dict d (<[p := acc]> os0) st0)
  = (Ok tt, with_store dict d (<[p := acc]> os0) st0).
Proof.
  intros Hd. unfold merge_alias, mbind, M_bind, read, with_store.
  by rewrite get_set_dict, Hd.
Qed.

Lemma merge_alias_present alias d acc l :
  d !! alias = Some l →
  (∃ u, os0 !! l = Some u ∧ length (University.answers u) = n) →
  length (University.answers acc) = n →
  merge_alias dict p alias (with_store dict d (<[p := acc]> os0) st0)
  = (Ok tt,
     with_store dict (delete alias d)
       (<[p := append_content acc (if decide (l = p) then acc else os0 !!! l)]> os0)
       st0).
Proof.
  intros Hd (u & Hu & Hlen) Hacc.
  set (o := if decide (l = p) then acc else os0 !!! l).
  assert (<[p := acc]> os0 !! l = Some o ∧ length (University.answers o) = n)
    as [Ho Holen].
  { unfold o. case_decide as Hl.
    - subst l. split; [by apply list_lookup_insert_eq | done].
    - rewrite list_lookup_insert_ne by done.
      by rewrite (list_lookup_total_correct _ _ _ Hu). }
  unfold merge_alias, mbind, M_bind, read, deref, call, modify, with_store.
  rewrite get_set_dict, Hd, !objects_set_dict. simpl. rewrite Ho.
  rewrite !objects_set_dict. cbn [objects set_objects].
  rewrite list_lookup_insert_eq by done.
  rewrite combine_from_append_content by congruence.
  rewrite list_insert_insert_eq.
  by destruct dict.
Qed.

Lemma merge_alias_loop aliases : ∀ d acc,
  (∀ k l, d !! k = Some l →
          ∃ u, os0 !! l = Some u ∧ length (University.answers u) = n) →
  length (University.answers acc) = n →
  for_each aliases (merge_alias dict p) (with_store dict d (<[p := acc]> os0) st0)
  = (Ok tt,
     with_store dict (foldl (λ d alias, delete alias d) d aliases)
       (<[p := merged_content os0 p acc (merged_aliases d aliases)]> os0) st0).
Proof.
  induction aliases as [|alias aliases IH]; intros d acc Hd Hacc; [done|].
  cbn [for_each foldl merged_aliases].
  destruct (d !! alias) as [l|] eqn:Hl.
  - erewrite bind_ok; [|by eapply merge_alias_present; eauto].
    rewrite IH; [done | |].
    + intros k l' Hk. apply lookup_delete_Some in Hk as [_ Hk]. by eapply Hd.
    + destruct (Hd _ _ Hl) as (u & Hu & Hlen).
      rewrite append_content_length; [done|].
      case_decide; [done|]. rewrite (list_lookup_total_correct _ _ _ Hu). congruence.
  - erewrite bind_ok; [|by apply merge_alias_absent].
    rewrite delete_id by done. by apply IH.
Qed.
End alias_loop.

Lemma merged_aliases_lookup d aliases l :
  l ∈ merged_aliases d aliases → ∃ alias, alias ∈ aliases ∧ d !! alias = Some l.
Proof.
  revert d. induction aliases as [|alias aliases IH]; intros d; simpl.
  - by intros ?%elem_of_nil.
  - destruct (d !! alias) as [l'|] eqn:Hl'.
    + intros [->|Hin]%elem_of_cons.
      * exists alias. split; [left | done].
      * apply IH in Hin as (a & Ha & Hda).
        apply lookup_delete_Some in Hda as [_ Hda].
        exists a. split; [by right | done].
    + intros (a & Ha & Hda)%IH. exists a. split; [by right | done].
Qed.

Lemma merged_content_others os p P merged :
  p ∉ merged →
  merged_content os p P merged
  = foldl (λ acc l, append_content acc (os !!! l)) P merged.
Proof.
  unfold merged_content. revert P.
  induction merged as [|l merged IH]; intros P Hp; [done|].
  apply not_elem_of_cons in Hp as [Hne Hp]. simpl.
  rewrite decide_False by done. by apply IH.
Qed.

Lemma foldl_append_content (os : list University.t) (n : nat) merged : ∀ P,
  length (University.answers P) = n →
  Forall (λ l, length (University.answers (os !!! l)) = n) merged →
  let others := (λ l, os !!! l) <$> merged in
  let P' := foldl (λ acc l, append_content acc (os !!! l)) P merged in
  length (University.answers P') = n
  ∧ (∀ i, bin P' i = bin P i ++ concat ((λ u, bin u i) <$> others))
  ∧ University.additional_answers P'
    = University.additional_answers P
      ++ concat (University.additional_answers <$> others)
  ∧ University.credits P'
    = University.credits P ++ concat (University.credits <$> others).
Proof.
  induction merged as [|l merged IH]; intros P HP Hall; simpl.
  - split_and!; [done | intros i | |]; by rewrite app_nil_r.
  - apply Forall_cons in Hall as [Hl Hall].
    destruct (IH (append_content P (os !!! l))) as (Hlen & Hbin & Hadd & Hcred).
    { rewrite append_content_length; congruence. }
    { done. }
    split_and!; [done | intros i | |].
    + rewrite Hbin, bin_append_content by congruence. by rewrite app_assoc.
    + rewrite Hadd. simpl. by rewrite app_assoc.
    + rewrite Hcred. simpl. by rewrite app_assoc.
Qed.

Lemma merged_content_length (os : list University.t) (n : nat) p merged : ∀ P,
  length (University.answers P) = n →
  Forall (λ l, length (University.answers (os !!! l)) = n) merged →
  length (University.answers (merged_content os p P merged)) = n.
Proof.
  unfold merged_content.
  induction merged as [|l merged IH]; intros P HP Hall; [done|].
  apply Forall_cons in Hall as [Hl Hall]. simpl. apply IH; [|done].
  rewrite append_content_length; [done|]. case_decide; congruence.
Qed.

Lemma merged_aliases_bins dict st aliases :
  well_formed dict st →
  Forall (λ l, length (University.answers (objects st !!! l)) = length QUESTIONNAIRE)
         (merged_aliases (get_dict dict st) aliases).
Proof.
  intros [Hstore _]. apply Forall_forall.
  intros l (a & _ & Hda)%merged_aliases_lookup.
  destruct (Hstore _ _ Hda) as (u & Hu & Hlen).
  by rewrite (list_lookup_total_correct _ _ _ Hu).
Qed.

(** A line whose primary is in the registry: the state it leaves. *)
Lemma alias_line_present dict name aliases st p P :
  well_formed dict st →
  get_dict dict st !! name = Some p → objects st !! p = Some P →
  alias_line dict name aliases st
  = (Ok tt,
     with_store dict
       (foldl (λ d alias, delete alias d) (get_dict dict st) aliases)
       (<[p := merged_content (objects st) p P
                 (merged_aliases (get_dict dict st) aliases)]> (objects st))
       st).
Proof.
  intros [Hstore _] Hname HP.
  destruct (Hstore _ _ Hname) as (P' & HP' & HPlen).
  assert (P' = P) as -> by congruence.
  pose proof (lookup_lt_Some _ _ _ HP) as Hp.
  pose proof (merge_alias_loop dict st (objects st) p (length QUESTIONNAIRE) Hp
                aliases (get_dict dict st) P Hstore HPlen) as Hloop.
  rewrite (list_insert_id _ _ _ HP), with_store_id in Hloop.
  unfold alias_line. erewrite bind_ok; [|done]. rewrite Hname. apply Hloop.
Qed.

(** Replacing an aggregate by one with as many bins, and dropping keys,
    keeps a registry well formed. *)
Lemma well_formed_with_store r dict d p P P' st :
  well_formed r st →
  (∀ k l, d !! k = Some l → get_dict dict st !! k = Some l) →
  objects st !! p = Some P →
  length (University.answers P') = length (University.answers P) →
  well_formed r (with_store dict d (<[p := P']> (objects st)) st).
Proof.
  intros [Hstore Hdistinct] Hsub HP Hlen.
  assert (∀ k l, get_dict r (with_store dict d (<[p := P']> (objects st)) st) !! k
                 = Some l → get_dict r st !! k = Some l) as Hold.
  { intros k l. unfold with_store. destruct r, dict; simpl; auto. }
  assert (objects (with_store dict d (<[p := P']> (objects st)) st)
          = <[p := P']> (objects st)) as Hobjects.
  { unfold with_store. by rewrite objects_set_dict. }
  split.
  - intros k l Hk%Hold. rewrite Hobjects.
    destruct (Hstore _ _ Hk) as (u & Hu & Hulen).
    destruct (decide (l = p)) as [->|Hne].
    + exists P'. split; [apply list_lookup_insert_eq; by eapply lookup_lt_Some|].
      congruence.
    + exists u. by rewrite list_lookup_insert_ne.
  - intros k1 k2 l H1%Hold H2%Hold. by eapply Hdistinct.
Qed.

(** One line of the alias table, once it is parsed into the primary name
    and the aliases. *)
Lemma alias_line_spec
    (dict : dict_ref) (name : string) (aliases : list string) (st : state)
    (Hwf : well_formed dict st) :
  match get_dict dict st !! name with
  | None =>
      alias_line dict name aliases st
      = (Ok tt, add_stdout [warn_alias_primary_missing name] st)
      ∧ well_formed dict (add_stdout [warn_alias_primary_missing name] st)
  | Some p =>
      ∃ P st',
        objects st !! p = Some P
        ∧ alias_line dict name aliases st = (Ok tt, st')
        ∧ stdout st' = stdout st
        ∧ (∀ r, r ≠ dict → get_dict r st' = get_dict r st)
        ∧ (∀ k, get_dict dict st' !! k
                = if decide (k ∈ aliases) then None else get_dict dict st !! k)
        ∧ (∀ l, l ≠ p → objects st' !! l = objects st !! l)
        ∧ objects st' !! p
          = Some (merged_content (objects st) p P
                    (merged_aliases (get_dict dict st) aliases))
        ∧ (name ∉ aliases →
           ∃ P', objects st' !! p = Some P'
             ∧ let others := (λ l, objects st !!! l)
                             <$> merged_aliases (get_dict dict st) aliases in
               (∀ i, bin P' i = bin P i ++ concat ((λ u, bin u i) <$> others))
               ∧ University.additional_answers P'
                 = University.additional_answers P
                   ++ concat (University.additional_answers <$> others)
               ∧ University.credits P'
                 = University.credits P
                   ++ concat (University.credits <$> others))
        ∧ well_formed dict st'
  end.
Proof.
  destruct (get_dict dict st !! name) as [p|] eqn:Hname.
  - pose proof Hwf as [Hstore Hdistinct].
    destruct (Hstore _ _ Hname) as (P & HP & HPlen).
    pose proof (lookup_lt_Some _ _ _ HP) as Hp.
    pose proof (merged_aliases_bins dict st aliases Hwf) as Hbins.
    eexists P, _. split; [done|].
    split; [by apply alias_line_present|].
    assert (∀ k, foldl (λ d alias, delete alias d) (get_dict dict st) aliases !! k
                 = if decide (k ∈ aliases) then None else get_dict dict st !! k)
      as Hkeys.
    { intros k. by rewrite (lookup_foldl_delete id), list_fmap_id. }
    split_and!.
    + unfold with_store. by rewrite stdout_set_dict.
    + intros r Hr. unfold with_store. by rewrite get_set_dict_ne.
    + intros k. unfold with_store. by rewrite get_set_dict.
    + intros l Hl. unfold with_store. rewrite objects_set_dict. simpl.
      by rewrite list_lookup_insert_ne.
    + unfold with_store. rewrite objects_set_dict. simpl.
      by rewrite list_lookup_insert_eq.
    + intros Hself. unfold with_store. rewrite objects_set_dict. simpl.
      rewrite list_lookup_insert_eq by done. eexists. split; [done|].
      assert (p ∉ merged_aliases (get_dict dict st) aliases) as Hnot.
      { intros (a & Ha & Hda)%merged_aliases_lookup.
        assert (a = name) by (by eapply Hdistinct). by subst a. }
      rewrite merged_content_others by done.
      by eapply foldl_append_content.
    + eapply well_formed_with_store; [done | | done |].
      * intros k l. rewrite Hkeys. by case_decide.
      * rewrite HPlen. by apply merged_content_length.
  - split.
    + unfold alias_line. erewrite bind_ok; [|done]. by rewrite Hname.
    + by destruct dict.
Qed.

(** What a line of the table leaves of the registries, whatever it names. *)
Lemma alias_step_frame dict line st :
  well_formed dict st →
  ∃ name aliases st',
    split "🚮" (rstrip_newline line) = name :: aliases
    ∧ alias_step dict line st = (Ok tt, st')
    ∧ alias_line dict name aliases st = (Ok tt, st')
    ∧ well_formed dict st'
    ∧ (∀ r, r ≠ dict → get_dict r st' = get_dict r st)
    ∧ get_dict dict st' ⊆ get_dict dict st.
Proof.
  intros Hwf.
  destruct (split "🚮" (rstrip_newline line)) as [|name aliases] eqn:Hsplit.
  { unfold split in Hsplit. destruct (rstrip_newline line) as [|c s].
    - discriminate Hsplit.
    - cbn [split_go] in Hsplit.
      destruct (String.prefix "🚮" (String c s)); [discriminate Hsplit|].
      revert Hsplit. generalize (String c ""). clear.
      induction s as [|d s IH]; intros cur; cbn [split_go]; [done|].
      destruct (String.prefix "🚮" (String d s)); [done | apply IH]. }
  pose proof (alias_line_spec dict name aliases st Hwf) as Hline.
  exists name, aliases.
  assert (alias_step dict line st = alias_line dict name aliases st) as Hstep
    by (unfold alias_step; by rewrite Hsplit).
  destruct (get_dict dict st !! name) as [p|] eqn:Hname.
  - destruct Hline as (P & st' & _ & Hrun & _ & Hothers & Hkeys & _ & _ & _ & Hwf').
    exists st'. split; [done|]. split; [by rewrite Hstep|]. split; [done|].
    split; [done|]. split; [done|].
    apply map_subseteq_spec. intros k l. rewrite Hkeys. by case_decide.
  - destruct Hline as [Hrun Hwf'].
    eexists. split; [done|]. split; [by rewrite Hstep|]. split; [done|].
    split; [done|]. split; [by intros [] | by destruct dict].
Qed.

(** The whole table: every line is read and none raises. *)
Lemma alias_lines_run dict lines : ∀ st,
  well_formed dict st →
  ∃ st',
    alias_merge dict (Some lines) st = (Ok tt, st')
    ∧ well_formed dict st'
    ∧ (∀ r, r ≠ dict → get_dict r st' = get_dict r st)
    ∧ get_dict dict st' ⊆ get_dict dict st.
Proof.
  induction lines as [|line lines IH]; intros st Hwf.
  - by exists st.
  - destruct (alias_step_frame dict line st Hwf)
      as (name & aliases & st1 & _ & Hstep & _ & Hwf1 & Hothers1 & Hsub1).
    destruct (IH st1 Hwf1) as (st' & Hrun & Hwf' & Hothers & Hsub).
    exists st'. split; [|split; [done|split]].
    + cbn [alias_merge for_each] in *. by erewrite bind_ok.
    + intros r Hr. by rewrite Hothers, Hothers1.
    + by etrans.
Qed.

(** C5. The alias table, on a registry whose names refer to distinct
    aggregates of the store, each with a bin per question.  The table is
    read line by line: the first line is split into the primary name and the
    aliases and processed, and the rest of the table is read from the state
    the line leaves; a table without lines, and a missing file, change
    nothing.  When the primary name of the line is not a key, the line
    prints one warning and changes nothing else.  Otherwise it returns
    normally and prints nothing; every alias of the line is no longer a key
    and the other keys refer to what they referred to; no aggregate but the
    primary is changed; and the primary holds its original content followed
    by the content of each merged alias, in the order the line declares
    them.  When the line does not name the primary among its aliases, that
    is: every bin, the supplementary answers and the credits of the primary
    are its own followed by those of the merged aliases as they were before
    the line.  In both cases the registry is left as the next line needs it,
    so the whole table returns normally, only removes keys of its registry
    and leaves the other registry alone; and [process_universities] goes on
    with the blacklist from the state the table leaves. *)
Theorem alias_merge_merges_in_order
    (dict : dict_ref) (line : string) (rest : list string) (st : state)
    (Hwf : well_formed dict st) :
  ∃ name aliases st',
    split "🚮" (rstrip_newline line) = name :: aliases
    ∧ alias_step dict line st = (Ok tt, st')
    ∧ alias_merge dict (Some (line :: rest)) st = alias_merge dict (Some rest) st'
    ∧ alias_merge dict (Some []) st = (Ok tt, st)
    ∧ alias_merge dict None st = (Ok tt, st)
    ∧ match get_dict dict st !! name with
      | None =>
          st' = add_stdout [warn_alias_primary_missing name] st
      | Some p =>
          ∃ P,
            objects st !! p = Some P
            ∧ stdout st' = stdout st
            ∧ (∀ r, r ≠ dict → get_dict r st' = get_dict r st)
            ∧ (∀ k, get_dict dict st' !! k
                    = if decide (k ∈ aliases) then None else get_dict dict st !! k)
            ∧ (∀ l, l ≠ p → objects st' !! l = objects st !! l)
            ∧ objects st' !! p
              = Some (merged_content (objects st) p P
                        (merged_aliases (get_dict dict st) aliases))
            ∧ (name ∉ aliases →
               ∃ P', objects st' !! p = Some P'
                 ∧ let others := (λ l, objects st !!! l)
                                 <$> merged_aliases (get_dict dict st) aliases in
                   (∀ i, bin P' i = bin P i ++ concat ((λ u, bin u i) <$> others))
                   ∧ University.additional_answers P'
                     = University.additional_answers P
                       ++ concat (University.additional_answers <$> others)
                   ∧ University.credits P'
                     = University.credits P
                       ++ concat (University.credits <$> others))
      end
    ∧ well_formed dict st'
    ∧ ∃ st'',
        alias_merge dict (Some (line :: rest)) st = (Ok tt, st'')
        ∧ well_formed dict st''
        ∧ (∀ r, r ≠ dict → get_dict r st'' = get_dict r st)
        ∧ get_dict dict st'' ⊆ get_dict dict st
        ∧ ∀ strip blacklist whitelist,
            process_universities strip dict (Some (line :: rest)) blacklist
              whitelist st
            = (blacklist_removal strip dict blacklist;;
               anomaly_scan strip dict whitelist) st''.
Proof.
  destruct (alias_step_frame dict line st Hwf)
    as (name & aliases & st' & Hsplit & Hstep & Hline & Hwf' & _ & _).
  exists name, aliases, st'. split; [done|]. split; [done|].
  split; [cbn [alias_merge for_each]; by erewrite bind_ok|].
  split; [done|]. split; [done|]. split.
  { pose proof (alias_line_spec dict name aliases st Hwf) as Hspec.
    destruct (get_dict dict st !! name) as [p|].
    - destruct Hspec as (P & st1 & HP & Hrun & Hrest).
      assert (st1 = st') as -> by congruence.
      exists P. split; [done|].
      destruct Hrest as (? & ? & ? & ? & ? & ? & _). by split_and!.
    - destruct Hspec as [Hrun _]. congruence. }
  split; [done|].
  destruct (alias_lines_run dict (line :: rest) st Hwf)
    as (st'' & Hrun & Hwf'' & Hothers & Hsub).
  exists st''. split; [done|]. split; [done|]. split; [done|]. split; [done|].
  intros strip blacklist whitelist. unfold process_universities.
  by erewrite bind_ok.
Qed.

Lemma alias_merge_merges_in_order_witness :
  ∃ st',
    alias_merge the_universities (Some ["XX大学🚮XX大学分校区" +:+ nl]) example_state
    = (Ok tt, st')
    ∧ universities st' !! "XX大学分校区" = None
    ∧ ∃ P', objects st' !! 0%nat = Some P'
        ∧ University.credits P'
          = [IndexedContent.mk 1 "匿名 (2024 年 05 月)";
             IndexedContent.mk 2 "匿名 (2024 年 05 月)"]
        ∧ bin P' 0 = [IndexedContent.mk 1 "是"; IndexedContent.mk 2 "不是"].
Proof.
  assert (well_formed the_universities example_state) as Hwf.
  { split.
    - intros k l Hk. simpl in Hk.
      apply lookup_insert_Some in Hk as [[_ <-]|[_ Hk]];
        [eexists; split; [reflexivity | vm_compute; reflexivity]|].
      apply lookup_insert_Some in Hk as [[_ <-]|[_ Hk]];
        [eexists; split; [reflexivity | vm_compute; reflexivity]|].
      by rewrite lookup_empty in Hk.
    - intros k1 k2 l H1 H2. simpl in H1, H2.
      apply lookup_insert_Some in H1 as [[<- <-]|[? H1]];
        apply lookup_insert_Some in H2 as [[<- ?]|[? H2]]; try done;
        try (apply lookup_insert_Some in H1 as [[<- <-]|[? H1]]);
        try (apply lookup_insert_Some in H2 as [[<- ?]|[? H2]]);
        try done; try (by rewrite lookup_empty in H1);
        by rewrite lookup_empty in H2. }
  pose proof (alias_merge_merges_in_order the_universities
                ("XX大学🚮XX大学分校区" +:+ nl) [] example_state Hwf) as H.
  destruct H as (name & aliases & st' & Hsplit & _ & Hrun & Hnil & _ & Hline & _).
  assert (split "🚮" (rstrip_newline ("XX大学🚮XX大学分校区" +:+ nl))
          = ["XX大学"; "XX大学分校区"]) as Hparsed by (vm_compute; reflexivity).
  rewrite Hparsed in Hsplit. injection Hsplit as <- <-.
  assert (get_dict the_universities example_state !! "XX大学" = Some 0%nat)
    as Hp by (vm_compute; reflexivity).
  rewrite Hp in Hline.
  destruct Hline as (P & HP & _ & _ & Hkeys & _ & _ & Hflat).
  exists st'. split.
  { rewrite Hrun. cbn [alias_merge for_each]. reflexivity. }
  split.
  { change (universities st') with (get_dict the_universities st').
    rewrite Hkeys. apply decide_True. left. }
  destruct Hflat as (P' & HP' & Hbin & _ & Hcred).
  { intros Hin. apply list_elem_of_singleton in Hin. discriminate Hin. }
  exists P'. split; [exact HP'|].
  injection HP as <-. rewrite Hcred, Hbin. split; vm_compute; reflexivity.
Defined.

(** ** Loading *)

Lemma hoare_bind {St A B} (P : St → Prop) (R : A → St → Prop)
    (Q : outcome B → St → Prop) (m : M St A) (k : A → M St B) :
  hoare P m (λ r s, match r with Ok a => R a s | Raise e => Q (Raise e) s end) →
  (∀ a, hoare (R a) (k a) Q) →
  hoare P (m ≫= k) Q.
Proof.
  intros Hm Hk s HP. specialize (Hm s HP).
  unfold mbind, M_bind. destruct (m s) as [[a|e] s']; simpl in *; [|done].
  by apply Hk.
Qed.

Lemma hoare_for_each {St A} (I : St → Prop) (xs : list A) (body : A → M St unit) :
  (∀ x, hoare I (body x) (λ _ s, I s)) →
  hoare I (for_each xs body) (λ _ s, I s).
Proof.
  intros Hbody. induction xs as [|x xs IH]; [intros s HI; exact HI|].
  simpl. apply (hoare_bind I (λ _, I)); [|intros ?; apply IH].
  intros s HI. specialize (Hbody x s HI). by destruct (body x s) as [[]].
Qed.



(** A method call changes the object it is called on and nothing else. *)
Lemma hoare_call {A} (P : state → Prop) (l : loc) (method : M University.t A)
    (Q : outcome A → state → Prop) :
  (∀ s u, P s → objects s !! l = Some u →
          Q (method u).1 (set_objects (<[l := (method u).2]> (objects s)) s)) →
  (∀ s, P s → objects s !! l = None → Q (Raise StoreError) s) →
  hoare P (call l method) Q.
Proof.
  intros Hsome Hnone s HP. unfold call.
  destruct (objects s !! l) as [u|] eqn:Hu; [|by apply Hnone].
  specialize (Hsome s u HP Hu). by destruct (method u).
Qed.

Lemma preserves_bind {St A B} (I : St → Prop) (m : M St A) (k : A → M St B) :
  preserves I m → (∀ a, preserves I (k a)) → preserves I (m ≫= k).
Proof.
  intros Hm Hk. apply (hoare_bind I (λ _, I)); [|done].
  intros s HI. specialize (Hm s HI). by destruct (m s) as [[]].
Qed.

Lemma preserves_pure {St A} (I : St → Prop) (m : M St A) :
  (∀ s, (m s).2 = s) → preserves I m.
Proof. intros Hm s HI. simpl. by rewrite Hm. Qed.

Lemma item_pure {St} row i (s : St) : (item row i s).2 = s.
Proof. unfold item. by destruct (py_index row i) as [k|]; [destruct (row !! k)|]. Qed.

Lemma or_value_error_pure {St A} (o : option A) (s : St) : (or_value_error o s).2 = s.
Proof. by destruct o. Qed.


Section load_properties.
Variables (int_of : string → option Z)
          (float_is_one : string → option bool)
          (zhconv_convert : string → string)
          (strip : string → string)
          (strptime : string → option datetime)
          (year_month : datetime → string).

Local Abbreviation load :=
  (load_to_universities int_of float_is_one zhconv_convert strip strptime
                        year_month).



Lemma add_answer_keeps_bins i a : keeps_bins (University.add_answer i a).
Proof. intros u. apply add_answer_length. Qed.

Lemma add_credit_keeps_bins c : keeps_bins (University.add_credit c).
Proof. by intros u. Qed.

Lemma add_additional_answer_keeps_bins a :
  keeps_bins (University.add_additional_answer a).
Proof. intros u. unfold University.add_additional_answer. by case_decide. Qed.

(** The loader keeps what creating an aggregate and calling its methods
    keep. *)
Lemma load_preserves (I : state → Prop) dict row :
  (∀ name, preserves I (getitem_default dict name)) →
  (∀ l method, keeps_bins method → preserves I (call l method)) →
  preserves I (load dict row).
Proof.
  intros Hnew Hcall.
  assert (∀ uni aid answers i, preserves I (add_answers int_of uni aid i answers))
    as Hanswers.
  { intros uni aid answers.
    induction answers as [|ans answers IH]; intros i; [intros s Hs; exact Hs|].
    simpl. apply preserves_bind; [apply preserves_pure, or_value_error_pure|].
    intros n. apply preserves_bind; [|intros ?; by apply IH].
    apply Hcall, add_answer_keeps_bins. }
  unfold load_to_universities.
  destruct (but_last_nine row)
    as [|aid [|x1 [|anonymous [|email [|show_email [|name answers]]]]]];
    try (intros s Hs; exact Hs).
  repeat (apply preserves_bind;
          [first [ apply preserves_pure, or_value_error_pure
                 | apply preserves_pure, item_pure
                 | apply Hnew
                 | apply Hcall, add_credit_keeps_bins
                 | apply Hanswers
                 | idtac ]
          | intros ? ]).
  - case_bool_decide; [intros s Hs; exact Hs|].
    apply preserves_pure, or_value_error_pure.
  - apply Hcall, add_additional_answer_keeps_bins.
Qed.


End load_properties.


Lemma datetime_ltb_irrefl t : datetime_ltb t t = false.
Proof. unfold datetime_ltb. rewrite !Z.eqb_refl. apply Z.ltb_irrefl. Qed.



(** ** Strings and paths *)

Lemma slash_free_cons c s :
  slash_free (String c s) ↔ c ≠ "/"%char ∧ slash_free s.
Proof.
  unfold slash_free. cbn [re_search existsb String.prefix].
  destruct (ascii_dec "/" c) as [<-|Hne].
  - split; [by destruct s | by intros [? _]].
  - rewrite !orb_false_l. split; [by split | by intros [_ ?]].
Qed.

Lemma append_nil s : "" +:+ s = s.
Proof. reflexivity. Qed.

Lemma append_cons c s1 s2 : String c s1 +:+ s2 = String c (s1 +:+ s2).
Proof. reflexivity. Qed.

Lemma slash_free_app s1 s2 :
  slash_free (s1 +:+ s2) ↔ slash_free s1 ∧ slash_free s2.
Proof.
  induction s1 as [|c s1 IH]; [rewrite append_nil | rewrite append_cons].
  - split; [by split | by intros [_ ?]].
  - rewrite !slash_free_cons, IH. tauto.
Qed.

Lemma slash_free_substring s : ∀ n m, slash_free s → slash_free (substring n m s).
Proof.
  induction s as [|c s IH]; intros [|n] [|m] Hs; cbn [substring]; try done.
  - apply slash_free_cons in Hs as [? ?]. apply slash_free_cons. split; [done|].
    by apply IH.
  - apply slash_free_cons in Hs as [? ?]. by apply IH.
  - apply slash_free_cons in Hs as [? ?]. by apply IH.
Qed.

Lemma slash_free_rev_app s1 : ∀ s2,
  slash_free (String.rev_app s1 s2) ↔ slash_free s1 ∧ slash_free s2.
Proof.
  induction s1 as [|c s1 IH]; intros s2; cbn [String.rev_app].
  - split; [by split | by intros [_ ?]].
  - rewrite IH, !slash_free_cons. tauto.
Qed.

Lemma length_rev_app s1 : ∀ s2,
  String.length (String.rev_app s1 s2) = (String.length s1 + String.length s2)%nat.
Proof.
  induction s1 as [|c s1 IH]; intros s2; simpl; [done|]. rewrite IH. simpl. lia.
Qed.

Lemma length_append s1 s2 :
  String.length (s1 +:+ s2) = (String.length s1 + String.length s2)%nat.
Proof.
  induction s1 as [|c s1 IH]; [done|]. rewrite append_cons. simpl. by rewrite IH.
Qed.

Lemma length_substring s : ∀ n m,
  (n + m ≤ String.length s)%nat → String.length (substring n m s) = m.
Proof.
  induction s as [|c s IH]; intros [|n] [|m] Hlen; simpl in *; try done; try lia.
  - rewrite IH; [done | lia].
  - apply IH. lia.
  - apply IH. lia.
Qed.

(** The pieces of a split at [/]. *)
Lemma split_go_slash_free s : ∀ cur,
  slash_free cur → Forall slash_free (split_go "/" 0 cur s).
Proof.
  induction s as [|c s IH]; intros cur Hcur; cbn [split_go].
  - constructor; [|constructor]. apply slash_free_rev_app. by split.
  - cbn [String.prefix]. destruct (ascii_dec "/" c) as [<-|Hne].
    + replace (String.prefix "" s) with true by (by destruct s).
      constructor; [by apply slash_free_rev_app | by apply IH].
    + apply IH. apply slash_free_cons. split; [congruence | done].
Qed.

Lemma split_go_last s : ∀ cur,
  (3 ≤ String.length (List.last (split_go "/" 0 cur (s +:+ ".md")) ""))%nat.
Proof.
  induction s as [|c s IH]; intros cur.
  - rewrite append_nil. cbn. unfold String.rev. rewrite length_rev_app. simpl. lia.
  - rewrite append_cons. cbn [split_go String.prefix].
    destruct (ascii_dec "/" c) as [<-|Hne]; [|apply IH].
    replace (String.prefix "" (s +:+ ".md")) with true by (by destruct s).
    specialize (IH "").
    cbn [String.length Nat.sub].
    destruct (split_go "/" 0 "" (s +:+ ".md")) as [|x xs] eqn:Hx; [simpl in IH; lia|].
    exact IH.
Qed.

Lemma last_filter {A} (f : A → bool) (l : list A) d :
  l ≠ [] → f (List.last l d) = true →
  List.filter f l ≠ [] ∧ List.last (List.filter f l) d = List.last l d.
Proof.
  induction l as [|x l IH]; intros Hl Hf; [done|].
  destruct l as [|y l].
  - simpl in *. by rewrite Hf.
  - specialize (IH ltac:(done) Hf) as [Hne Hlast].
    change (List.last (x :: y :: l) d) with (List.last (y :: l) d).
    cbn [List.filter] in *. destruct (f x); [|done].
    split; [done|]. rewrite <- Hlast.
    by destruct (if f y then _ else _).
Qed.

(** A class of one-byte characters is substituted byte by byte. *)
Lemma re_sub_cons chars repl c s :
  Forall (λ p, String.length p = 1%nat) chars →
  re_sub chars repl (String c s)
  = (if existsb (λ p, String.prefix p (String c s)) chars
     then repl else String c "")
    +:+ re_sub chars repl s.
Proof.
  intros Hchars. unfold re_sub. cbn [re_sub_go].
  destruct (List.find _ chars) as [p|] eqn:Hfind.
  - apply find_some in Hfind as [Hin Hp].
    rewrite Forall_forall in Hchars. rewrite (Hchars p) by by apply list_elem_of_In.
    replace (existsb _ chars) with true; [done|].
    symmetry. apply existsb_exists. by exists p.
  - replace (existsb _ chars) with false; [done|].
    symmetry. apply not_true_is_false. intros (p & Hin & Hp)%existsb_exists.
    by rewrite (find_none _ _ Hfind p Hin) in Hp.
Qed.

Lemma illegal_pattern_bytes : Forall (λ p, String.length p = 1%nat) illegal_pattern.
Proof. repeat constructor. Qed.

Lemma sanitized_slash_free s : slash_free (re_sub illegal_pattern "_" s).
Proof.
  induction s as [|c s IH]; [done|].
  rewrite re_sub_cons by apply illegal_pattern_bytes.
  apply slash_free_app. split; [|done].
  destruct (existsb _ illegal_pattern) eqn:Hc; [done|].
  apply slash_free_cons. split; [|done].
  intros ->. revert Hc. cbn [existsb illegal_pattern String.prefix].
  by destruct s.
Qed.

Lemma sanitized_length s :
  String.length (re_sub illegal_pattern "_" s) = String.length s.
Proof.
  induction s as [|c s IH]; [done|].
  rewrite re_sub_cons by apply illegal_pattern_bytes.
  rewrite length_append, IH. by destruct (existsb _ illegal_pattern).
Qed.

(** The final component of a path joined with a file name. *)
Lemma components_md s :
  Path.components (s +:+ ".md") ≠ []
  ∧ (3 ≤ String.length (List.last (Path.components (s +:+ ".md")) ""))%nat
  ∧ Forall slash_free (Path.components (s +:+ ".md")).
Proof.
  unfold Path.components, split.
  pose proof (split_go_last s "") as Hlast.
  set (pieces := split_go "/" 0 "" (s +:+ ".md")) in *.
  assert (pieces ≠ []) as Hne by (intros Hnil; rewrite Hnil in Hlast; simpl in Hlast; lia).
  edestruct (last_filter
               (λ c, negb (String.eqb c "") && negb (String.eqb c "."))
               pieces "" Hne) as [Hfne Hflast].
  { destruct (List.last pieces "") as [|a [|b r]]; simpl in *; try lia.
    by destruct (Ascii.eqb a "."). }
  split; [done|]. split; [by rewrite Hflast|].
  apply Forall_forall. intros x Hx%list_elem_of_In.
  apply filter_In in Hx as [Hx%list_elem_of_In _].
  revert x Hx. apply Forall_forall. by apply split_go_slash_free.
Qed.

Lemma last_app_ne {A} (l1 l2 : list A) d :
  l2 ≠ [] → List.last (l1 ++ l2) d = List.last l2 d.
Proof.
  intros Hl2. destruct (exists_last Hl2) as (l & a & ->).
  by rewrite app_assoc, !last_last.
Qed.

Lemma joinpath_md_name self s :
  Path.name (Path.joinpath self (s +:+ ".md"))
  = List.last (Path.components (s +:+ ".md")) "".
Proof.
  destruct (components_md s) as (Hne & _ & _).
  unfold Path.joinpath, Path.name, Path.of_string.
  destruct (String.prefix "/" _); simpl; [done|]. by apply last_app_ne.
Qed.

Lemma generated_name province name archived :
  let n := Path.name (generate_markdown_path province name archived) in
  (3 ≤ String.length n)%nat ∧ slash_free n.
Proof.
  unfold generate_markdown_path. rewrite joinpath_md_name.
  destruct (components_md name) as (Hne & Hlen & Hfree). split; [done|].
  rewrite Forall_forall in Hfree. apply Hfree, list_elem_of_In.
  destruct (exists_last Hne) as (l & a & ->). rewrite last_last.
  apply in_app_iff. right. by left.
Qed.

Lemma stem_suffix_length self :
  (String.length (Path.stem self) + String.length (Path.suffix self))%nat
  = String.length (Path.name self).
Proof.
  unfold Path.stem, Path.suffix, Path.suffix_start.
  destruct (Path.rfind_dot (Path.name self)) as [i|]; [|simpl; lia].
  case_decide; [|simpl; lia].
  rewrite !length_substring by lia. lia.
Qed.

Lemma stem_slash_free self : slash_free (Path.name self) → slash_free (Path.stem self).
Proof.
  intros Hname. unfold Path.stem.
  destruct (Path.suffix_start _); [by apply slash_free_substring | done].
Qed.

Lemma suffix_slash_free self : slash_free (Path.name self) → slash_free (Path.suffix self).
Proof.
  intros Hname. unfold Path.suffix.
  destruct (Path.suffix_start _); [by apply slash_free_substring | done].
Qed.

(** Renaming a generated path to its sanitized stem never raises. *)
Lemma with_stem_sanitized province name archived :
  let target := generate_markdown_path province name archived in
  ∃ target',
    Path.with_stem target (sanitize_filename (Path.stem target)).1 = Ok target'.
Proof.
  intros target.
  destruct (generated_name province name archived) as [Hlen Hfree].
  fold target in Hlen, Hfree.
  pose proof (stem_suffix_length target) as Hsum.
  pose proof (sanitized_length (Path.stem target)) as Hclean.
  unfold Path.with_stem, Path.with_name, sanitize_filename. simpl.
  set (new_name := re_sub illegal_pattern "_" (Path.stem target) +:+ Path.suffix target).
  assert (String.length new_name = String.length (Path.name target)) as Hnew.
  { unfold new_name. rewrite length_append. lia. }
  rewrite decide_False; [by eexists|].
  intros [H|[H|[H|H]]].
  - rewrite H in Hlen. simpl in Hlen. lia.
  - rewrite H in Hnew. simpl in Hnew. lia.
  - rewrite H in Hnew. simpl in Hnew. lia.
  - assert (slash_free new_name) as Hno; [|unfold slash_free in Hno; congruence].
    apply slash_free_app. split; [apply sanitized_slash_free|].
    by apply suffix_slash_free.
Qed.

Section pipeline.
Variable slugify : string → string.

Lemma getitem_returns name fm :
  ∃ slug fm', FilenameMap.__getitem__ slugify name fm = (Ok slug, fm').
Proof.
  unfold FilenameMap.__getitem__.
  destruct (FilenameMap.mapping fm !! name); by eexists _, _.
Qed.

Lemma prepare_task_returns colleges archived name uni st fm :
  ∃ t log fm',
    prepare_task slugify colleges archived (name, uni) (st, fm)
    = (Ok t, (add_stdout log st, fm'))
    ∧ task_name t = name ∧ task_uni t = uni.
Proof.
  destruct (getitem_returns name fm) as (slug & fm' & Hslug).
  unfold prepare_task.
  erewrite bind_ok; [|unfold on_filename_map; simpl; by rewrite Hslug].
  destruct (with_stem_sanitized (find_province name colleges) name archived)
    as [target' Hstem].
  destruct (sanitize_filename _) as [target_name is_illegal]. simpl in Hstem.
  destruct is_illegal.
  - eexists _, [_], fm'.
    split; [unfold mbind, M_bind, on_state, print, modify, lift_outcome; simpl;
            rewrite Hstem; reflexivity | done].
  - eexists _, [], fm'. rewrite add_stdout_nil.
    split; [reflexivity | done].
Qed.

Lemma prepare_tasks_loop colleges archived items : ∀ st fm,
  ∃ tasks log fm',
    for_append items (prepare_task slugify colleges archived) (st, fm)
    = (Ok tasks, (add_stdout log st, fm'))
    ∧ (λ t, (task_name t, task_uni t)) <$> tasks = items.
Proof.
  induction items as [|[name uni] items IH]; intros st fm.
  - exists [], [], fm. by rewrite add_stdout_nil.
  - destruct (prepare_task_returns colleges archived name uni st fm)
      as (t & log1 & fm1 & Hhead & Hname & Huni).
    destruct (IH (add_stdout log1 st) fm1) as (tasks & log2 & fm2 & Htail & Hitems).
    exists (t :: tasks), (log1 ++ log2), fm2. split.
    + simpl. erewrite bind_ok; [|exact Hhead]. erewrite bind_ok; [|exact Htail].
      by rewrite add_stdout_app.
    + rewrite fmap_cons. by rewrite Hname, Huni, Hitems.
Qed.

(** The pipeline prepares one task for each entry of the registry. *)
Lemma prepare_tasks_returns dict colleges archived st fm :
  ∃ tasks log fm',
    prepare_tasks slugify dict colleges archived (st, fm)
    = (Ok tasks, (add_stdout log st, fm'))
    ∧ (λ t, (task_name t, task_uni t)) <$> tasks = map_to_list (get_dict dict st).
Proof.
  unfold prepare_tasks. erewrite bind_ok; [|reflexivity]. simpl.
  apply prepare_tasks_loop.
Qed.
End pipeline.

(** C6. The anomaly scan, on a registry whose names refer to aggregates of
    the store, returns normally and changes nothing but the output: the two
    registries and every aggregate are as before.  For each key whose name
    holds no institution marker and is not whitelisted it prints exactly one
    warning, which carries the name and the credits of its aggregate (their
    identifiers are what the line lists); for every other name it prints
    none.  The pipeline that runs after it prepares one task for each entry
    the registry had before the scan, so a flagged entity is rendered. *)
Theorem anomaly_scan_only_observes
    (strip : string → string) (dict : dict_ref)
    (whitelist : option (list string)) (st : state)
    (Hstore : ∀ name l, get_dict dict st !! name = Some l →
                        is_Some (objects st !! l)) :
  ∃ log,
    anomaly_scan strip dict whitelist st = (Ok tt, add_stdout log st)
    ∧ universities (add_stdout log st) = universities st
    ∧ universities_archived (add_stdout log st) = universities_archived st
    ∧ objects (add_stdout log st) = objects st
    ∧ (∀ name l u,
         get_dict dict st !! name = Some l → objects st !! l = Some u →
         if maybe_invalid (whitelist_set strip whitelist) name
         then length (List.filter (warns_about name) log) = 1%nat
              ∧ warn_maybe_invalid name (University.credits u) ∈ log
         else length (List.filter (warns_about name) log) = 0%nat)
    ∧ (∀ name, get_dict dict st !! name = None →
         length (List.filter (warns_about name) log) = 0%nat)
    ∧ (∀ slugify colleges archived fm,
         ∃ tasks log' fm',
           prepare_tasks slugify dict colleges archived (add_stdout log st, fm)
           = (Ok tasks, (add_stdout log' (add_stdout log st), fm'))
           ∧ (λ t, (task_name t, task_uni t)) <$> tasks
             = map_to_list (get_dict dict st)).
Proof.
  set (wl := whitelist_set strip whitelist).
  set (d := get_dict dict st).
  assert (∀ n, n ∈ keys d → ∃ l, d !! n = Some l ∧ is_Some (objects st !! l))
    as Hkeys.
  { intros n [l Hl]%elem_of_keys. exists l. split; [done|]. by eapply Hstore. }
  exists (scan_log d (objects st) wl (keys d)). split_and!; try done.
  - unfold anomaly_scan. erewrite bind_ok; [|done]. by apply anomaly_loop.
  - intros name l u Hl Hu.
    rewrite warnings_of_scan_log, length_filter_NoDup by (done || apply NoDup_keys).
    destruct (maybe_invalid wl name) eqn:Hflag.
    + split.
      * rewrite decide_True; [done|]. split; [|done]. apply elem_of_keys. by exists l.
      * unfold scan_log. apply list_elem_of_omap. exists name.
        split; [apply elem_of_keys; by exists l|].
        rewrite Hflag. fold d. rewrite Hl. simpl. by rewrite Hu.
    + rewrite decide_False; [done|]. by intros [_ ?].
  - intros name Hnone.
    rewrite warnings_of_scan_log, length_filter_NoDup by (done || apply NoDup_keys).
    rewrite decide_False; [done|]. intros [[l Hl]%elem_of_keys _].
    fold d in Hnone. congruence.
  - intros slugify colleges archived fm.
    destruct (prepare_tasks_returns slugify dict colleges archived
                (add_stdout (scan_log d (objects st) wl (keys d)) st) fm)
      as (tasks & log' & fm' & Hrun & Htasks).
    exists tasks, log', fm'. split; [done|]. rewrite Htasks. by destruct dict.
Qed.

Lemma anomaly_scan_only_observes_witness :
  ∃ log,
    anomaly_scan id the_universities (Some []) example_unflagged_state
    = (Ok tt, add_stdout log example_unflagged_state)
    ∧ length (List.filter (warns_about "某研究所") log) = 1%nat.
Proof.
  assert (∀ name l, get_dict the_universities example_unflagged_state !! name = Some l
                    → is_Some (objects example_unflagged_state !! l)) as Hstore.
  { intros name l Hl. simpl in Hl.
    apply lookup_insert_Some in Hl as [[_ <-]|[_ Hl]]; [by eexists|].
    by rewrite lookup_empty in Hl. }
  destruct (anomaly_scan_only_observes id the_universities (Some [])
              example_unflagged_state Hstore)
    as (log & Hrun & _ & _ & _ & Hwarn & _).
  exists log. split; [exact Hrun|].
  specialize (Hwarn "某研究所" 0%nat _ eq_refl eq_refl).
  assert (maybe_invalid (whitelist_set id (Some [])) "某研究所" = true) as Hflag
    by (vm_compute; reflexivity).
  rewrite Hflag in Hwarn. by destruct Hwarn.
Defined.

(** A base slug that is not in use is kept as it is. *)
Lemma unused_slug_base (X : gset string) base :
  base ∉ X → FilenameMap.unused_slug X base = base.
Proof.
  intros Hbase. unfold FilenameMap.unused_slug.
  destruct (wf_guard 32 (FilenameMap.turn_wf X base) (1, base)) as [f].
  simpl. by destruct (decide (base ∈ X)).
Qed.

(** C4, as the code has it.  A [/] in a name is a separator of the path the
    name is put in: the stem of a generated path never holds one, so the
    sanitizer never sees it.  For the name [A/B] the pipeline prepares the
    file [B.md] in a directory [A], replaces nothing and prints nothing (the
    state is unchanged); the slug is [slugify] of the name without its
    [/].  A colon, which is no separator, is replaced and reported: for the
    name [A:B] the file is [A_B.md] and one error line is printed. *)
Theorem slash_in_name_is_a_separator
    (slugify : string → string) (colleges : list (string * string))
    (archived : bool) (uni : loc) (st : state) :
  let target := generate_markdown_path (find_province "A/B" colleges) "A/B" archived in
  (∃ fm',
     prepare_task slugify colleges archived ("A/B", uni) (st, FilenameMap.new)
     = (Ok (mk_task "A/B" uni (slugify "AB") target), (st, fm')))
  ∧ Path.name target = "B.md"
  ∧ (∃ dir, Path.parts target = dir ++ ["A"; "B.md"])
  ∧ sanitize_filename (Path.stem target) = ("B", false)
  ∧ (∀ province name archived',
       slash_free (Path.stem (generate_markdown_path province name archived')))
  ∧ (let colon := generate_markdown_path (find_province "A:B" colleges) "A:B"
                    archived in
     ∃ renamed fm',
       prepare_task slugify colleges archived ("A:B", uni) (st, FilenameMap.new)
       = (Ok (mk_task "A:B" uni (slugify "AB") renamed),
          (add_stdout [error_illegal_filename (Path.__str__ colon)] st, fm'))
       ∧ Path.name renamed = "A_B.md").
Proof.
  intros target.
  assert (Path.name target = "B.md") as Hname.
  { unfold target, generate_markdown_path. rewrite joinpath_md_name.
    vm_compute. reflexivity. }
  assert (Path.stem target = "B") as Hstem.
  { unfold Path.stem. rewrite Hname. vm_compute. reflexivity. }
  split_and!.
  - eexists. unfold prepare_task.
    erewrite bind_ok.
    2:{ unfold on_filename_map, FilenameMap.__getitem__. simpl.
        rewrite lookup_empty.
        replace (re_sub FILENAME_PREPROCESS "" "A/B") with "AB"
          by (vm_compute; reflexivity).
        rewrite unused_slug_base by apply not_elem_of_empty. reflexivity. }
    fold target. rewrite Hstem.
    replace (sanitize_filename "B") with ("B", false) by (vm_compute; reflexivity).
    reflexivity.
  - done.
  - unfold target, generate_markdown_path, Path.joinpath at 1.
    replace (String.prefix "/" ("A/B" +:+ ".md")) with false
      by (vm_compute; reflexivity).
    eexists. simpl. f_equal.
  - rewrite Hstem. vm_compute. reflexivity.
  - intros province name archived'. apply stem_slash_free.
    apply generated_name.
  - intros colon.
    assert (Path.name colon = "A:B.md") as Hcolon.
    { unfold colon, generate_markdown_path. rewrite joinpath_md_name.
      vm_compute. reflexivity. }
    assert (Path.with_stem colon "A_B"
            = Ok (Path.mk (Path.absolute colon)
                    (removelast (Path.parts colon) ++ ["A_B.md"]))) as Hrenamed.
    { unfold Path.with_stem, Path.with_name, Path.suffix. rewrite Hcolon.
      vm_compute. reflexivity. }
    eexists _, _. split.
    + unfold prepare_task.
      erewrite bind_ok.
      2:{ unfold on_filename_map, FilenameMap.__getitem__. simpl.
          rewrite lookup_empty.
          replace (re_sub FILENAME_PREPROCESS "" "A:B") with "AB"
            by (vm_compute; reflexivity).
          rewrite unused_slug_base by apply not_elem_of_empty. reflexivity. }
      fold colon. unfold Path.stem at 1. rewrite Hcolon.
      replace (sanitize_filename _) with ("A_B", true) by (vm_compute; reflexivity).
      unfold mbind, M_bind, on_state, print, modify, lift_outcome. simpl.
      rewrite Hrenamed. reflexivity.
    + unfold Path.name. simpl. apply last_last.
Qed.

(** ** What loading builds and reconciliation keeps *)

Lemma initial_well_formed : all_well_formed initial_state.
Proof. intros r. split; intros *; destruct r; simpl; by rewrite lookup_empty. Qed.

Lemma well_formed_add_stdout r log st :
  well_formed r st → well_formed r (add_stdout log st).
Proof. by destruct r. Qed.

(** Dropping keys keeps a registry well formed. *)
Lemma well_formed_set_dict r dict d st :
  well_formed r st →
  (∀ k l, d !! k = Some l → get_dict dict st !! k = Some l) →
  well_formed r (set_dict dict d st).
Proof.
  intros [Hstore Hdistinct] Hsub.
  assert (∀ k l, get_dict r (set_dict dict d st) !! k = Some l →
                 get_dict r st !! k = Some l) as Hold.
  { intros k l. destruct r, dict; simpl; auto. }
  split.
  - intros k l Hk%Hold. rewrite objects_set_dict. by eapply Hstore.
  - intros k1 k2 l H1%Hold H2%Hold. by eapply Hdistinct.
Qed.

Lemma call_well_formed l (method : M University.t unit) :
  keeps_bins method → preserves all_well_formed (call l method).
Proof.
  intros Hbins. apply hoare_call; [|done].
  intros s u Hwf Hu r. destruct (Hwf r) as [Hstore Hdistinct].
  assert (∀ k l', get_dict r (set_objects (<[l := (method u).2]> (objects s)) s)
                  !! k = Some l' → get_dict r s !! k = Some l') as Hold.
  { intros k l'. by destruct r. }
  split.
  - intros k l' Hk%Hold. simpl.
    destruct (Hstore _ _ Hk) as (u' & Hu' & Hlen).
    destruct (decide (l' = l)) as [->|Hne].
    + eexists. split; [apply list_lookup_insert_eq; by eapply lookup_lt_Some|].
      rewrite Hbins. assert (u' = u) as -> by congruence. exact Hlen.
    + exists u'. by rewrite list_lookup_insert_ne.
  - intros k1 k2 l' H1%Hold H2%Hold. by eapply Hdistinct.
Qed.

Lemma getitem_default_well_formed dict name :
  preserves all_well_formed (getitem_default dict name).
Proof.
  intros s Hwf. unfold getitem_default.
  destruct (get_dict dict s !! name) as [l|] eqn:Hname; [done|]. simpl.
  intros r. destruct (Hwf r) as [Hstore Hdistinct].
  set (s' := set_dict dict _ _).
  assert (objects s' = objects s ++ [University.new]) as Hobjects
    by (unfold s'; by rewrite objects_set_dict).
  assert (∀ k l, get_dict r s' !! k = Some l →
            get_dict r s !! k = Some l
            ∨ (r = dict ∧ k = name ∧ l = length (objects s))) as Hold.
  { intros k l. unfold s'. destruct r, dict; simpl; auto;
      rewrite lookup_insert; case_decide; naive_solver. }
  assert (∀ k l, get_dict r s !! k = Some l → (l < length (objects s))%nat)
    as Hbound.
  { intros k l Hk. destruct (Hstore _ _ Hk) as (u & Hu & _).
    by eapply lookup_lt_Some. }
  split.
  - intros k l [Hk|(-> & -> & ->)]%Hold; rewrite Hobjects.
    + destruct (Hstore _ _ Hk) as (u & Hu & Hlen).
      exists u. split; [|done]. by apply lookup_app_l_Some.
    + exists University.new. split.
      * rewrite lookup_app_r by lia. by rewrite Nat.sub_diag.
      * unfold University.new, University.answers.
        by rewrite length_map, length_seq.
  - intros k1 k2 l [H1|(-> & -> & ->)]%Hold [H2|(_ & -> & Hl)]%Hold.
    + by eapply Hdistinct.
    + subst l. apply Hbound in H1. lia.
    + apply Hbound in H2. lia.
    + done.
Qed.

(** Loading keeps the registries well formed, whether it returns or
    raises. *)
Lemma load_rows_well_formed
    (int_of : string → option Z) (float_is_one : string → option bool)
    (zhconv_convert strip : string → string)
    (strptime : string → option datetime) (year_month : datetime → string)
    (rows : list (list string)) :
  preserves all_well_formed
    (load_rows int_of float_is_one zhconv_convert strip strptime year_month rows).
Proof.
  unfold load_rows.
  apply preserves_bind; [apply preserves_pure, or_value_error_pure|].
  intros archive_cut. apply hoare_for_each. intros row.
  unfold partition_step.
  apply preserves_bind; [apply preserves_pure, item_pure|]. intros stamp.
  apply preserves_bind; [apply preserves_pure, or_value_error_pure|]. intros t.
  apply load_preserves.
  - intros name. apply getitem_default_well_formed.
  - intros l method. apply call_well_formed.
Qed.

(** X1. Whatever the rows are and wherever loading stops, the two
    registries it has built are well formed: every name refers to an
    aggregate with one bin per question, and no two names of a registry
    share an aggregate. *)
Theorem loading_builds_well_formed_registries
    (int_of : string → option Z) (float_is_one : string → option bool)
    (zhconv_convert strip : string → string)
    (strptime : string → option datetime) (year_month : datetime → string)
    (rows : list (list string)) :
  all_well_formed
    (load_rows int_of float_is_one zhconv_convert strip strptime year_month
               rows initial_state).2.
Proof. apply load_rows_well_formed, initial_well_formed. Qed.

Lemma split_go_nonempty sep s : ∀ skip cur, split_go sep skip cur s ≠ [].
Proof.
  induction s as [|c s IH]; intros skip cur; cbn [split_go]; [done|].
  destruct skip; [|apply IH]. destruct (String.prefix sep (String c s)); [done | apply IH].
Qed.

Lemma hoare_for_each_ok {St A} (I : St → Prop) (xs : list A) (body : A → M St unit) :
  (∀ x, hoare I (body x) (λ r s, r = Ok tt ∧ I s)) →
  hoare I (for_each xs body) (λ r s, r = Ok tt ∧ I s).
Proof.
  intros Hbody. induction xs as [|x xs IH]; [by intros s|].
  simpl. apply (hoare_bind I (λ _, I)); [|intros ?; apply IH].
  intros s HI. destruct (Hbody x s HI) as [Hok Hs].
  destruct (body x s) as [[[]|e] s']; simpl in *; done.
Qed.

Lemma alias_line_well_formed dict name aliases :
  hoare all_well_formed (alias_line dict name aliases)
        (λ r s, r = Ok tt ∧ all_well_formed s).
Proof.
  intros s Hwf.
  destruct (get_dict dict s !! name) as [p|] eqn:Hname.
  - destruct (Hwf dict) as [Hstore _].
    destruct (Hstore _ _ Hname) as (P & HP & HPlen).
    rewrite (alias_line_present dict name aliases s p P) by (done || apply Hwf).
    split; [done|]. simpl. intros r.
    eapply well_formed_with_store; [apply Hwf | | done |].
    + intros k l. rewrite (lookup_foldl_delete id). by case_decide.
    + rewrite HPlen. apply merged_content_length; [done|].
      apply merged_aliases_bins, Hwf.
  - unfold alias_line. erewrite bind_ok; [|done]. rewrite Hname.
    split; [done|]. simpl. intros r. apply (well_formed_add_stdout r [_]), Hwf.
Qed.

(** Reconciliation returns on well-formed registries and keeps them well
    formed. *)
Lemma process_universities_well_formed
    (strip : string → string) (dict : dict_ref)
    (alias blacklist whitelist : option (list string)) :
  hoare all_well_formed
        (process_universities strip dict alias blacklist whitelist)
        (λ r s, r = Ok tt ∧ all_well_formed s).
Proof.
  assert (hoare all_well_formed (alias_merge dict alias)
                (λ r s, r = Ok tt ∧ all_well_formed s)) as Halias.
  { destruct alias as [lines|]; [|by intros s]. simpl.
    apply hoare_for_each_ok. intros line. unfold alias_step.
    pose proof (split_go_nonempty "🚮" (rstrip_newline line) 0 "") as Hne.
    unfold split. destruct (split_go _ _ _ _) as [|name aliases]; [done|].
    apply alias_line_well_formed. }
  assert (hoare all_well_formed (blacklist_removal strip dict blacklist)
                (λ r s, r = Ok tt ∧ all_well_formed s)) as Hblack.
  { destruct blacklist as [lines|]; [|by intros s]. simpl.
    intros s Hs. rewrite blacklist_loop. split; [done|]. simpl. intros r.
    apply well_formed_set_dict; [apply Hs|].
    intros k l. rewrite lookup_foldl_delete. by case_decide. }
  assert (hoare all_well_formed (anomaly_scan strip dict whitelist)
                (λ r s, r = Ok tt ∧ all_well_formed s)) as Hscan.
  { intros s Hs. unfold anomaly_scan. erewrite bind_ok; [|done].
    rewrite anomaly_loop.
    - split; [done|]. simpl. intros r. apply well_formed_add_stdout, Hs.
    - intros name [l Hl]%elem_of_keys. exists l. split; [done|].
      destruct (Hs dict) as [Hstore _].
      destruct (Hstore _ _ Hl) as (u & Hu & _). by exists u. }
  intros st Hwf.
  destruct (Halias st Hwf) as [Hr1 Hwf1].
  destruct (alias_merge dict alias st) as [r1 st1] eqn:H1. simpl in *. subst r1.
  destruct (Hblack st1 Hwf1) as [Hr2 Hwf2].
  destruct (blacklist_removal strip dict blacklist st1) as [r2 st2] eqn:H2.
  simpl in *. subst r2.
  destruct (Hscan st2 Hwf2) as [Hr3 Hwf3].
  destruct (anomaly_scan strip dict whitelist st2) as [r3 st3] eqn:H3.
  simpl in *. subst r3.
  unfold process_universities.
  erewrite bind_ok; [|exact H1]. erewrite bind_ok; [|exact H2]. rewrite H3.
  by split.
Qed.

(** X2. On what loading builds, reconciliation never raises (the merge of
    an alias never meets aggregates with different numbers of bins) and
    leaves the registries well formed. *)
Theorem process_universities_returns
    (strip : string → string) (dict : dict_ref)
    (alias blacklist whitelist : option (list string)) (st : state)
    (Hwf : all_well_formed st) :
  ∃ st',
    process_universities strip dict alias blacklist whitelist st = (Ok tt, st')
    ∧ all_well_formed st'.
Proof.
  destruct (process_universities_well_formed strip dict alias blacklist
              whitelist st Hwf) as [Hr Hwf'].
  destruct (process_universities strip dict alias blacklist whitelist st)
    as [r st'] eqn:Hrun.
  simpl in *. subst r. by exists st'.
Qed.

Lemma process_universities_returns_witness :
  ∃ st',
    process_universities id the_universities
      (Some ["XX大学🚮XX大学分校区"]) (Some []) None example_state
    = (Ok tt, st')
    ∧ all_well_formed st'.
Proof.
  apply process_universities_returns.
  intros r. split.
  - intros k l Hk. destruct r; simpl in Hk; [|by rewrite lookup_empty in Hk].
    apply lookup_insert_Some in Hk as [[_ <-]|[_ Hk]];
      [eexists; split; [reflexivity | vm_compute; reflexivity]|].
    apply lookup_insert_Some in Hk as [[_ <-]|[_ Hk]];
      [eexists; split; [reflexivity | vm_compute; reflexivity]|].
    by rewrite lookup_empty in Hk.
  - intros k1 k2 l H1 H2.
    destruct r; simpl in H1, H2; [|by rewrite lookup_empty in H1].
    apply lookup_insert_Some in H1 as [[<- <-]|[? H1]];
      apply lookup_insert_Some in H2 as [[<- ?]|[? H2]]; try done;
      try (apply lookup_insert_Some in H1 as [[<- <-]|[? H1]]);
      try (apply lookup_insert_Some in H2 as [[<- ?]|[? H2]]);
      try done; try (by rewrite lookup_empty in H1);
      by rewrite lookup_empty in H2.
Defined.

(** X3. The render pipeline never raises while it prepares its tasks
    (renaming a path to its sanitized stem is always possible) and prepares
    exactly one task for each entry of the registry, for the entry's name
    and aggregate; the registries and the store are as before. *)
Theorem render_prepares_every_entity
    (slugify : string → string) (dict : dict_ref)
    (colleges : list (string * string)) (archived : bool)
    (st : state) (fm : FilenameMap.t) :
  ∃ tasks log fm',
    prepare_tasks slugify dict colleges archived (st, fm)
    = (Ok tasks, (add_stdout log st, fm'))
    ∧ (λ t, (task_name t, task_uni t)) <$> tasks = map_to_list (get_dict dict st).
Proof. apply prepare_tasks_returns. Qed.

(** ** Character classes *)

Lemma prefix_byte p c s :
  String.length p = 1%nat → String.prefix p (String c s) = String.eqb p (String c "").
Proof.
  destruct p as [|a [|b p]]; intros Hp; try done.
  cbn [String.prefix String.eqb]. destruct (ascii_dec a c) as [->|Hne].
  - rewrite Ascii.eqb_refl. by destruct s.
  - by apply Ascii.eqb_neq in Hne as ->.
Qed.

Lemma existsb_prefix_byte chars c s :
  Forall (λ p, String.length p = 1%nat) chars →
  existsb (λ p, String.prefix p (String c s)) chars = in_class chars c.
Proof.
  unfold in_class. induction 1 as [|p chars Hp _ IH]; [done|].
  cbn [existsb]. by rewrite IH, prefix_byte.
Qed.

Lemma re_sub_byte chars repl c s :
  Forall (λ p, String.length p = 1%nat) chars →
  re_sub chars repl (String c s)
  = (if in_class chars c then repl else String c "") +:+ re_sub chars repl s.
Proof. intros Hchars. by rewrite re_sub_cons, existsb_prefix_byte. Qed.

Lemma append_assoc s1 s2 s3 : (s1 +:+ s2) +:+ s3 = s1 +:+ (s2 +:+ s3).
Proof.
  induction s1 as [|c s1 IH]; [done|]. by rewrite !append_cons, IH.
Qed.

Lemma re_sub_app chars repl s1 s2 :
  Forall (λ p, String.length p = 1%nat) chars →
  re_sub chars repl (s1 +:+ s2) = re_sub chars repl s1 +:+ re_sub chars repl s2.
Proof.
  intros Hchars. induction s1 as [|c s1 IH]; [done|].
  by rewrite append_cons, !re_sub_byte, IH, append_assoc.
Qed.

Lemma free_of_cons chars c s :
  Forall (λ p, String.length p = 1%nat) chars →
  free_of chars (String c s) ↔ in_class chars c = false ∧ free_of chars s.
Proof.
  intros Hchars. unfold free_of. cbn [re_search].
  rewrite existsb_prefix_byte by done. apply orb_false_iff.
Qed.

Lemma free_of_nil chars :
  Forall (λ p, String.length p = 1%nat) chars → free_of chars "".
Proof.
  intros Hchars. unfold free_of. cbn [re_search]. rewrite orb_false_r.
  induction Hchars as [|p chars Hp _ IH]; [done|].
  cbn [existsb]. rewrite IH. by destruct p.
Qed.

Lemma free_of_app chars s1 s2 :
  Forall (λ p, String.length p = 1%nat) chars →
  free_of chars (s1 +:+ s2) ↔ free_of chars s1 ∧ free_of chars s2.
Proof.
  intros Hchars. induction s1 as [|c s1 IH]; [rewrite append_nil | rewrite append_cons].
  - pose proof (free_of_nil chars Hchars). tauto.
  - rewrite !free_of_cons, IH by done. tauto.
Qed.

(** ** Markdown *)

Lemma escape_each_app s1 s2 : escape_each (s1 +:+ s2) = escape_each s1 +:+ escape_each s2.
Proof.
  induction s1 as [|c s1 IH]; [done|].
  rewrite append_cons. cbn [escape_each]. by rewrite IH, append_assoc.
Qed.

Lemma markdown_escape_cons c s :
  markdown_escape (String c s) = escaped c +:+ markdown_escape s.
Proof.
  assert (∀ p, String.length p = 1%nat → Forall (λ p, String.length p = 1%nat) [p])
    as Hone by (by repeat constructor).
  unfold markdown_escape, replace.
  rewrite (re_sub_byte ["*"]) by by apply Hone.
  rewrite (re_sub_app ["~"]) by by apply Hone.
  rewrite (re_sub_app ["_"]) by by apply Hone.
  f_equal. unfold escaped, markdown_special, in_class. cbn [existsb String.eqb].
  destruct (Ascii.eqb_spec "*" c) as [<-|H1]; [vm_compute; reflexivity|].
  destruct (Ascii.eqb_spec "~" c) as [<-|H2]; [vm_compute; reflexivity|].
  destruct (Ascii.eqb_spec "_" c) as [<-|H3]; [vm_compute; reflexivity|].
  cbn [orb].
  rewrite (re_sub_byte ["~"]) by by apply Hone.
  unfold in_class. cbn [existsb String.eqb].
  destruct (Ascii.eqb_spec "~" c); [done|]. cbn [orb].
  change (re_sub ["~"] (backslash +:+ "~") "") with "".
  rewrite append_cons, append_nil.
  rewrite (re_sub_byte ["_"]) by by apply Hone.
  unfold in_class. cbn [existsb String.eqb].
  by destruct (Ascii.eqb_spec "_" c).
Qed.

Lemma markdown_escape_escape_each s : markdown_escape s = escape_each s.
Proof.
  induction s as [|c s IH]; [done|].
  rewrite markdown_escape_cons. cbn [escape_each]. by rewrite IH.
Qed.

(** An escaped text never starts with a bare special character. *)
Lemma escape_each_head s c rest :
  escape_each s = String c rest → markdown_special c = false.
Proof.
  destruct s as [|a s]; [done|]. cbn [escape_each]. unfold escaped.
  destruct (markdown_special a) eqn:Ha.
  - unfold backslash. rewrite !append_cons. intros [= <- _]. by vm_compute.
  - rewrite append_cons. by intros [= <- _].
Qed.

Lemma markdown_unescape_cons b c rest :
  markdown_unescape (String b (String c rest))
  = if Ascii.eqb b (ascii_of_nat 92) && markdown_special c
    then String c (markdown_unescape rest)
    else String b (markdown_unescape (String c rest)).
Proof. reflexivity. Qed.

Lemma unescape_escape_each s : markdown_unescape (escape_each s) = s.
Proof.
  induction s as [|a s IH]; [done|].
  cbn [escape_each]. unfold escaped. destruct (markdown_special a) eqn:Ha.
  - unfold backslash.
    rewrite append_assoc, append_cons, append_nil, append_cons, append_nil.
    rewrite markdown_unescape_cons, Ascii.eqb_refl, Ha. cbn [andb]. by rewrite IH.
  - rewrite append_cons, append_nil.
    destruct (escape_each s) as [|c rest] eqn:Hs.
    + destruct s as [|b s]; [done|]. exfalso. revert Hs. cbn [escape_each].
      unfold escaped, backslash. by destruct (markdown_special b).
    + rewrite markdown_unescape_cons, (escape_each_head s c rest Hs).
      rewrite andb_false_r. by rewrite IH.
Qed.

(** X4. [markdown_escape] makes three passes over the text, one for each of
    [*], [~] and [_]; together they amount to one pass that puts a backslash
    in front of each of these characters and leaves every other byte,
    backslashes included, as it is: a later pass never touches what an
    earlier one inserted.  Escaping loses nothing: dropping the backslash in
    front of each special character gives the text back, so two texts with
    the same escaped form are equal. *)
Theorem markdown_escape_one_pass (text : string) :
  markdown_escape text = escape_each text
  ∧ markdown_unescape (markdown_escape text) = text
  ∧ (∀ other, markdown_escape other = markdown_escape text → other = text)
  ∧ (free_of ["*"; "~"; "_"] text → markdown_escape text = text).
Proof.
  split; [apply markdown_escape_escape_each|].
  split; [by rewrite markdown_escape_escape_each, unescape_escape_each|].
  split.
  - intros other Heq.
    rewrite <- (unescape_escape_each other), <- (unescape_escape_each text).
    by rewrite <- !markdown_escape_escape_each, Heq.
  - rewrite markdown_escape_escape_each.
    assert (Forall (λ p, String.length p = 1%nat) ["*"; "~"; "_"]) as Hb
      by (by repeat constructor).
    induction text as [|c s IH]; [done|].
    intros [Hc Hs]%free_of_cons; [|done].
    cbn [escape_each]. unfold escaped, markdown_special. rewrite Hc.
    rewrite append_cons, append_nil. by rewrite IH.
Qed.

(** ** File names *)

Lemma sanitized_cons c s :
  re_sub illegal_pattern "_" (String c s)
  = String (if in_class illegal_pattern c then "_"%char else c)
           (re_sub illegal_pattern "_" s).
Proof.
  rewrite re_sub_byte by apply illegal_pattern_bytes.
  by destruct (in_class illegal_pattern c).
Qed.

Lemma sanitized_free s : free_of illegal_pattern (re_sub illegal_pattern "_" s).
Proof.
  induction s as [|c s IH]; [done|].
  rewrite sanitized_cons. apply free_of_cons; [apply illegal_pattern_bytes|].
  split; [|done]. by destruct (in_class illegal_pattern c) eqn:Hc.
Qed.

Lemma sanitized_fixed s :
  re_sub illegal_pattern "_" s = s ↔ free_of illegal_pattern s.
Proof.
  induction s as [|c s IH]; [done|].
  rewrite sanitized_cons, free_of_cons by apply illegal_pattern_bytes.
  destruct (in_class illegal_pattern c) eqn:Hc.
  - split; [|by intros [? _]]. intros [= <- _]. by vm_compute in Hc.
  - rewrite <- IH. split; [by intros [= ->] | by intros [_ ->]].
Qed.

Lemma sanitize_filename_flag s :
  (sanitize_filename s).2 = false ↔ free_of illegal_pattern s.
Proof.
  unfold sanitize_filename. cbn [snd]. rewrite <- sanitized_fixed.
  rewrite negb_false_iff. apply String.eqb_eq.
Qed.

(** X5. [sanitize_filename] replaces byte by byte: the cleaned name has the
    length of the name, each of its bytes is [_] where the name has a member
    of the illegal class and the name's byte elsewhere, and it holds no
    member of the class.  The flag is false exactly when the name held none,
    and then the cleaned name is the name; cleaning a cleaned name changes
    nothing and reports nothing. *)
Theorem sanitize_filename_replaces_illegal_bytes (filename : string) :
  let cleaned := (sanitize_filename filename).1 in
  let is_illegal := (sanitize_filename filename).2 in
  String.length cleaned = String.length filename
  ∧ (∀ i, String.get i cleaned
          = (λ c, if in_class illegal_pattern c then "_"%char else c)
            <$> String.get i filename)
  ∧ free_of illegal_pattern cleaned
  ∧ (is_illegal = false ↔ free_of illegal_pattern filename)
  ∧ (is_illegal = false → cleaned = filename)
  ∧ sanitize_filename cleaned = (cleaned, false).
Proof.
  intros cleaned is_illegal.
  split; [apply sanitized_length|]. split.
  { subst cleaned. unfold sanitize_filename. cbn [fst].
    induction filename as [|c s IH]; intros i; [done|].
    rewrite sanitized_cons. destruct i as [|i]; [done|]. apply IH. }
  split; [apply sanitized_free|].
  split; [apply sanitize_filename_flag|].
  split.
  { intros Hflag%sanitize_filename_flag. by apply sanitized_fixed. }
  pose proof (sanitized_free filename) as Hfree.
  unfold sanitize_filename. f_equal; [by apply sanitized_fixed|].
  apply negb_false_iff, String.eqb_eq.
  apply sanitized_fixed, sanitized_free.
Qed.

(** ** Generated paths *)

Lemma append_empty_r s : s +:+ "" = s.
Proof. induction s as [|c s IH]; [done|]. by rewrite append_cons, IH. Qed.

Lemma rev_app_append s1 : ∀ s2, String.rev_app s1 s2 = String.rev s1 +:+ s2.
Proof.
  unfold String.rev. induction s1 as [|c s1 IH]; intros s2; [done|].
  cbn [String.rev_app]. rewrite (IH (String c s2)), (IH (String c "")).
  by rewrite append_assoc.
Qed.

(** A string without [/] is one piece. *)
Lemma split_go_one_piece s : ∀ cur,
  slash_free s → split_go "/" 0 cur s = [String.rev_app cur s].
Proof.
  induction s as [|c s IH]; intros cur Hs; [done|].
  apply slash_free_cons in Hs as [Hc Hs].
  cbn [split_go String.prefix]. destruct (ascii_dec "/" c) as [<-|Hne]; [done|].
  by rewrite IH.
Qed.

(** The last piece of [s.md] is what follows the last [/] of [s], with the
    extension. *)
Lemma split_go_md_last s : ∀ cur,
  slash_free cur →
  ∃ t, List.last (split_go "/" 0 cur (s +:+ ".md")) "" = t +:+ ".md"
       ∧ slash_free t
       ∧ (slash_free s → t = String.rev cur +:+ s).
Proof.
  induction s as [|c s IH]; intros cur Hcur.
  - rewrite append_nil. exists (String.rev cur).
    rewrite split_go_one_piece by done. cbn [List.last].
    split; [apply rev_app_append|]. split; [|by rewrite append_empty_r].
    by apply (slash_free_rev_app cur "").
  - rewrite append_cons. cbn [split_go String.prefix].
    destruct (ascii_dec "/" c) as [<-|Hne].
    + replace (String.prefix "" (s +:+ ".md")) with true by (by destruct s).
      destruct (IH "" ltac:(done)) as (t & Hlast & Ht & _).
      exists t. cbn [String.length Nat.sub].
      destruct (split_go "/" 0 "" (s +:+ ".md")) as [|x xs] eqn:Hx.
      { by apply split_go_nonempty in Hx. }
      split; [exact Hlast|]. split; [done|].
      by intros [? _]%slash_free_cons.
    + destruct (IH (String c cur)) as (t & Hlast & Ht & Hfree).
      { apply slash_free_cons. split; [congruence | done]. }
      exists t. split; [done|]. split; [done|].
      intros [_ Hs]%slash_free_cons. rewrite (Hfree Hs).
      unfold String.rev. cbn [String.rev_app].
      rewrite (rev_app_append cur (String c "")).
      by rewrite append_assoc.
Qed.

Lemma components_md_last s :
  ∃ t, List.last (Path.components (s +:+ ".md")) "" = t +:+ ".md"
       ∧ slash_free t ∧ (slash_free s → t = s).
Proof.
  destruct (split_go_md_last s "" ltac:(done)) as (t & Hlast & Ht & Hs).
  exists t. split; [|by split].
  unfold Path.components, split. rewrite <- Hlast.
  refine (proj2 (last_filter _ _ "" (split_go_nonempty _ _ _ _) _)).
  rewrite Hlast. destruct t as [|a t]; [done|].
  rewrite append_cons. cbn [String.eqb negb andb].
  destruct (Ascii.eqb a "."); [|done]. by destruct t.
Qed.

Lemma rfind_dot_md t : Path.rfind_dot (t +:+ ".md") = Some (String.length t).
Proof.
  induction t as [|c t IH]; [done|].
  rewrite append_cons. cbn [Path.rfind_dot String.length]. by rewrite IH.
Qed.

Lemma substring_append_l s1 s2 : substring 0 (String.length s1) (s1 +:+ s2) = s1.
Proof.
  induction s1 as [|c s1 IH]; [by destruct s2|].
  rewrite append_cons. cbn [String.length substring]. by rewrite IH.
Qed.

Lemma substring_append_r s1 s2 :
  substring (String.length s1) (String.length s2) (s1 +:+ s2) = s2.
Proof.
  induction s1 as [|c s1 IH].
  - rewrite append_nil. rewrite <- (append_empty_r s2) at 2.
    apply (substring_append_l s2 "").
  - rewrite append_cons. cbn [String.length substring]. exact IH.
Qed.

(** The stem and the suffix of a path whose name is [t.md]. *)
Lemma stem_suffix_md self t :
  Path.name self = t +:+ ".md" →
  Path.stem self = (if decide (t = "") then ".md" else t)
  ∧ Path.suffix self = (if decide (t = "") then "" else ".md").
Proof.
  intros Hname. unfold Path.stem, Path.suffix, Path.suffix_start.
  rewrite Hname, rfind_dot_md, length_append.
  destruct t as [|c t].
  - rewrite decide_False by (simpl; lia). by rewrite !decide_True.
  - rewrite decide_True by (simpl; lia). rewrite !decide_False by done.
    split; [apply substring_append_l|].
    replace (_ + _ - _)%nat with (String.length ".md") by (simpl; lia).
    apply substring_append_r.
Qed.

Lemma generated_name_md province name archived :
  ∃ t, Path.name (generate_markdown_path province name archived) = t +:+ ".md"
       ∧ slash_free t ∧ (slash_free name → t = name).
Proof.
  unfold generate_markdown_path. rewrite joinpath_md_name.
  apply components_md_last.
Qed.

Lemma substring_all s : substring 0 (String.length s) s = s.
Proof. induction s as [|c s IH]; [done|]. simpl. by rewrite IH. Qed.

Lemma substring_split s : ∀ i,
  (i ≤ String.length s)%nat →
  substring 0 i s +:+ substring i (String.length s - i) s = s.
Proof.
  induction s as [|c s IH]; intros [|i] Hi; simpl in Hi; try lia.
  - done.
  - cbn [substring String.length Nat.sub]. by rewrite append_nil, substring_all.
  - cbn [substring String.length Nat.sub]. rewrite append_cons, IH by lia. done.
Qed.

(** The name of a path is its stem followed by its suffix. *)
Lemma stem_suffix_name self : Path.stem self +:+ Path.suffix self = Path.name self.
Proof.
  unfold Path.stem, Path.suffix, Path.suffix_start.
  destruct (Path.rfind_dot (Path.name self)) as [i|]; [|apply append_empty_r].
  case_decide as Hi; [|apply append_empty_r].
  apply substring_split. lia.
Qed.

(** ** Tasks *)

Section tasks.
Variable slugify : string → string.

Lemma prepare_task_spec colleges archived name uni st fm :
  let g := generated_for colleges archived name in
  ∃ slug fm' target,
    FilenameMap.__getitem__ slugify name fm = (Ok slug, fm')
    ∧ prepare_task slugify colleges archived (name, uni) (st, fm)
      = (Ok (mk_task name uni slug target),
         (add_stdout (illegal_log colleges archived name) st, fm'))
    ∧ sanitized_target g target
    ∧ ((sanitize_filename (Path.stem g)).2 = false → target = g).
Proof.
  intros g.
  destruct (getitem_returns slugify name fm) as (slug & fm' & Hslug).
  unfold prepare_task, illegal_log. fold (generated_for colleges archived name).
  fold g.
  erewrite bind_ok; [|unfold on_filename_map; simpl; by rewrite Hslug].
  destruct (with_stem_sanitized (find_province name colleges) name archived)
    as [target' Hstem].
  fold (generated_for colleges archived name) in Hstem. fold g in Hstem.
  destruct (sanitize_filename (Path.stem g)) as [target_name is_illegal] eqn:Hclean.
  simpl in Hstem. cbn [fst snd]. destruct is_illegal.
  - exists slug, fm', target'. split; [done|]. split.
    { unfold mbind, M_bind, on_state, print, modify, lift_outcome; simpl.
      by rewrite Hstem. }
    split; [|done].
    unfold Path.with_stem, Path.with_name in Hstem.
    case_decide; [done|]. injection Hstem as <-.
    unfold sanitized_target, Path.parent, Path.name. cbn [Path.absolute Path.parts].
    rewrite Hclean. cbn [fst]. split; [done|]. split.
    + by rewrite removelast_last.
    + by rewrite last_last.
  - exists slug, fm', g. rewrite add_stdout_nil. split; [done|].
    split; [done|]. split; [|done].
    unfold sanitized_target. rewrite Hclean. cbn [fst].
    split; [done|]. split; [done|].
    assert (target_name = Path.stem g) as ->.
    { pose proof (sanitize_filename_flag (Path.stem g)) as Hflag.
      rewrite Hclean in Hflag. cbn [snd] in Hflag.
      apply proj1 in Hflag. specialize (Hflag eq_refl).
      apply sanitized_fixed in Hflag. unfold sanitize_filename in Hclean.
      congruence. }
    symmetry. apply stem_suffix_name.
Qed.

Lemma prepare_tasks_loop_spec colleges archived items : ∀ st fm,
  ∃ tasks fm',
    for_append items (prepare_task slugify colleges archived) (st, fm)
    = (Ok tasks,
       (add_stdout (concat (illegal_log colleges archived <$> items.*1)) st, fm'))
    ∧ for_append items.*1 (FilenameMap.__getitem__ slugify) fm
      = (Ok (task_slug <$> tasks), fm')
    ∧ Forall2 (λ item t,
         task_name t = item.1 ∧ task_uni t = item.2
         ∧ sanitized_target (generated_for colleges archived item.1) (task_target t)
         ∧ ((sanitize_filename
               (Path.stem (generated_for colleges archived item.1))).2 = false →
            task_target t = generated_for colleges archived item.1))
        items tasks.
Proof.
  induction items as [|[name uni] items IH]; intros st fm.
  - exists [], fm. simpl. rewrite add_stdout_nil. by repeat split.
  - destruct (prepare_task_spec colleges archived name uni st fm)
      as (slug & fm1 & target & Hslug & Hhead & Htarget & Hsame).
    destruct (IH (add_stdout (illegal_log colleges archived name) st) fm1)
      as (tasks & fm2 & Htail & Hslugs & Hall).
    exists (mk_task name uni slug target :: tasks), fm2. split; [|split].
    + cbn [for_append]. erewrite bind_ok; [|exact Hhead].
      erewrite bind_ok; [|exact Htail].
      rewrite add_stdout_app. by rewrite !fmap_cons.
    + rewrite !fmap_cons. cbn [for_append fst].
      erewrite bind_ok; [|exact Hslug]. erewrite bind_ok; [|exact Hslugs]. done.
    + constructor; [|done]. by split_and!.
Qed.
End tasks.

Lemma free_of_md : free_of illegal_pattern ".md".
Proof. by vm_compute. Qed.

(** The file name the pipeline ends with holds no illegal character. *)
Lemma sanitized_target_legal province name archived target :
  sanitized_target (generate_markdown_path province name archived) target →
  free_of illegal_pattern (Path.name target).
Proof.
  intros (_ & _ & ->).
  destruct (generated_name_md province name archived) as (t & Hname & _ & _).
  destruct (stem_suffix_md _ t Hname) as [_ ->].
  apply free_of_app; [apply illegal_pattern_bytes|].
  split; [apply sanitized_free|]. case_decide; [|apply free_of_md].
  apply free_of_nil, illegal_pattern_bytes.
Qed.

Lemma length_illegal_log colleges archived names :
  length (concat (illegal_log colleges archived <$> names))
  = length (List.filter (illegal_stem colleges archived) names).
Proof.
  induction names as [|name names IH]; [done|].
  rewrite fmap_cons. cbn [concat List.filter]. rewrite length_app, IH.
  unfold illegal_log, illegal_stem.
  by destruct (sanitize_filename _).2.
Qed.

Lemma illegal_log_errors colleges archived names :
  Forall (λ m, is_illegal_error m = true)
         (concat (illegal_log colleges archived <$> names)).
Proof.
  induction names as [|name names IH]; [constructor|].
  rewrite fmap_cons. cbn [concat]. apply Forall_app. split; [|done].
  unfold illegal_log. destruct (sanitize_filename _).2; by repeat constructor.
Qed.

(** Counting the entries of a registry by their keys. *)
Lemma size_filter_keys (f : string → bool) (d : gmap string nat) :
  size (filter (λ entry : string * nat, f entry.1 = true) d)
  = length (List.filter f (keys d)).
Proof.
  rewrite map_filter_alt, <- length_map_to_list.
  rewrite map_to_list_to_map.
  2:{ eapply sublist_NoDup;
        [apply (NoDup_keys d) | unfold keys; apply fmap_sublist, sublist_filter]. }
  unfold keys. induction (map_to_list d) as [|[k v] l IH]; [done|].
  rewrite filter_cons, fmap_cons. cbn [List.filter fst]. case_decide as Hk.
  - cbn [fst] in Hk. rewrite Hk. simpl. by rewrite IH.
  - cbn [fst] in Hk. apply not_true_is_false in Hk. by rewrite Hk.
Qed.

(** X6. The render pipeline prepares exactly one task for each entry of the
    registry, and the target of each lies in the directory of the path
    generated for the name, under the generated file name with each illegal
    character of its stem replaced by [_]: the file name written never
    holds a backslash, a slash, a colon, a star, a question mark, a double
    quote, an angle bracket, a bar or a NUL.  The target is the generated
    path itself when the stem held none of them.  What the pipeline prints
    are reports of illegal file names only, as many as there are entries
    whose stem held an illegal character; and for such an entry whose
    province and name do not start with [/], the report of its generated
    path is among them. *)
Theorem task_targets_are_sanitized
    (slugify : string → string) (dict : dict_ref)
    (colleges : list (string * string)) (archived : bool)
    (st : state) (fm : FilenameMap.t) :
  ∃ tasks log fm',
    prepare_tasks slugify dict colleges archived (st, fm)
    = (Ok tasks, (add_stdout log st, fm'))
    ∧ (∀ name uni,
         get_dict dict st !! name = Some uni
         ↔ ∃ t, t ∈ tasks ∧ task_name t = name ∧ task_uni t = uni)
    ∧ length tasks = size (get_dict dict st)
    ∧ (∀ t, t ∈ tasks →
         let g := generated_for colleges archived (task_name t) in
         sanitized_target g (task_target t)
         ∧ free_of illegal_pattern (Path.name (task_target t))
         ∧ (free_of illegal_pattern (Path.stem g) → task_target t = g))
    ∧ Forall (λ m, is_illegal_error m = true) log
    ∧ length log
      = size (filter (λ entry : string * loc,
                        illegal_stem colleges archived entry.1 = true)
                     (get_dict dict st))
    ∧ (∀ name uni,
         get_dict dict st !! name = Some uni →
         String.prefix "/" name = false →
         String.prefix "/" (find_province name colleges) = false →
         illegal_stem colleges archived name = true →
         error_illegal_filename
           (Path.__str__ (generated_for colleges archived name)) ∈ log).
Proof.
  destruct (prepare_tasks_loop_spec slugify colleges archived
              (map_to_list (get_dict dict st)) st fm)
    as (tasks & fm' & Hrun & _ & Hall).
  exists tasks. eexists. exists fm'. split.
  { unfold prepare_tasks. erewrite bind_ok; [|reflexivity]. exact Hrun. }
  split_and!.
  - intros name uni. rewrite <- elem_of_map_to_list. split.
    + intros (i & Hi)%list_elem_of_lookup.
      destruct (Forall2_lookup_l _ _ _ _ _ Hall Hi)
        as (t & Ht & Hname & Huni & _).
      exists t. split; [by eapply list_elem_of_lookup_2 | done].
    + intros (t & (i & Hi)%list_elem_of_lookup & <- & <-).
      destruct (Forall2_lookup_r _ _ _ _ _ Hall Hi)
        as ([name uni'] & Hitem & Hname & Huni & _).
      cbn [fst snd] in *. rewrite Hname, Huni.
      by eapply list_elem_of_lookup_2.
  - rewrite <- (Forall2_length _ _ _ Hall). by rewrite length_map_to_list.
  - intros t Ht g.
    apply list_elem_of_lookup in Ht as [i Hi].
    destruct (Forall2_lookup_r _ _ _ _ _ Hall Hi)
      as ([name uni] & Hitem & Hname & Huni & Htarget & Hsame).
    cbn [fst snd] in *. subst g. rewrite Hname.
    split; [done|]. split; [by eapply sanitized_target_legal|].
    intros Hfree. by apply Hsame, sanitize_filename_flag.
  - apply illegal_log_errors.
  - rewrite size_filter_keys. apply length_illegal_log.
  - intros name uni Hname _ _ Hillegal.
    apply elem_of_map_to_list in Hname.
    apply list_elem_of_In, in_concat.
    exists (illegal_log colleges archived name). split.
    + apply list_elem_of_In, list_elem_of_fmap. exists name. split; [done|].
      apply list_elem_of_fmap. by exists (name, uni).
    + unfold illegal_log. unfold illegal_stem in Hillegal. rewrite Hillegal.
      by left.
Qed.














(** ** Slugs of the tasks *)

Lemma Forall2_NoDup {A B} (R : A → B → Prop) (xs : list A) (ys : list B) :
  (∀ x x' y, x ∈ xs → x' ∈ xs → R x y → R x' y → x = x') →
  Forall2 R xs ys → NoDup xs → NoDup ys.
Proof.
  intros Hinj Hall. induction Hall as [|x y xs ys Hxy Hall IH]; [constructor|].
  intros [Hx Hxs]%NoDup_cons. apply NoDup_cons. split.
  - intros (i & Hi)%list_elem_of_lookup.
    destruct (Forall2_lookup_r _ _ _ _ _ Hall Hi) as (x' & Hx' & Hx'y).
    apply list_elem_of_lookup_2 in Hx'.
    assert (x = x') as ->; [|done].
    apply (Hinj x x' y); [left | by right | done | done].
  - apply IH; [|done]. intros x1 x2 y' H1 H2. apply Hinj; by right.
Qed.

(** What a run of the first loop of the pipeline gives, on a consistent
    map. *)
Lemma prepare_tasks_spec slugify dict colleges archived st fm :
  consistent fm →
  ∃ tasks fm',
    prepare_tasks slugify dict colleges archived (st, fm)
    = (Ok tasks,
       (add_stdout (concat (illegal_log colleges archived <$> keys (get_dict dict st)))
                   st, fm'))
    ∧ (λ t, (task_name t, task_uni t)) <$> tasks = map_to_list (get_dict dict st)
    ∧ NoDup (task_slug <$> tasks)
    ∧ (∀ t, t ∈ tasks →
         FilenameMap.mapping fm' !! task_name t = Some (task_slug t))
    ∧ FilenameMap.mapping fm ⊆ FilenameMap.mapping fm'
    ∧ consistent fm'.
Proof.
  intros Hfm.
  destruct (prepare_tasks_loop_spec slugify colleges archived
              (map_to_list (get_dict dict st)) st fm)
    as (tasks & fm' & Hrun & Hslugs & Hall).
  destruct (lookups_consistent slugify (map_to_list (get_dict dict st)).*1 fm Hfm)
    as (slugs & fm'' & Hlookups & Hmapping & Hsub & Hfm').
  rewrite Hslugs in Hlookups. injection Hlookups as <- <-.
  exists tasks, fm'. split.
  { unfold prepare_tasks. erewrite bind_ok; [|reflexivity]. exact Hrun. }
  split_and!; [| | |done|done].
  - clear -Hall. induction Hall as [|[name uni] t items tasks (Hname & Huni & _) _ IH];
      [done|]. rewrite fmap_cons, IH. cbn [fst snd] in *. by rewrite Hname, Huni.
  - eapply Forall2_NoDup; [|exact Hmapping|apply NoDup_keys].
    intros name1 name2 slug _ _ H1 H2. destruct Hfm' as [_ Hinj].
    by apply (Hinj name1 name2 slug).
  - intros t (i & Hi)%list_elem_of_lookup.
    destruct (Forall2_lookup_r _ _ _ _ _ Hall Hi) as (item & Hitem & Hname & _).
    rewrite Hname.
    eapply (Forall2_lookup_lr _ _ _ i _ _ Hmapping).
    + by rewrite list_lookup_fmap, Hitem.
    + by rewrite list_lookup_fmap, Hi.
Qed.

(** X9. The slugs of the tasks of one run of the pipeline are pairwise
    distinct, whatever the [FilenameMap] it was passed holds, as long as that
    map is consistent (a new one is): each task carries the slug the map
    holds for its name afterwards, the map stays consistent, and what it
    held before is kept. *)
Theorem task_slugs_are_distinct
    (slugify : string → string) (dict : dict_ref)
    (colleges : list (string * string)) (archived : bool)
    (st : state) (fm : FilenameMap.t) (Hfm : consistent fm) :
  ∃ tasks st' fm',
    prepare_tasks slugify dict colleges archived (st, fm) = (Ok tasks, (st', fm'))
    ∧ NoDup (task_slug <$> tasks)
    ∧ (∀ t, t ∈ tasks →
         FilenameMap.mapping fm' !! task_name t = Some (task_slug t))
    ∧ (∀ t1 t2, t1 ∈ tasks → t2 ∈ tasks →
         task_slug t1 = task_slug t2 → task_name t1 = task_name t2)
    ∧ FilenameMap.mapping fm ⊆ FilenameMap.mapping fm'
    ∧ consistent fm'.
Proof.
  destruct (prepare_tasks_spec slugify dict colleges archived st fm Hfm)
    as (tasks & fm' & Hrun & _ & Hnodup & Hslug & Hsub & Hfm').
  eexists tasks, _, fm'. split; [exact Hrun|].
  split; [done|]. split; [done|]. split; [|done].
  intros t1 t2 Ht1%Hslug Ht2%Hslug Heq. destruct Hfm' as [_ Hinj].
  apply (Hinj _ _ (task_slug t1)); [done | by rewrite Heq].
Qed.

Lemma task_slugs_are_distinct_witness :
  ∃ tasks st' fm',
    prepare_tasks id the_universities [] false (example_state, FilenameMap.new)
    = (Ok tasks, (st', fm'))
    ∧ NoDup (task_slug <$> tasks).
Proof.
  destruct (task_slugs_are_distinct id the_universities [] false example_state
              FilenameMap.new (new_consistent))
    as (tasks & st' & fm' & Hrun & Hnodup & _).
  exists tasks, st', fm'. split; [exact Hrun | exact Hnodup].
Defined.

(** X10. The loop of [FilenameMap.__getitem__] ends with the first
    candidate that is not in use: a name that is already mapped gets its
    slug back and the map is unchanged; a new name gets the base slug when
    it is free, and otherwise [base-k] for the least [k] from 2 on that is
    free, every earlier candidate being in use. *)
Theorem getitem_takes_first_free_candidate
    (slugify : string → string) (name : string) (fm : FilenameMap.t) :
  match FilenameMap.mapping fm !! name with
  | Some slug => FilenameMap.__getitem__ slugify name fm = (Ok slug, fm)
  | None =>
      let base := slugify (re_sub FILENAME_PREPROCESS "" name) in
      ∃ k, (1 ≤ k)
        ∧ FilenameMap.__getitem__ slugify name fm
          = (Ok (slug_candidate base k),
             FilenameMap.mk (<[name := slug_candidate base k]> (FilenameMap.mapping fm))
                            ({[slug_candidate base k]} ∪ FilenameMap.used fm))
        ∧ (slug_candidate base k ∉ FilenameMap.used fm)
        ∧ ∀ j, 1 ≤ j < k → slug_candidate base j ∈ FilenameMap.used fm
  end.
Proof.
  unfold FilenameMap.__getitem__.
  destruct (FilenameMap.mapping fm !! name) as [slug|]; [done|].
  cbv zeta. set (base := slugify _). set (X := FilenameMap.used fm).
  assert (∀ idx slug (acc : Acc (FilenameMap.turn X base) (idx, slug)),
            1 ≤ idx → slug = slug_candidate base idx →
            (∀ j, 1 ≤ j < idx → slug_candidate base j ∈ X) →
            ∃ k, 1 ≤ k
              ∧ FilenameMap.while_used X base idx slug acc = slug_candidate base k
              ∧ (slug_candidate base k ∉ X)
              ∧ ∀ j, 1 ≤ j < k → slug_candidate base j ∈ X) as Hloop.
  { fix FIX 3. intros idx slug [f] Hidx Hslug Hbefore. simpl.
    destruct (decide (slug ∈ X)) as [Hin|Hout].
    - apply FIX; [lia | |].
      + unfold slug_candidate. by rewrite decide_False by lia.
      + intros j Hj. destruct (decide (j = idx)) as [->|Hne]; [by rewrite <- Hslug|].
        apply Hbefore. lia.
    - exists idx. by rewrite <- Hslug. }
  destruct (Hloop 1 base (wf_guard 32 (FilenameMap.turn_wf X base) (1, base)))
    as (k & Hk & Hslug & Hfree & Hbefore); [lia | done | intros j Hj; lia |].
  exists k. unfold FilenameMap.unused_slug. fold X. rewrite Hslug. done.
Qed.

(** ** Aggregates *)

(** X11. [University.add_answer] appends the record at the end of one bin
    and changes nothing else: for an index within [-len, len) it is the bin
    the index names, counting from the end when it is negative; for any
    other index the call raises [IndexError] and the aggregate is as
    before. *)
Theorem add_answer_appends_to_one_bin
    (u : University.t) (index : Z) (answer : IndexedContent.t) :
  let n := Z.of_nat (length (University.answers u)) in
  (- n ≤ index < n →
     ∃ u', University.add_answer index answer u = (Ok tt, u')
       ∧ bin u' (Z.to_nat (index `mod` n)) = bin u (Z.to_nat (index `mod` n)) ++ [answer]
       ∧ (∀ i, i ≠ Z.to_nat (index `mod` n) → bin u' i = bin u i)
       ∧ length (University.answers u') = length (University.answers u)
       ∧ University.additional_answers u' = University.additional_answers u
       ∧ University.credits u' = University.credits u)
  ∧ (¬ (- n ≤ index < n) →
     University.add_answer index answer u = (Raise IndexError, u)).
Proof.
  intros n. unfold University.add_answer, py_index. fold n. split.
  - intros Hindex.
    assert (∃ k, (if (0 <=? index) && (index <? n) then Some (Z.to_nat index)
                  else if (- n <=? index) && (index <? 0)
                       then Some (Z.to_nat (n + index)) else None) = Some k
                 ∧ k = Z.to_nat (index `mod` n)
                 ∧ (k < length (University.answers u))%nat) as (k & -> & Hk & Hlt).
    { destruct (decide (0 ≤ index)) as [Hpos|Hneg].
      - exists (Z.to_nat index).
        replace (0 <=? index) with true by (symmetry; apply Z.leb_le; lia).
        replace (index <? n) with true by (symmetry; apply Z.ltb_lt; lia).
        rewrite Z.mod_small by lia. split; [done|]. split; [done|]. lia.
      - exists (Z.to_nat (n + index)).
        replace (0 <=? index) with false by (symmetry; apply Z.leb_gt; lia).
        replace (- n <=? index) with true by (symmetry; apply Z.leb_le; lia).
        replace (index <? 0) with true by (symmetry; apply Z.ltb_lt; lia).
        split; [done|]. split; [|lia]. f_equal.
        apply (Z.mod_unique index n (-1)); lia. }
    rewrite <- Hk. eexists. split; [done|].
    unfold bin, University.set_answers. cbn [University.answers
      University.additional_answers University.credits].
    split_and!; [| |by rewrite length_alter|done|done].
    + rewrite list_lookup_alter_eq.
      destruct (lookup_lt_is_Some_2 _ _ Hlt) as [b ->]. done.
    + intros i Hi. by rewrite list_lookup_alter_ne.
  - intros Hindex.
    replace ((0 <=? index) && (index <? n)) with false
      by (symmetry; apply andb_false_iff;
          rewrite Z.leb_gt, Z.ltb_ge; lia).
    replace ((- n <=? index) && (index <? 0)) with false
      by (symmetry; apply andb_false_iff;
          rewrite Z.leb_gt, Z.ltb_ge; lia).
    done.
Qed.

(** ** Recording a row *)

Lemma call_run {A} (l : loc) (method : M University.t A) st u :
  objects st !! l = Some u →
  call l method st
  = ((method u).1, set_objects (<[l := (method u).2]> (objects st)) st).
Proof. intros Hu. unfold call. rewrite Hu. by destruct (method u). Qed.

Lemma set_objects_id st : set_objects (objects st) st = st.
Proof. by destruct st. Qed.

Lemma set_objects_set_objects os1 os2 st :
  set_objects os2 (set_objects os1 st) = set_objects os2 st.
Proof. done. Qed.

Lemma set_answers_id u : University.set_answers (University.answers u) u = u.
Proof. by destruct u. Qed.

Lemma item_from_end {St} (row : list string) (k : nat) x (s : St) :
  (0 < k ≤ length row)%nat → row !! (length row - k)%nat = Some x →
  item row (- Z.of_nat k) s = (Ok x, s).
Proof.
  intros Hk Hx. unfold item, py_index.
  replace (0 <=? - Z.of_nat k) with false by (symmetry; apply Z.leb_gt; lia).
  replace (- Z.of_nat (length row) <=? - Z.of_nat k) with true
    by (symmetry; apply Z.leb_le; lia).
  replace (- Z.of_nat k <? 0) with true by (symmetry; apply Z.ltb_lt; lia).
  cbn [andb].
  replace (Z.to_nat (Z.of_nat (length row) + - Z.of_nat k))
    with (length row - k)%nat by lia.
  by rewrite Hx.
Qed.

Lemma add_row_length n answers : ∀ bins,
  length (add_row n answers bins) = length bins.
Proof.
  induction answers as [|ans rest IH]; intros [|b bs]; simpl; try done.
  by rewrite IH.
Qed.

Lemma bin_add_row n answers : ∀ bins i,
  (length answers ≤ length bins)%nat →
  from_option AnswerGroup.answers [] (add_row n answers bins !! i)
  = from_option AnswerGroup.answers [] (bins !! i)
    ++ from_option (λ ans, [IndexedContent.mk n ans]) [] (answers !! i).
Proof.
  induction answers as [|ans rest IH]; intros bins i Hlen.
  - destruct bins; simpl; by rewrite ?app_nil_r.
  - destruct bins as [|b bs]; [simpl in Hlen; lia|].
    destruct i as [|i]; [done|]. simpl. apply IH. simpl in Hlen. lia.
Qed.

Section record_row.
Variables (int_of : string → option Z) (l : loc) (aid : string) (n : Z).
Hypothesis Haid : int_of aid = Some n.

(** The loop over the answers: each answer is added to its bin, and the
    first answer beyond the last bin raises [IndexError]. *)
Lemma add_answers_run answers : ∀ pre bins u st,
  objects st !! l = Some u →
  University.answers u = pre ++ bins →
  add_answers int_of l aid (Z.of_nat (length pre)) answers st
  = (if decide (length answers ≤ length bins)%nat then Ok tt else Raise IndexError,
     set_objects
       (<[l := University.set_answers (pre ++ add_row n answers bins) u]> (objects st))
       st).
Proof.
  induction answers as [|ans rest IH]; intros pre bins u st Hu Hbins.
  - cbn [add_answers add_row]. rewrite decide_True by (simpl; lia).
    rewrite <- Hbins, set_answers_id, list_insert_id, set_objects_id by done. done.
  - cbn [add_answers]. unfold or_value_error at 1. rewrite Haid.
    erewrite bind_ok; [|reflexivity].
    unfold mbind at 1, M_bind at 1. rewrite (call_run _ _ _ u Hu).
    unfold University.add_answer, py_index. rewrite Hbins, length_app.
    destruct bins as [|b bs].
    + replace ((0 <=? Z.of_nat (length pre))
               && (Z.of_nat (length pre) <? Z.of_nat (length pre + length [])))
        with false by (symmetry; apply andb_false_iff; right; apply Z.ltb_ge;
                       simpl; lia).
      replace ((- Z.of_nat (length pre + length (@nil AnswerGroup.t))
                <=? Z.of_nat (length pre))
               && (Z.of_nat (length pre) <? 0))
        with false by (symmetry; apply andb_false_iff; right; apply Z.ltb_ge; lia).
      cbn [fst snd]. rewrite decide_False by (simpl; lia).
      cbn [add_row]. rewrite <- Hbins, set_answers_id. by rewrite list_insert_id.
    + replace ((0 <=? Z.of_nat (length pre))
               && (Z.of_nat (length pre) <? Z.of_nat (length pre + length (b :: bs))))
        with true by (symmetry; apply andb_true_iff; split;
                      [apply Z.leb_le | apply Z.ltb_lt]; simpl; lia).
      cbn [fst snd]. rewrite Nat2Z.id.
      replace (alter (AnswerGroup.add_answer (IndexedContent.mk n ans)) (length pre)
                 (pre ++ b :: bs))
        with ((pre ++ [AnswerGroup.add_answer (IndexedContent.mk n ans) b]) ++ bs).
      2:{ rewrite <- (Nat.add_0_r (length pre)), alter_app_r. cbn.
          by rewrite <- app_assoc. }
      set (b' := AnswerGroup.add_answer (IndexedContent.mk n ans) b).
      set (u1 := University.set_answers ((pre ++ [b']) ++ bs) u).
      replace (Z.of_nat (length pre) + 1) with (Z.of_nat (length (pre ++ [b'])))
        by (rewrite length_app; simpl; lia).
      rewrite (IH (pre ++ [b']) bs u1); [| |done].
      2:{ cbn [objects set_objects]. apply list_lookup_insert_eq.
          by eapply lookup_lt_Some. }
      cbn [objects set_objects]. rewrite set_objects_set_objects.
      rewrite list_insert_insert_eq. cbn [add_row length]. fold b'.
      rewrite <- app_assoc. cbn [app].
      replace (University.set_answers (pre ++ b' :: add_row n rest bs) u1)
        with (University.set_answers (pre ++ b' :: add_row n rest bs) u) by done.
      destruct (decide (length rest ≤ length bs)%nat);
        [rewrite decide_True by lia | rewrite decide_False by lia]; done.
Qed.

(** The three steps that record a row in the aggregate at [l]. *)
Lemma record_row_run credit answers text u st :
  objects st !! l = Some u →
  (call l (University.add_credit (IndexedContent.mk n credit));;
   add_answers int_of l aid 0 answers;;
   call l (University.add_additional_answer (IndexedContent.mk n text))) st
  = if decide (length answers ≤ length (University.answers u))%nat
    then (Ok tt,
          set_objects (<[l := loaded_aggregate n credit answers text u]> (objects st)) st)
    else (Raise IndexError,
          set_objects
            (<[l := University.mk (add_row n answers (University.answers u))
                      (University.additional_answers u)
                      (University.credits u ++ [IndexedContent.mk n credit])]>
               (objects st)) st).
Proof.
  intros Hu. pose proof (lookup_lt_Some _ _ _ Hu) as Hl.
  unfold mbind at 1, M_bind at 1. rewrite (call_run _ _ _ u Hu).
  cbn [University.add_credit fst snd].
  set (u1 := University.mk _ _ _).
  unfold mbind at 1, M_bind at 1.
  rewrite (add_answers_run answers [] (University.answers u) u1);
    [|cbn [objects set_objects]; by apply list_lookup_insert_eq | done].
  cbn [objects set_objects app]. rewrite set_objects_set_objects, list_insert_insert_eq.
  destruct (decide (length answers ≤ length (University.answers u))%nat); [|done].
  rewrite call_run with (u := University.set_answers
                                 (add_row n answers (University.answers u)) u1)
    by (cbn [objects set_objects]; by apply list_lookup_insert_eq).
  cbn [objects set_objects]. rewrite set_objects_set_objects, list_insert_insert_eq.
  unfold University.add_additional_answer, loaded_aggregate.
  cbn [IndexedContent.content].
  destruct (decide (text = "")); cbn [fst snd]; [|done].
  by rewrite app_nil_r.
Qed.
End record_row.

Lemma set_objects_with_store dict d os os' st :
  set_objects os' (with_store dict d os st) = with_store dict d os' st.
Proof. by destruct dict. Qed.

Lemma objects_with_store dict d os st : objects (with_store dict d os st) = os.
Proof. by destruct dict. Qed.

Section load_run.
Variables (int_of : string → option Z)
          (float_is_one : string → option bool)
          (zhconv_convert : string → string)
          (strip : string → string)
          (strptime : string → option datetime)
          (year_month : datetime → string).

Variables (dict : dict_ref) (row : list string) (st : state).
Variables (aid skipped anonymous email show_email name : string)
          (answers : list string) (text stamp : string)
          (n a : Z) (b : bool) (t : datetime).
Hypothesis Hrow : but_last_nine row
                  = aid :: skipped :: anonymous :: email :: show_email :: name :: answers.
Hypothesis Htext : row !! (length row - 9)%nat = Some text.
Hypothesis Hstamp : row !! (length row - 8)%nat = Some stamp.
Hypothesis Haid : int_of aid = Some n.
Hypothesis Hanonymous : int_of anonymous = Some a.
Hypothesis Hshow : a ≠ 2 → float_is_one show_email = Some b.
Hypothesis Htime : strptime stamp = Some t.
Hypothesis Hstore : ∀ l, get_dict dict st !! normalize_name zhconv_convert strip name = Some l →
                         is_Some (objects st !! l).

Lemma row_length : (15 ≤ length row)%nat.
Proof using Hrow.
  clear -Hrow. apply (f_equal length) in Hrow. unfold but_last_nine in Hrow.
  rewrite length_take in Hrow. simpl in Hrow. lia.
Qed.

Lemma load_run :
  let key := normalize_name zhconv_convert strip name in
  let credit := credit_line year_month a b email t in
  let l := default (length (objects st)) (get_dict dict st !! key) in
  let u := default University.new (objects st !! l) in
  let os := match get_dict dict st !! key with
            | Some _ => objects st
            | None => objects st ++ [University.new]
            end in
  load_to_universities int_of float_is_one zhconv_convert strip strptime
    year_month dict row st
  = if decide (length answers ≤ length (University.answers u))%nat
    then (Ok tt,
          with_store dict (<[key := l]> (get_dict dict st))
            (<[l := loaded_aggregate n credit answers text u]> os) st)
    else (Raise IndexError,
          with_store dict (<[key := l]> (get_dict dict st))
            (<[l := University.mk (add_row n answers (University.answers u))
                      (University.additional_answers u)
                      (University.credits u ++ [IndexedContent.mk n credit])]> os)
            st).
Proof using All.
  intros key credit l u os. pose proof row_length as Hlen.
  unfold load_to_universities. rewrite Hrow.
  unfold or_value_error. rewrite Haid, Hanonymous.
  erewrite bind_ok; [|reflexivity].
  erewrite bind_ok; [|by apply (item_from_end row 9); [lia|]].
  erewrite bind_ok; [|reflexivity].
  erewrite (bind_ok _ _ _ (bool_decide (a ≠ 2) && b)).
  2:{ case_bool_decide as Ha.
      - subst a. by rewrite bool_decide_false by (intros ?; done).
      - rewrite bool_decide_true by done. by rewrite (Hshow Ha). }
  fold key.
  assert (getitem_default dict key st
          = (Ok l, with_store dict (<[key := l]> (get_dict dict st)) os st)
          ∧ os !! l = Some u) as [Hget Hu].
  { unfold getitem_default, u, os, l.
    destruct (get_dict dict st !! key) as [l'|] eqn:Hkey;
      cbn [default from_option id].
    - destruct (Hstore l' Hkey) as [u' Hu']. rewrite Hu'.
      cbn [default from_option id].
      split; [|done]. by rewrite insert_id, with_store_id.
    - rewrite (lookup_ge_None_2 (objects st) (length (objects st))) by lia.
      cbn [default from_option id]. split; [done|].
      rewrite lookup_app_r, Nat.sub_diag by lia. done. }
  erewrite bind_ok; [|exact Hget].
  erewrite bind_ok; [|by apply (item_from_end row 8); [lia|]].
  rewrite Htime. erewrite bind_ok; [|reflexivity].
  erewrite bind_ok; [|reflexivity].
  replace (if bool_decide (a ≠ 2) && b && negb (email =? "")%string
           then email +:+ " (" +:+ year_month t +:+ ")"
           else "匿名 (" +:+ year_month t +:+ ")")
    with credit.
  2:{ unfold credit, credit_line.
      by destruct (bool_decide (a ≠ 2) && b && negb (email =? "")%string). }
  rewrite (record_row_run int_of l aid n Haid credit answers text u)
    by by rewrite objects_with_store.
  by rewrite objects_with_store, !set_objects_with_store.
Qed.
End load_run.

Lemma new_bins : length (University.answers University.new) = length QUESTIONNAIRE.
Proof.
  unfold University.new, University.answers. by rewrite length_map, length_seq.
Qed.

(** The aggregate a name refers to, or a new one, has one bin per
    question, and its location is one of the store. *)
Lemma default_aggregate_bins dict st key :
  well_formed dict st →
  let l := default (length (objects st)) (get_dict dict st !! key) in
  let os := match get_dict dict st !! key with
            | Some _ => objects st
            | None => objects st ++ [University.new]
            end in
  length (University.answers (default University.new (objects st !! l)))
  = length QUESTIONNAIRE
  ∧ (∀ l', get_dict dict st !! key = Some l' → is_Some (objects st !! l'))
  ∧ (l < length os)%nat
  ∧ (∀ x l', l' ≠ l → <[l := x]> os !! l' = objects st !! l').
Proof.
  intros [Hstore _] l os. subst l os.
  destruct (get_dict dict st !! key) as [l'|] eqn:Hkey; cbn [default from_option id].
  - destruct (Hstore key l' Hkey) as (u & Hu & Hbins). rewrite Hu.
    split; [done|]. split; [intros ? [= <-]; by eexists|].
    split; [by eapply lookup_lt_Some|].
    intros x l0 Hne. by rewrite list_lookup_insert_ne.
  - rewrite lookup_ge_None_2 by lia. split; [apply new_bins|].
    split; [done|]. split; [rewrite length_app; simpl; lia|].
    intros x l0 Hne. rewrite list_lookup_insert_ne by done.
    destruct (decide (l0 < length (objects st))%nat); [by rewrite lookup_app_l|].
    rewrite !lookup_ge_None_2; [done | lia | rewrite length_app; simpl; lia].
Qed.

(** X12. Loading a well-formed row, with no more answers than there are
    questions, into a well-formed registry returns normally and records the
    row in the aggregate its normalised name refers to, which is a new
    aggregate at a new location when the name is not yet a key: the credit
    goes to the end of the credits, the answer to question [i] to the end of
    bin [i], and the free text, unless it is empty, to the end of the
    supplementary answers, so rows loaded one after the other leave their
    content in the order of the rows.  Every other aggregate, the other
    registry and the output are as before. *)
Theorem load_to_universities_records_the_row
    (int_of : string → option Z) (float_is_one : string → option bool)
    (zhconv_convert strip : string → string)
    (strptime : string → option datetime) (year_month : datetime → string)
    (dict : dict_ref) (row : list string) (st : state)
    (aid skipped anonymous email show_email name : string)
    (answers : list string) (text stamp : string)
    (n a : Z) (b : bool) (t : datetime)
    (Hrow : but_last_nine row
            = aid :: skipped :: anonymous :: email :: show_email :: name :: answers)
    (Htext : row !! (length row - 9)%nat = Some text)
    (Hstamp : row !! (length row - 8)%nat = Some stamp)
    (Haid : int_of aid = Some n)
    (Hanonymous : int_of anonymous = Some a)
    (Hshow : a ≠ 2 → float_is_one show_email = Some b)
    (Htime : strptime stamp = Some t)
    (Hanswers : (length answers ≤ length QUESTIONNAIRE)%nat)
    (Hwf : well_formed dict st) :
  let key := normalize_name zhconv_convert strip name in
  let credit := credit_line year_month a b email t in
  let l := default (length (objects st)) (get_dict dict st !! key) in
  let u := default University.new (objects st !! l) in
  let u' := loaded_aggregate n credit answers text u in
  ∃ st',
    load_to_universities int_of float_is_one zhconv_convert strip strptime
      year_month dict row st = (Ok tt, st')
    ∧ get_dict dict st' = <[key := l]> (get_dict dict st)
    ∧ objects st' !! l = Some u'
    ∧ (∀ i, bin u' i
            = bin u i ++ from_option (λ ans, [IndexedContent.mk n ans]) []
                                     (answers !! i))
    ∧ University.credits u' = University.credits u ++ [IndexedContent.mk n credit]
    ∧ University.additional_answers u'
      = University.additional_answers u
        ++ (if decide (text = "") then [] else [IndexedContent.mk n text])
    ∧ (∀ l', l' ≠ l → objects st' !! l' = objects st !! l')
    ∧ (∀ r, r ≠ dict → get_dict r st' = get_dict r st)
    ∧ stdout st' = stdout st.
Proof.
  intros key credit l u u'.
  destruct (default_aggregate_bins dict st key Hwf)
    as (Hbins & Hstore & Hl & Hothers).
  fold l in Hbins, Hl, Hothers. fold u in Hbins.
  pose proof (load_run int_of float_is_one zhconv_convert strip strptime
                year_month dict row st aid skipped anonymous email show_email
                name answers text stamp n a b t Hrow Htext Hstamp Haid
                Hanonymous Hshow Htime Hstore) as Hrun.
  cbv zeta in Hrun. fold key in Hrun. fold l in Hrun. fold u in Hrun.
  fold credit in Hrun. rewrite decide_True in Hrun by lia.
  eexists. split; [exact Hrun|].
  unfold with_store. rewrite get_set_dict, objects_set_dict, stdout_set_dict.
  cbn [objects set_objects stdout].
  split; [done|]. split; [by apply list_lookup_insert_eq|]. split.
  { intros i. unfold bin, u', loaded_aggregate. cbn [University.answers].
    apply bin_add_row. lia. }
  split; [done|]. split; [done|]. split; [|split; [|done]].
  - intros l' Hl'. by apply Hothers.
  - intros r Hr. rewrite get_set_dict_ne by done. by destruct r.
Qed.

Lemma load_to_universities_records_the_row_witness :
  ∃ st',
    load_to_universities example_int (λ _, Some false) id id example_strptime
      (λ _, "2023 年 01 月") the_universities example_row initial_state
    = (Ok tt, st')
    ∧ objects st' !! 0%nat
      = Some (loaded_aggregate 7 "匿名 (2023 年 01 月)" ["是"; "有"] "补充"
                University.new).
Proof.
  destruct (load_to_universities_records_the_row
              example_int (λ _, Some false) id id example_strptime
              (λ _, "2023 年 01 月") the_universities example_row initial_state
              "7" "1" "2" "" "0" "XX大学" ["是"; "有"] "补充"
              "2023-01-01 00:00:00" 7 2 false archive_cut_2023)
    as (st' & Hrun & _ & Hobject & _);
    [reflexivity | reflexivity | reflexivity | reflexivity | reflexivity
    | done | reflexivity | vm_compute; lia | apply initial_well_formed |].
  exists st'. split; [exact Hrun | exact Hobject].
Defined.

(** X13. Rows the loader rejects.  A row with fewer than fifteen fields
    raises [ValueError] before anything is touched.  A row that is well
    formed but holds more answers than there are questions raises
    [IndexError] after its credit and one answer for each question were
    recorded: the aggregate, new or not, keeps them, the name stays in the
    registry, and the free text is not recorded. *)
Theorem malformed_rows_are_rejected
    (int_of : string → option Z) (float_is_one : string → option bool)
    (zhconv_convert strip : string → string)
    (strptime : string → option datetime) (year_month : datetime → string)
    (dict : dict_ref) (row : list string) (st : state)
    (aid skipped anonymous email show_email name : string)
    (answers : list string) (text stamp : string)
    (n a : Z) (b : bool) (t : datetime)
    (Hrow : but_last_nine row
            = aid :: skipped :: anonymous :: email :: show_email :: name :: answers)
    (Htext : row !! (length row - 9)%nat = Some text)
    (Hstamp : row !! (length row - 8)%nat = Some stamp)
    (Haid : int_of aid = Some n)
    (Hanonymous : int_of anonymous = Some a)
    (Hshow : a ≠ 2 → float_is_one show_email = Some b)
    (Htime : strptime stamp = Some t)
    (Hanswers : (length QUESTIONNAIRE < length answers)%nat)
    (Hwf : well_formed dict st) :
  let load := load_to_universities int_of float_is_one zhconv_convert strip
                strptime year_month in
  let key := normalize_name zhconv_convert strip name in
  let credit := credit_line year_month a b email t in
  let l := default (length (objects st)) (get_dict dict st !! key) in
  let u := default University.new (objects st !! l) in
  (∃ st' u',
     load dict row st = (Raise IndexError, st')
     ∧ get_dict dict st' !! key = Some l
     ∧ objects st' !! l = Some u'
     ∧ (∀ i ans, (i < length QUESTIONNAIRE)%nat → answers !! i = Some ans →
          bin u' i = bin u i ++ [IndexedContent.mk n ans])
     ∧ University.credits u' = University.credits u ++ [IndexedContent.mk n credit]
     ∧ University.additional_answers u' = University.additional_answers u)
  ∧ (∀ short s, (length short < 15)%nat → load dict short s = (Raise ValueError, s)).
Proof.
  intros load key credit l u.
  destruct (default_aggregate_bins dict st key Hwf)
    as (Hbins & Hstore & Hl & Hothers).
  fold l in Hbins, Hl, Hothers. fold u in Hbins. split.
  - pose proof (load_run int_of float_is_one zhconv_convert strip strptime
                  year_month dict row st aid skipped anonymous email show_email
                  name answers text stamp n a b t Hrow Htext Hstamp Haid
                  Hanonymous Hshow Htime Hstore) as Hrun.
    cbv zeta in Hrun. fold key in Hrun. fold l in Hrun. fold u in Hrun.
    fold credit in Hrun. rewrite decide_False in Hrun by lia.
    eexists _, _. split; [exact Hrun|].
    unfold with_store. rewrite get_set_dict, objects_set_dict.
    cbn [objects set_objects].
    split; [by rewrite lookup_insert_eq|].
    split; [by apply list_lookup_insert_eq|].
    split; [|done].
    intros i ans Hi Hans. unfold bin. cbn [University.answers].
    assert (∀ (xs : list string) (bins : list AnswerGroup.t) j x,
              (j < length bins)%nat → xs !! j = Some x →
              from_option AnswerGroup.answers [] (add_row n xs bins !! j)
              = from_option AnswerGroup.answers [] (bins !! j)
                ++ [IndexedContent.mk n x]) as Hbin.
    { induction xs as [|x' xs IH]; intros [|b' bins] j x Hj Hx;
        simpl in Hj; try done; try lia.
      destruct j as [|j]; simpl in *; [by injection Hx as ->|].
      apply IH; [lia | done]. }
    apply Hbin; [lia | done].
  - intros short s Hshort. unfold load, load_to_universities.
    destruct (but_last_nine short) as [|? [|? [|? [|? [|? [|? ?]]]]]] eqn:Hcut;
      try done.
    apply (f_equal length) in Hcut. unfold but_last_nine in Hcut.
    rewrite length_take in Hcut. simpl in Hcut. lia.
Qed.

Lemma malformed_rows_are_rejected_witness :
  ∃ st',
    load_to_universities example_int (λ _, Some false) id id example_strptime
      (λ _, "2023 年 01 月") the_universities example_overlong_row initial_state
    = (Raise IndexError, st')
    ∧ universities st' !! "XX大学" = Some 0%nat.
Proof.
  destruct (malformed_rows_are_rejected
              example_int (λ _, Some false) id id example_strptime
              (λ _, "2023 年 01 月") the_universities example_overlong_row
              initial_state
              "7" "1" "2" "" "0" "XX大学" (replicate (S (length QUESTIONNAIRE)) "是")
              "补充" "2023-01-01 00:00:00" 7 2 false archive_cut_2023)
    as [(st' & u' & Hrun & Hkey & _) _];
    [reflexivity | reflexivity | reflexivity | reflexivity | reflexivity
    | done | reflexivity | vm_compute; lia | apply initial_well_formed |].
  exists st'. split; [exact Hrun | exact Hkey].
Defined.

(** ** Splitting and joining *)

Lemma prefix_append sep : ∀ s,
  String.prefix sep s = true → ∃ rest, s = sep +:+ rest.
Proof.
  induction sep as [|c sep IH]; intros s Hs; [by exists s|].
  destruct s as [|d s]; [done|]. cbn [String.prefix] in Hs.
  destruct (ascii_dec c d) as [->|]; [|done].
  destruct (IH s Hs) as [rest ->]. by exists rest.
Qed.

(** The bytes of a separator that was found are passed over. *)
Lemma split_go_skip sep t : ∀ cur s,
  split_go sep (String.length t) cur (t +:+ s) = split_go sep 0 cur s.
Proof.
  induction t as [|c t IH]; intros cur s; [done|].
  rewrite append_cons. cbn [String.length split_go]. apply IH.
Qed.

Lemma join_cons sep x l :
  l ≠ [] → join sep (x :: l) = x +:+ sep +:+ join sep l.
Proof. by destruct l. Qed.

Lemma join_split_go sep (n : nat) : ∀ s cur,
  sep ≠ "" → (String.length s ≤ n)%nat →
  join sep (split_go sep 0 cur s) = String.rev cur +:+ s.
Proof.
  induction n as [|n IH]; intros s cur Hsep Hn.
  - destruct s; [|simpl in Hn; lia]. cbn [split_go join]. by rewrite append_empty_r.
  - destruct s as [|c s]; [cbn [split_go join]; by rewrite append_empty_r|].
    cbn [split_go]. destruct (String.prefix sep (String c s)) eqn:Hprefix.
    + apply prefix_append in Hprefix as [rest Hrest].
      destruct sep as [|c0 sep]; [done|].
      rewrite append_cons in Hrest. injection Hrest as <- ->.
      cbn [String.length Nat.sub]. rewrite Nat.sub_0_r, split_go_skip.
      rewrite join_cons by apply split_go_nonempty.
      rewrite IH; [|done|].
      * by rewrite append_nil, append_cons.
      * simpl in Hn. rewrite length_append in Hn. lia.
    + rewrite IH; [|done | simpl in Hn; lia].
      unfold String.rev. cbn [String.rev_app].
      rewrite (rev_app_append cur (String c "")). by rewrite append_assoc.
Qed.

Lemma join_split sep s : sep ≠ "" → join sep (split sep s) = s.
Proof.
  intros Hsep. unfold split. by rewrite (join_split_go sep (String.length s)).
Qed.

Lemma rstrip_newline_newlines line :
  ∃ k, line = rstrip_newline line +:+ newlines k
       ∧ (rstrip_newline line = "" → line = newlines k).
Proof.
  induction line as [|c line (k & IH & IHnil)]; [by exists 0%nat|].
  cbn [rstrip_newline]. case_decide as Hc.
  - destruct Hc as [-> Hrest]. exists (S k). rewrite append_nil.
    cbn [newlines]. by rewrite <- (IHnil Hrest).
  - exists k. rewrite append_cons. split; [by rewrite <- IH | done].
Qed.

Lemma rstrip_newline_idemp line :
  rstrip_newline (rstrip_newline line) = rstrip_newline line.
Proof.
  induction line as [|c line IH]; [done|].
  cbn [rstrip_newline]. case_decide as Hc; [done|].
  cbn [rstrip_newline]. rewrite IH. by rewrite decide_False.
Qed.

Lemma prefix_append_true sep s : String.prefix sep (sep +:+ s) = true.
Proof. apply prefix_correct, substring_append_l. Qed.

Lemma append_snoc_inv a : ∀ b x c,
  a +:+ b = x +:+ String c "" → b ≠ "" →
  ∃ b0, b = b0 +:+ String c "" ∧ x = a +:+ b0.
Proof.
  induction a as [|d a IH]; intros b x c Heq Hb.
  - rewrite append_nil in Heq. by exists x.
  - rewrite append_cons in Heq. destruct x as [|e x].
    + rewrite append_nil in Heq. injection Heq as -> Heq.
      destruct a; [by destruct b | done].
    + rewrite append_cons in Heq. injection Heq as -> Heq.
      destruct (IH b x c Heq Hb) as (b0 & -> & ->). by exists b0.
Qed.

(** No piece of a split holds the separator.  While a piece is read, the
    separator starts nowhere in it, even counting what is still to read. *)
Lemma split_go_pieces sep (n : nat) : ∀ s cur,
  sep ≠ "" → (String.length s ≤ n)%nat →
  (∀ a b, String.rev cur = a +:+ b → b ≠ "" →
          String.prefix sep (b +:+ s) = false) →
  Forall (λ piece, ¬ occurs sep piece) (split_go sep 0 cur s).
Proof.
  assert (∀ cur s,
            sep ≠ "" →
            (∀ a b, String.rev cur = a +:+ b → b ≠ "" →
                    String.prefix sep (b +:+ s) = false) →
            ¬ occurs sep (String.rev cur)) as Hpiece.
  { intros cur s Hsep Hcur (before & after & Hocc).
    specialize (Hcur before (sep +:+ after) Hocc).
    rewrite append_assoc, prefix_append_true in Hcur.
    assert (sep +:+ after ≠ "") as Hne by (by destruct sep).
    by specialize (Hcur Hne). }
  induction n as [|n IH]; intros s cur Hsep Hn Hcur.
  - destruct s; [|simpl in Hn; lia]. cbn [split_go].
    constructor; [by eapply Hpiece | constructor].
  - destruct s as [|c s]; [constructor; [by eapply Hpiece | constructor]|].
    cbn [split_go]. destruct (String.prefix sep (String c s)) eqn:Hprefix.
    + constructor; [by eapply Hpiece|].
      apply prefix_append in Hprefix as [rest Hrest].
      destruct sep as [|c0 sep]; [done|].
      rewrite append_cons in Hrest. injection Hrest as <- ->.
      cbn [String.length Nat.sub]. rewrite Nat.sub_0_r, split_go_skip.
      apply IH; [done | |].
      * simpl in Hn. rewrite length_append in Hn. lia.
      * intros a b Hab Hb. by destruct a, b.
    + apply IH; [done | simpl in Hn; lia |].
      intros a b Hab Hb. unfold String.rev in Hab. cbn [String.rev_app] in Hab.
      rewrite (rev_app_append cur (String c "")) in Hab. symmetry in Hab.
      destruct (append_snoc_inv a b _ c Hab Hb) as (b0 & -> & Hcur0).
      rewrite append_assoc, append_cons, append_nil.
      destruct b0 as [|d b0]; [by rewrite append_nil|].
      by apply (Hcur a (String d b0)).
Qed.

Lemma split_pieces sep s :
  sep ≠ "" → Forall (λ piece, ¬ occurs sep piece) (split sep s).
Proof.
  intros Hsep. apply (split_go_pieces sep (String.length s)); [done | done |].
  intros a b Hab Hb. by destruct a, b.
Qed.

(** X14. Reading a line of [alias.txt] loses nothing but the newlines at its
    end: the line is what [rstrip] keeps followed by newlines only, what it
    keeps is stripped already, and the primary name and the aliases the
    split gives, joined again with the separator, are what it keeps.  The
    split always gives a first piece, so the unpacking of the line into a
    name and its aliases never raises, and neither the name nor an alias
    holds the separator.  For every non-empty separator, joining the pieces
    of a split gives the string back and no piece holds the separator. *)
Theorem alias_line_round_trip (dict : dict_ref) (line : string) :
  ∃ name aliases k,
    split "🚮" (rstrip_newline line) = name :: aliases
    ∧ join "🚮" (name :: aliases) = rstrip_newline line
    ∧ line = join "🚮" (name :: aliases) +:+ newlines k
    ∧ rstrip_newline (rstrip_newline line) = rstrip_newline line
    ∧ Forall (λ piece, ¬ occurs "🚮" piece) (name :: aliases)
    ∧ alias_step dict line = alias_line dict name aliases
    ∧ ∀ sep s, sep ≠ "" →
        join sep (split sep s) = s
        ∧ Forall (λ piece, ¬ occurs sep piece) (split sep s).
Proof.
  destruct (split "🚮" (rstrip_newline line)) as [|name aliases] eqn:Hsplit.
  { by apply split_go_nonempty in Hsplit. }
  destruct (rstrip_newline_newlines line) as (k & Hline & _).
  assert (join "🚮" (name :: aliases) = rstrip_newline line) as Hjoin.
  { rewrite <- Hsplit. by apply join_split. }
  exists name, aliases, k. split; [done|]. split; [done|].
  split; [by rewrite Hjoin|]. split; [apply rstrip_newline_idemp|].
  split; [rewrite <- Hsplit; by apply split_pieces|].
  split; [unfold alias_step; by rewrite Hsplit|].
  intros sep s Hsep. split; [by apply join_split | by apply split_pieces].
Qed.

(** ** Dates *)

Lemma datetime_eq a b :
  year a = year b → month a = month b → day a = day b →
  hour a = hour b → minute a = minute b → second a = second b → a = b.
Proof. destruct a, b. simpl. by intros -> -> -> -> -> ->. Qed.

Lemma datetime_ltb_trans a b c :
  datetime_ltb a b = true → datetime_ltb b c = true → datetime_ltb a c = true.
Proof.
  unfold datetime_ltb.
  repeat match goal with
         | |- context [?x =? ?y] => destruct (Z.eqb_spec x y)
         | |- context [?x <? ?y] => destruct (Z.ltb_spec x y)
         end; try done; lia.
Qed.

Lemma datetime_ltb_total a b :
  datetime_ltb a b = false → datetime_ltb b a = false → a = b.
Proof.
  unfold datetime_ltb.
  repeat match goal with
         | |- context [?x =? ?y] => destruct (Z.eqb_spec x y)
         | |- context [?x <? ?y] => destruct (Z.ltb_spec x y)
         end; try done; try lia.
  intros _ _. apply datetime_eq; lia.
Qed.

(** X15. The comparison of two moments is a strict total order, so the
    archive is a cut in time: a row submitted before an archived row is
    archived, a row submitted after an active row is active, and the two
    registries never receive rows of the same moment. *)
Theorem archive_is_a_cut_in_time (cut : datetime) :
  (∀ t, datetime_ltb t t = false)
  ∧ (∀ a b c, datetime_ltb a b = true → datetime_ltb b c = true →
              datetime_ltb a c = true)
  ∧ (∀ a b, datetime_ltb a b = true ∨ a = b ∨ datetime_ltb b a = true)
  ∧ (∀ earlier t, datetime_ltb earlier t = true → datetime_ltb t cut = true →
                  datetime_ltb earlier cut = true)
  ∧ (∀ t later, datetime_ltb t later = true → datetime_ltb t cut = false →
                datetime_ltb later cut = false).
Proof.
  split; [apply datetime_ltb_irrefl|].
  split; [apply datetime_ltb_trans|]. split; [|split].
  - intros a b. destruct (datetime_ltb a b) eqn:Hab; [by left|].
    destruct (datetime_ltb b a) eqn:Hba; [by right; right|].
    right. left. by apply datetime_ltb_total.
  - intros earlier t. apply datetime_ltb_trans.
  - intros t later Hlater Ht.
    destruct (datetime_ltb later cut) eqn:Hcut; [|done].
    by rewrite (datetime_ltb_trans t later cut) in Ht.
Qed.

(** ** Provinces *)

Lemma re_search_occurs key : ∀ name,
  re_search [key] name = true ↔ occurs key name.
Proof.
  induction name as [|c name IH].
  - cbn [re_search existsb]. rewrite !orb_false_r. split.
    + intros [rest Hrest]%prefix_append. by exists "", rest.
    + intros (before & after & Hname).
      destruct before; [|done]. rewrite append_nil in Hname.
      destruct key; [done|done].
  - cbn [re_search existsb]. rewrite orb_false_r, orb_true_iff, IH. split.
    + intros [[rest Hrest]%prefix_append | (before & after & ->)].
      * by exists "", rest.
      * by exists (String c before), after.
    + intros (before & after & Hname). destruct before as [|d before].
      * left. rewrite append_nil in Hname. rewrite Hname.
        apply prefix_correct, substring_append_l.
      * right. rewrite append_cons in Hname. injection Hname as -> ->.
        by exists before, after.
Qed.

Lemma find_province_cases name colleges :
  (find_province name colleges = "其他"
   ∧ ∀ key prov, (key, prov) ∈ colleges → ¬ occurs key name)
  ∨ ∃ i key,
      colleges !! i = Some (key, find_province name colleges)
      ∧ occurs key name
      ∧ ∀ j key' prov', (j < i)%nat → colleges !! j = Some (key', prov') →
          ¬ occurs key' name.
Proof.
  induction colleges as [|[key prov] colleges IH].
  - left. split; [done|]. intros key prov Hin. by apply elem_of_nil in Hin.
  - cbn [find_province]. destruct (re_search [key] name) eqn:Hkey.
    + right. exists 0%nat, key. split; [done|].
      split; [by apply re_search_occurs|]. intros; lia.
    + assert (¬ occurs key name) as Hno.
      { intros Hocc%re_search_occurs. congruence. }
      destruct IH as [[Hother Hnone] | (i & key' & Hi & Hocc & Hbefore)].
      * left. split; [done|]. intros k p [[= -> ->]|Hin]%elem_of_cons; [done|].
        by eapply Hnone.
      * right. exists (S i), key'. split; [done|]. split; [done|].
        intros [|j] k p Hj Hlookup; [by injection Hlookup as -> ->|].
        eapply (Hbefore j); [lia | done].
Qed.

(** X16. [find_province] returns the province of the first key of the
    table, in the order of the table, that occurs in the name as a run of
    consecutive characters, and [其他] when no key does; the search it makes
    is that of a substring. *)
Theorem find_province_first_key_that_occurs
    (name : string) (colleges : list (string * string)) :
  (∀ key, re_search [key] name = true ↔ occurs key name)
  ∧ (∀ i key prov,
       colleges !! i = Some (key, prov) → occurs key name →
       (∀ j key' prov', (j < i)%nat → colleges !! j = Some (key', prov') →
          ¬ occurs key' name) →
       find_province name colleges = prov)
  ∧ ((∀ key prov, (key, prov) ∈ colleges → ¬ occurs key name) →
     find_province name colleges = "其他")
  ∧ (find_province name colleges = "其他"
     ∨ ∃ key, (key, find_province name colleges) ∈ colleges ∧ occurs key name).
Proof.
  split; [intros key; apply re_search_occurs|].
  destruct (find_province_cases name colleges)
    as [[Hother Hnone] | (i & key & Hi & Hocc & Hbefore)].
  - split; [|split; [done | by left]].
    intros i key prov Hi Hocc _. exfalso. eapply Hnone; [|done].
    by eapply list_elem_of_lookup_2.
  - split; [|split].
    + intros i' key' prov' Hi' Hocc' Hbefore'.
      destruct (Nat.lt_trichotomy i i') as [Hlt | [-> | Hgt]].
      * exfalso. eapply (Hbefore' i); [done | done | done].
      * congruence.
      * exfalso. eapply (Hbefore i'); [done | done | done].
    + intros Hnone. exfalso. eapply Hnone; [|done].
      by eapply list_elem_of_lookup_2.
    + right. exists key. split; [by eapply list_elem_of_lookup_2 | done].
Qed.

(** ** The table of colleges *)

Lemma dict_set_keys key value d :
  (dict_set key value d).*1 = if decide (key ∈ d.*1) then d.*1 else d.*1 ++ [key].
Proof.
  induction d as [|[k v] d IH]; [done|].
  cbn [dict_set]. destruct (String.eqb_spec k key) as [->|Hne].
  - rewrite fmap_cons. cbn [fst]. rewrite decide_True by left. done.
  - rewrite !fmap_cons, IH. cbn [fst].
    destruct (decide (key ∈ d.*1)) as [Hin|Hout].
    + rewrite decide_True by by right. done.
    + rewrite decide_False; [done|]. intros [?|?]%elem_of_cons; congruence.
Qed.

Lemma elem_of_dict_set key value d k v :
  NoDup d.*1 →
  (k, v) ∈ dict_set key value d
  ↔ (k = key ∧ v = value) ∨ (k ≠ key ∧ (k, v) ∈ d).
Proof.
  induction d as [|[k0 v0] d IH]; intros Hnodup.
  - cbn [dict_set]. rewrite list_elem_of_singleton. split.
    + intros [= -> ->]. by left.
    + intros [[-> ->] | [_ Hin]]; [done | by apply elem_of_nil in Hin].
  - rewrite fmap_cons in Hnodup. apply NoDup_cons in Hnodup as [Hk0 Hnodup].
    cbn [dict_set fst] in *. destruct (String.eqb_spec k0 key) as [->|Hne].
    + rewrite !elem_of_cons. split.
      * intros [[= -> ->] | Hin]; [by left|]. right. split; [|by right].
        intros ->. apply Hk0. apply list_elem_of_fmap. by exists (key, v).
      * intros [[-> ->] | [Hk [[= -> ->] | Hin]]]; [by left | done | by right].
    + rewrite !elem_of_cons, (IH Hnodup). split.
      * intros [[= -> ->] | [[-> ->] | [Hk Hin]]].
        -- right. split; [done | by left].
        -- by left.
        -- right. split; [done | by right].
      * intros [[-> ->] | [Hk [[= -> ->] | Hin]]].
        -- right. by left.
        -- by left.
        -- right. right. by split.
Qed.

Lemma first_appearances_snoc keys k :
  first_appearances (keys ++ [k])
  = if decide (k ∈ first_appearances keys) then first_appearances keys
    else first_appearances keys ++ [k].
Proof. unfold first_appearances. by rewrite foldl_app. Qed.

Lemma first_appearances_NoDup keys : NoDup (first_appearances keys).
Proof.
  induction keys as [|k keys IH] using rev_ind; [constructor|].
  rewrite first_appearances_snoc. case_decide as Hk; [done|].
  apply NoDup_app. split; [done|]. split; [|apply NoDup_singleton].
  intros x Hx ->%list_elem_of_singleton. done.
Qed.

Lemma last_filed_snoc rows province college k p :
  last_filed (rows ++ [[province; college]]) k p
  ↔ (k = college_key college ∧ p = province)
    ∨ (k ≠ college_key college ∧ last_filed rows k p).
Proof.
  split.
  - intros (i & c & Hi & Hc & Hafter).
    destruct (decide (i < length rows)%nat) as [Hlt|Hge].
    + right. rewrite lookup_app_l in Hi by done. split.
      * intros ->. apply (Hafter (length rows) [province; college]); [done| |done].
        by rewrite lookup_app_r, Nat.sub_diag by lia.
      * exists i, c. split; [done|]. split; [done|].
        intros j row Hj Hrow. apply (Hafter j row Hj).
        rewrite lookup_app_l; [done|]. by eapply lookup_lt_Some.
    + left. rewrite lookup_app_r in Hi by lia.
      destruct (i - length rows)%nat; [|done]. by injection Hi as -> ->.
  - intros [[-> ->] | [Hk (i & c & Hi & Hc & Hafter)]].
    + exists (length rows), college.
      split; [by rewrite lookup_app_r, Nat.sub_diag by lia|].
      split; [done|]. intros j row Hj Hrow.
      apply lookup_lt_Some in Hrow. rewrite length_app in Hrow. simpl in Hrow. lia.
    + exists i, c. pose proof (lookup_lt_Some _ _ _ Hi) as Hlt.
      split; [by rewrite lookup_app_l|]. split; [done|].
      intros j row Hj Hrow.
      destruct (decide (j < length rows)%nat).
      * rewrite lookup_app_l in Hrow by done. by eapply Hafter.
      * rewrite lookup_app_r in Hrow by lia.
        destruct (j - length rows)%nat; [|done]. by injection Hrow as <-.
Qed.

Lemma colleges_step_tables seen s province college :
  tables_after seen s →
  ∃ s', colleges_step [province; college] s = (Ok tt, s')
        ∧ tables_after (seen ++ [[province; college]]) s'.
Proof.
  intros (Hempty & Hdom & Hkeys & Hfiled). eexists. split; [reflexivity|].
  unfold tables_after. cbn [fst snd].
  change (replace " " "" (re_sub NAME_PREPROCESS "" college))
    with (college_key college).
  split; [|split; [|split]].
  - intros p v. unfold setdefault.
    destruct (s.1 !! province) eqn:Hp; [apply Hempty|].
    rewrite lookup_insert. case_decide; [by intros [= <-] | apply Hempty].
  - intros p.
    assert ((∃ row, row ∈ seen ++ [[province; college]] ∧ row !! 0%nat = Some p)
            ↔ is_Some (s.1 !! p) ∨ p = province) as ->.
    { rewrite Hdom. split.
      - intros (row & [Hrow | ->%list_elem_of_singleton]%elem_of_app & Hp).
        + left. by exists row.
        + right. by injection Hp as <-.
      - intros [(row & Hrow & Hp) | ->].
        + exists row. split; [|done]. apply elem_of_app. by left.
        + exists [province; college]. split; [|done]. apply elem_of_app.
          right. by left. }
    unfold setdefault. destruct (s.1 !! province) eqn:Hprovince.
    + split; [by left|]. intros [? | ->]; [done | by rewrite Hprovince].
    + rewrite lookup_insert. case_decide as Hp.
      * subst p. split; [by right | by eexists].
      * split; [by left | by intros [? | ->]].
  - rewrite fmap_app. cbn [fmap list_fmap].
    change (row_key [province; college]) with (college_key college).
    by rewrite first_appearances_snoc, dict_set_keys, Hkeys.
  - intros k p. rewrite elem_of_dict_set, last_filed_snoc, Hfiled; [done|].
    rewrite Hkeys. apply first_appearances_NoDup.
Qed.

Lemma colleges_loop rows : ∀ seen s,
  tables_after seen s →
  if decide (Forall (λ row, length row = 2%nat) rows)
  then ∃ s', for_each rows colleges_step s = (Ok tt, s')
             ∧ tables_after (seen ++ rows) s'
  else (for_each rows colleges_step s).1 = Raise ValueError.
Proof.
  induction rows as [|row rows IH]; intros seen s Hs.
  - rewrite decide_True by constructor. exists s. by rewrite app_nil_r.
  - destruct (decide (length row = 2%nat)) as [Hrow|Hrow].
    + destruct row as [|province [|college [|? ?]]]; try done.
      destruct (colleges_step_tables seen s province college Hs)
        as (s1 & Hstep & Hs1).
      specialize (IH (seen ++ [[province; college]]) s1 Hs1).
      cbn [for_each]. erewrite bind_ok; [|exact Hstep].
      destruct (decide (Forall _ rows)) as [Hrows|Hrows].
      * rewrite decide_True by by constructor.
        destruct IH as (s' & Hrun & Hs'). exists s'. split; [done|].
        by rewrite <- app_assoc in Hs'.
      * rewrite decide_False; [done|]. by intros [_ ?]%Forall_cons.
    + rewrite decide_False by by intros [? _]%Forall_cons.
      by destruct row as [|province [|college [|? ?]]].
Qed.

(** X17. [load_colleges] raises [FileNotFoundError] when the file is
    missing and [ValueError] when a row does not hold exactly two fields (an
    empty line is such a row).  Otherwise it returns the two tables: the
    keys of [colleges] are the keys of the rows in the order in which each
    appears first, and each has the province of the last row filed under
    it; [provinces] holds the provinces of the rows and [其他], each with an
    empty list.  So whatever the name, the province [find_province] gives it
    from this table is a key of [provinces]. *)
Theorem load_colleges_builds_the_tables (file : option (list (list string))) :
  match file with
  | None => load_colleges file = inl FileNotFoundError
  | Some rows =>
      if decide (Forall (λ row, length row = 2%nat) rows) then
        ∃ provinces colleges,
          load_colleges file = inr (Ok (provinces, colleges))
          ∧ colleges.*1 = first_appearances (row_key <$> rows)
          ∧ NoDup colleges.*1
          ∧ (∀ key province,
               (key, province) ∈ colleges ↔ last_filed rows key province)
          ∧ (∀ province,
               is_Some (provinces !! province)
               ↔ province = "其他"
                 ∨ ∃ row, row ∈ rows ∧ row !! 0%nat = Some province)
          ∧ (∀ province v, provinces !! province = Some v → v = [])
          ∧ (∀ name, is_Some (provinces !! find_province name colleges))
      else load_colleges file = inr (Raise ValueError)
  end.
Proof.
  destruct file as [rows|]; [|done].
  assert (tables_after [] (∅, [])) as Hinit.
  { split; [|split; [|split]]; cbn [fst snd].
    - intros p v. by rewrite lookup_empty.
    - intros p. rewrite lookup_empty. split; [by intros [? ?]|].
      intros (row & Hrow & _). by apply elem_of_nil in Hrow.
    - done.
    - intros k p. split; [by intros ?%elem_of_nil|].
      by intros (i & c & Hi & _). }
  pose proof (colleges_loop rows [] (∅, []) Hinit) as Hloop.
  destruct (decide (Forall _ rows)) as [Hrows|Hrows].
  - destruct Hloop as ([provinces colleges] & Hrun & Hempty & Hdom & Hkeys & Hfiled).
    cbn [fst snd app] in *.
    exists (setdefault "其他" [] provinces), colleges.
    assert (∀ province,
              is_Some (setdefault "其他" [] provinces !! province)
              ↔ province = "其他"
                ∨ ∃ row, row ∈ rows ∧ row !! 0%nat = Some province) as Hdom'.
    { intros p. rewrite <- Hdom. unfold setdefault.
      destruct (provinces !! "其他") eqn:Hother.
      - split; [by right|]. intros [-> | ?]; [by rewrite Hother | done].
      - rewrite lookup_insert. case_decide as Hp.
        + subst p. split; [by left | by eexists].
        + split; [by right | by intros [? | ?]]. }
    split_and!; try done.
    + unfold load_colleges. erewrite bind_ok; [|exact Hrun]. done.
    + rewrite Hkeys. apply first_appearances_NoDup.
    + intros p v. unfold setdefault.
      destruct (provinces !! "其他") eqn:Hother; [apply Hempty|].
      rewrite lookup_insert. case_decide; [by intros [= <-] | apply Hempty].
    + intros name. apply Hdom'.
      destruct (find_province_cases name colleges)
        as [[-> _] | (i & key & Hi & _)]; [by left|].
      right. apply list_elem_of_lookup_2, Hfiled in Hi as (j & c & Hj & _).
      exists [find_province name colleges; c].
      split; [by eapply list_elem_of_lookup_2 | done].
  - unfold load_colleges. f_equal.
    unfold mbind, M_bind.
    destruct (for_each rows colleges_step (∅, [])) as [[[]|e] s]; simpl in *;
      congruence.
Qed.

(** ** Documents *)

Lemma render_questions_sections questions : ∀ groups,
  render_questions questions groups
  = if decide (length questions = length groups)
    then Ok (concat (zip_with question_section questions groups))
    else Raise ValueError.
Proof.
  induction questions as [|q qs IH]; intros [|g gs]; try done.
  cbn [render_questions length zip_with concat]. rewrite IH.
  destruct (decide (length qs = length gs)).
  - by rewrite decide_True by lia.
  - by rewrite decide_False by lia.
Qed.

Lemma render_returns name u slug archived :
  length (University.answers u) = length QUESTIONNAIRE →
  ∃ text, render_university_markdown name u slug archived = Ok text.
Proof.
  intros Hbins. unfold render_university_markdown, render_lines.
  rewrite render_questions_sections, decide_True by done. by eexists.
Qed.

(** X18. [render_university_markdown] raises [ValueError] exactly when the
    aggregate does not have one bin per question.  Otherwise the document is
    the concatenation of its lines: eight lines of front matter and
    headings around one line for each credit, then one section for each
    question in the order of the questionnaire, each with one line for each
    record of its bin in the order of the bin, then the section of the free
    texts, which is absent when there is none. *)
Theorem render_needs_one_bin_per_question
    (name : string) (u : University.t) (slug : string) (archived : bool) :
  if decide (length (University.answers u) = length QUESTIONNAIRE)
  then ∃ head,
         render_university_markdown name u slug archived
         = Ok (join "" (head
                        ++ concat (zip_with question_section QUESTIONNAIRE
                                            (University.answers u))
                        ++ additional_section (University.additional_answers u)))
         ∧ length head = (8 + length (University.credits u))%nat
  else render_university_markdown name u slug archived = Raise ValueError.
Proof.
  unfold render_university_markdown, render_lines.
  rewrite render_questions_sections.
  destruct (decide (length (University.answers u) = length QUESTIONNAIRE))
    as [Hbins|Hbins].
  - rewrite decide_True by done. eexists. split.
    + f_equal. f_equal. unfold additional_section.
      destruct (University.additional_answers u) as [|a additional].
      * rewrite app_nil_r. reflexivity.
      * rewrite <- !app_assoc. reflexivity.
    + rewrite !length_app, length_map. simpl. lia.
  - by rewrite decide_False by done.
Qed.

(** ** The whole run *)

Lemma write_tasks_spec slugify dict colleges archived st :
  all_well_formed st →
  ∃ tasks log,
    write_tasks slugify dict colleges archived st = (Ok tasks, add_stdout log st)
    ∧ (λ t, (task_name t, task_uni t)) <$> tasks = map_to_list (get_dict dict st)
    ∧ NoDup (task_slug <$> tasks)
    ∧ Forall (renders archived st) tasks.
Proof.
  intros Hwf.
  destruct (prepare_tasks_spec slugify dict colleges archived st FilenameMap.new
              (new_consistent))
    as (tasks & fm' & Hrun & Hitems & Hnodup & _).
  exists tasks. eexists. split; [unfold write_tasks; by rewrite Hrun|].
  split; [done|]. split; [done|].
  apply Forall_forall. intros t Ht.
  assert ((task_name t, task_uni t) ∈ map_to_list (get_dict dict st)) as Hin.
  { rewrite <- Hitems. apply list_elem_of_fmap. by exists t. }
  apply elem_of_map_to_list in Hin.
  destruct (Hwf dict) as [Hstore _].
  destruct (Hstore _ _ Hin) as (u & Hu & Hbins).
  destruct (render_returns (task_name t) u (task_slug t) archived Hbins)
    as [text Htext].
  by exists u, text.
Qed.

(** X19. The whole run.  When loading the rows raises, the script stops
    with that exception.  When it returns, nothing after it raises: the
    reconciliation of the two registries and the preparation of the tasks
    of the two partitions return, the registries are well formed at the
    end, there is one task for each entry of each registry, the slugs of a
    partition are pairwise distinct, and every task can be rendered: its
    aggregate is in the store and has one bin per question, so
    [render_university_markdown] returns its document. *)
Theorem loaded_registries_are_rendered
    (slugify : string → string)
    (int_of : string → option Z) (float_is_one : string → option bool)
    (zhconv_convert strip : string → string)
    (strptime : string → option datetime) (year_month : datetime → string)
    (rows : list (list string))
    (alias blacklist whitelist : option (list string))
    (colleges : list (string * string)) :
  let load := load_rows int_of float_is_one zhconv_convert strip strptime
                year_month rows in
  let run := main slugify int_of float_is_one zhconv_convert strip strptime
               year_month rows alias blacklist whitelist colleges in
  match (load initial_state).1 with
  | Raise e => run initial_state = (Raise e, (load initial_state).2)
  | Ok _ =>
      ∃ active archived st',
        run initial_state = (Ok (active, archived), st')
        ∧ all_well_formed st'
        ∧ (λ t, (task_name t, task_uni t)) <$> active
          = map_to_list (universities st')
        ∧ (λ t, (task_name t, task_uni t)) <$> archived
          = map_to_list (universities_archived st')
        ∧ NoDup (task_slug <$> active)
        ∧ NoDup (task_slug <$> archived)
        ∧ Forall (renders false st') active
        ∧ Forall (renders true st') archived
  end.
Proof.
  intros load run.
  pose proof (load_rows_well_formed int_of float_is_one zhconv_convert strip
                strptime year_month rows initial_state initial_well_formed)
    as Hwf1.
  fold load in Hwf1. subst run. unfold main. fold load.
  destruct (load initial_state) as [[[]|e] st1] eqn:Hload; cbn [fst snd] in *.
  2:{ unfold mbind, M_bind. by rewrite Hload. }
  erewrite bind_ok; [|exact Hload].
  destruct (process_universities_well_formed strip the_universities alias
              blacklist whitelist st1 Hwf1) as [Hr2 Hwf2].
  destruct (process_universities strip the_universities alias blacklist
              whitelist st1) as [r2 st2] eqn:H2. cbn [fst snd] in *. subst r2.
  erewrite bind_ok; [|exact H2].
  destruct (process_universities_well_formed strip the_universities_archived alias
              blacklist whitelist st2 Hwf2) as [Hr3 Hwf3].
  destruct (process_universities strip the_universities_archived alias blacklist
              whitelist st2) as [r3 st3] eqn:H3. cbn [fst snd] in *. subst r3.
  erewrite bind_ok; [|exact H3].
  destruct (write_tasks_spec slugify the_universities colleges false st3 Hwf3)
    as (active & log1 & Hactive & Hitems1 & Hnodup1 & Hrenders1).
  erewrite bind_ok; [|exact Hactive].
  assert (all_well_formed (add_stdout log1 st3)) as Hwf4.
  { intros r. apply well_formed_add_stdout, Hwf3. }
  destruct (write_tasks_spec slugify the_universities_archived colleges true
              (add_stdout log1 st3) Hwf4)
    as (archived & log2 & Harchived & Hitems2 & Hnodup2 & Hrenders2).
  erewrite bind_ok; [|exact Harchived].
  exists active, archived, (add_stdout log2 (add_stdout log1 st3)).
  split; [done|]. split.
  { intros r. apply well_formed_add_stdout, Hwf4. }
  split; [done|]. split; [done|]. split; [done|]. split; [done|].
  split; [|done].
  eapply Forall_impl; [exact Hrenders1|]. by intros t Ht.
Qed.
